(** * Session state machines of the agent sample hub

    A shallow embedding of the three Chainlit back ends of the repository

    - [azure_deepresearch_agent/app.py]   (polling deep-research flow),
    - [azure_realtimeapi_agent/app.py]    (realtime voice/text flow),
    - [azure_realtimeapi_async_fc/app.py] (realtime flow with tool calls),

    and the properties of their run guard, progress poller, result
    renderer, event dispatcher and tool-call handling.

    Python code is embedded as programs of a small free monad [prog]:
    reads and writes of [cl.user_session] are the [Get]/[Put] nodes, a
    [raise] is [Raise], and every call that leaves the handler (vendor
    SDK, realtime transport, Chainlit UI, clock, uuid) is a [Do] node
    answered by the environment.  An interpreter runs a program against
    an environment and records the calls it makes. *)

From Stdlib Require Import Ascii QArith Qround Lqa.
From stdpp Require Import base strings list gmap sorting pretty.


(** ** Python values shared by the three applications *)

(** Exception classes the handlers distinguish or produce. *)
Inductive exn_class :=
| HttpResponseError | RuntimeError | JSONDecodeError
| AttributeError | TypeError | KeyError | OtherError.

(** An exception: its class and [str(e)]. *)
Record exn := Exn { exn_cls : exn_class; exn_msg : string }.

Inductive result (A : Type) : Type :=
| Ok (a : A)
| Err (x : exn).
Arguments Ok {A} a.
Arguments Err {A} x.

Definition is_ok {A} (r : result A) : bool :=
  match r with Ok _ => true | Err _ => false end.

(** Truthiness of an optional string: [None] and [""] are falsy. *)
Definition truthy_str (o : option string) : bool :=
  match o with
  | Some s => negb (String.eqb s "")
  | None => false
  end.

(** The line feed, written [\n] in the Python sources. *)
Definition nl : string := String (Ascii.ascii_of_nat 10) EmptyString.

(** [sep.join(l)] *)
Fixpoint join (sep : string) (l : list string) : string :=
  match l with
  | [] => ""
  | [x] => x
  | x :: l' => x +:+ sep +:+ join sep l'
  end.

(** [s.strip()]: Python strips the characters for which [str.isspace]
    holds.  Strings are kept as their UTF-8 bytes; a white-space character
    is one of the byte sequences below, and since no lead byte of UTF-8 is
    a continuation byte, stripping them at the ends of the bytes strips the
    characters. *)
Definition bytes (l : list nat) : string :=
  foldr (λ n s, String (Ascii.ascii_of_nat n) s) EmptyString l.

Definition whitespace : list string :=
  bytes <$>
    [ [9]; [10]; [11]; [12]; [13]; [28]; [29]; [30]; [31]; [32];
      [194; 133]; [194; 160]; [225; 154; 128];
      [226; 128; 128]; [226; 128; 129]; [226; 128; 130]; [226; 128; 131];
      [226; 128; 132]; [226; 128; 133]; [226; 128; 134]; [226; 128; 135];
      [226; 128; 136]; [226; 128; 137]; [226; 128; 138];
      [226; 128; 168]; [226; 128; 169]; [226; 128; 175];
      [226; 129; 159]; [227; 128; 128] ].

Fixpoint drop_string (n : nat) (s : string) : string :=
  match n, s with
  | S n', String _ s' => drop_string n' s'
  | _, _ => s
  end.

Fixpoint strip_left (ws : list string) (fuel : nat) (s : string) : string :=
  match fuel with
  | 0 => s
  | S fuel' =>
      match List.find (λ w, String.prefix w s) ws with
      | Some w => strip_left ws fuel' (drop_string (String.length w) s)
      | None => s
      end
  end.

Definition lstrip (s : string) : string :=
  strip_left whitespace (String.length s) s.

Definition rstrip (s : string) : string :=
  let r := String.rev s in
  String.rev (strip_left (String.rev <$> whitespace) (String.length r) r).

Definition strip (s : string) : string := rstrip (lstrip s).

(** [re.search(r"(?is)cot_summary:\s*(.*?)(?=\n\s*(?:[A-Z][^:]*:|$)|$)", text)],
    as the first group of the match, on the UTF-8 bytes of [text].

    The search matches at the first occurrence of the label, whatever its
    case: from there [\s*] takes all the white space that follows, and the
    lazy group can always be extended to the end of the text, where [$]
    holds, so no later start and no shorter run of white space is tried.
    The group ends at the first position where the lookahead holds: at the
    end of the text (or before a final line feed), or at a line feed that
    is followed by white space only, or by white space, a letter and, later,
    a colon.  Under the [i] flag [[A-Z]] takes letters of either case.
    Letters are the ASCII letters: the few other characters that Python
    folds to an ASCII letter (such as the long s) are not told apart. *)
Definition is_ascii_letter (c : ascii) : bool :=
  let n := Ascii.nat_of_ascii c in
  (Nat.leb 65 n && Nat.leb n 90) || (Nat.leb 97 n && Nat.leb n 122).

Definition to_lower (c : ascii) : ascii :=
  let n := Ascii.nat_of_ascii c in
  if Nat.leb 65 n && Nat.leb n 90 then Ascii.ascii_of_nat (n + 32) else c.

(** [s] starts with the lower-case [p], whatever the case of [s]. *)
Fixpoint prefix_ignorecase (p s : string) : bool :=
  match p, s with
  | EmptyString, _ => true
  | String a p', String b s' =>
      Ascii.eqb a (to_lower b) && prefix_ignorecase p' s'
  | String _ _, EmptyString => false
  end.

Fixpoint after_cot_label (s : string) : option string :=
  if prefix_ignorecase "cot_summary:" s then Some (drop_string 12 s)
  else match s with
       | EmptyString => None
       | String _ s' => after_cot_label s'
       end.

Fixpoint has_colon (s : string) : bool :=
  match s with
  | EmptyString => false
  | String c s' => Ascii.eqb c ":"%char || has_colon s'
  end.

(** [(?=\n\s*(?:[A-Z][^:]*:|$)|$)] at the start of [s]. *)
Definition cot_lookahead (s : string) : bool :=
  String.eqb s "" || String.eqb s nl ||
  match s with
  | String c s' =>
      Ascii.eqb c (Ascii.ascii_of_nat 10) &&
      match lstrip s' with
      | EmptyString => true
      | String c1 s2 => is_ascii_letter c1 && has_colon s2
      end
  | EmptyString => false
  end.

Fixpoint cot_group (s : string) : string :=
  if cot_lookahead s then ""
  else match s with
       | EmptyString => ""
       | String c s' => String c (cot_group s')
       end.

Definition re_search_cot_summary (text : string) : option string :=
  match after_cot_label text with
  | Some rest => Some (cot_group (lstrip rest))
  | None => None
  end.

(** ** Programs *)

Section Prog.
Context {St : Type} {E : Type} {resp : E → Type}.

Inductive prog (A : Type) : Type :=
| Ret (a : A)
| Raise (x : exn)
| Get (k : St → prog A)
| Put (s : St) (k : prog A)
| Do (e : E) (k : resp e → prog A).
Arguments Ret {A} a.
Arguments Raise {A} x.
Arguments Get {A} k.
Arguments Put {A} s k.
Arguments Do {A} e k.

Fixpoint bind {A B} (m : prog A) (f : A → prog B) : prog B :=
  match m with
  | Ret a => f a
  | Raise x => Raise x
  | Get k => Get (λ s, bind (k s) f)
  | Put s k => Put s (bind k f)
  | Do e k => Do e (λ r, bind (k r) f)
  end.

(** [try: m  except Exception as x: h x] *)
Fixpoint try_except {A} (m : prog A) (h : exn → prog A) : prog A :=
  match m with
  | Ret a => Ret a
  | Raise x => h x
  | Get k => Get (λ s, try_except (k s) h)
  | Put s k => Put s (try_except k h)
  | Do e k => Do e (λ r, try_except (k r) h)
  end.

(** [try: m  finally: fin] *)
Definition try_finally {A} (m : prog A) (fin : prog unit) : prog A :=
  bind (try_except (bind m (λ a, Ret (Ok a))) (λ x, Ret (Err x)))
       (λ r, bind fin (λ _, match r with Ok a => Ret a | Err x => Raise x end)).

Definition gets {A} (f : St → A) : prog A := Get (λ s, Ret (f s)).
Definition modify (f : St → St) : prog unit := Get (λ s, Put (f s) (Ret tt)).

(** A call answered by the environment. *)
Definition perform (e : E) : prog (resp e) := Do e Ret.

(** A call that returns or raises. *)
Definition returned {A} (r : result A) : prog A :=
  match r with Ok a => Ret a | Err x => Raise x end.

(** *** Running a program

    The environment is a state machine over a world [W].  It answers each
    call and, while the caller is suspended in it, may also change the
    session: other coroutines of the same session run at an [await]. *)
Context {W : Type}.

Definition handler := ∀ e : E, W → St → W * St * resp e.

(** One recorded call: the call, its answer, the session when the call was
    made and the session when the caller resumed. *)
Record entry := Entry { ev : E; res : resp ev; pre : St; post : St }.

Record run (A : Type) := Run
  { env : W; final : St; value : result A; trace : list entry }.
Arguments Run {A}.
Arguments env {A}.
Arguments final {A}.
Arguments value {A}.
Arguments trace {A}.

Definition log {A} (x : entry) (r : run A) : run A :=
  Run (env r) (final r) (value r) (x :: trace r).

Fixpoint interp (h : handler) {A} (m : prog A) (w : W) (s : St) : run A :=
  match m with
  | Ret a => Run w s (Ok a) []
  | Raise x => Run w s (Err x) []
  | Get k => interp h (k s) w s
  | Put s' k => interp h k w s'
  | Do e k =>
      let '(w', s', r) := h e w s in
      log (Entry e r s s') (interp h (k r) w' s')
  end.

(** The calls of a run, in order. *)
Definition calls {A} (r : run A) : list E := ev <$> trace r.

(** Sequencing of runs. *)
Definition then_run {A B} (r : run A) (f : A → W → St → run B) : run B :=
  match value r with
  | Ok a => let r' := f a (env r) (final r) in
            Run (env r') (final r') (value r') (trace r ++ trace r')
  | Err x => Run (env r) (final r) (Err x) (trace r)
  end.

(** A handled exception continues with the handler. *)
Definition catch_run {A} (r : run A) (f : exn → W → St → run A) : run A :=
  match value r with
  | Ok a => r
  | Err x => let r' := f x (env r) (final r) in
             Run (env r') (final r') (value r') (trace r ++ trace r')
  end.

(** A sequential environment: it answers calls and leaves the session to
    the caller. *)
Definition seq (h0 : ∀ e : E, W → W * resp e) : handler :=
  λ e w s, let '(w', r) := h0 e w in (w', s, r).
End Prog.

Arguments prog : clear implicits.
Arguments handler : clear implicits.
Arguments entry : clear implicits.
Arguments run : clear implicits.
Arguments Ret {St E resp A} a.
Arguments Raise {St E resp A} x.
Arguments Get {St E resp A} k.
Arguments Put {St E resp A} s k.
Arguments Do {St E resp A} e k.
Arguments Run {St E resp W A}.
Arguments env {St E resp W A}.
Arguments final {St E resp W A}.
Arguments value {St E resp W A}.
Arguments trace {St E resp W A}.
Arguments Entry {St E resp}.
Arguments ev {St E resp}.
Arguments res {St E resp}.
Arguments pre {St E resp}.
Arguments post {St E resp}.

#[global] Instance prog_ret {St E resp} : MRet (prog St E resp) := λ A, Ret.
#[global] Instance prog_bind {St E resp} : MBind (prog St E resp) :=
  λ A B f m, bind m f.

(** * The deep-research flow: [azure_deepresearch_agent/app.py] *)

Module DeepResearch.

(** ** Vendor objects *)

(** A thread run as [runs.create] and [runs.get] return it.  [last_error]
    is kept as its [str()]. *)
Record thread_run := ThreadRun
  { run_id : string; status : string; last_error : option string }.

(** One URL-citation annotation of a message: [ann.url_citation]. *)
Record annotation := Annotation { url : string; title : option string }.

(** A [ThreadMessage]: the values of its text parts and its URL-citation
    annotations. *)
Record message := Message
  { text_messages : list string;
    url_citation_annotations : list annotation }.

(** A Chainlit message that was sent. *)
Definition handle := nat.

(** ** The session: the keys of [cl.user_session] the flow uses

    A key that was never set reads as [None]. *)
Record session := Session
  { thread_id : option string;
    active_run_id : option string;
    emitted_cot_set : option (gset string);
    emitted_url_lines : option (gset string) }.

Definition new_session : session := Session None None None None.

(** [cl.user_session.set(key, v)] *)
Definition set_thread_id (v : option string) (s : session) : session :=
  Session v (active_run_id s) (emitted_cot_set s) (emitted_url_lines s).
Definition set_active_run_id (v : option string) (s : session) : session :=
  Session (thread_id s) v (emitted_cot_set s) (emitted_url_lines s).
Definition set_emitted_cot_set (v : option (gset string)) (s : session)
  : session :=
  Session (thread_id s) (active_run_id s) v (emitted_url_lines s).
Definition set_emitted_url_lines (v : option (gset string)) (s : session)
  : session :=
  Session (thread_id s) (active_run_id s) (emitted_cot_set s) v.

(** ** The calls that leave the handler *)
Inductive call :=
| CreateClients                          (* credential and project client *)
| ClientEnter                            (* with agents_client_ctx as ... *)
| ClientExit
| ThreadsCreate
| MessagesCreate (thread role content : string)
| RunsCreate (thread agent : string)
| RunsGet (thread run : string)
| GetLastMessageByRole (thread : string) (* role = MessageRole.AGENT *)
| SendMessage (content : string)         (* cl.Message(content).send() *)
| StreamToken (msg : handle) (token : string)
| Sleep (seconds : Q)
| Now.                                   (* time.time() *)

(** What a call returns.  Vendor calls return or raise; the Chainlit calls,
    the clock and [asyncio.sleep] return. *)
Definition resp (c : call) : Type :=
  match c with
  | CreateClients => result unit
  | ClientEnter => result unit
  | ClientExit => unit
  | ThreadsCreate => result string
  | MessagesCreate _ _ _ => result unit
  | RunsCreate _ _ => result thread_run
  | RunsGet _ _ => result thread_run
  | GetLastMessageByRole _ => result (option message)
  | SendMessage _ => handle
  | StreamToken _ _ => unit
  | Sleep _ => unit
  | Now => Q
  end.

Abbreviation prog := (prog session call resp).

(** The calls, at their types. *)
Definition stream_token (msg : handle) (token : string) : prog unit :=
  perform (StreamToken msg token).
Definition send_message (content : string) : prog handle :=
  perform (SendMessage content).
Definition create_clients : prog unit := perform CreateClients ≫= returned.
Definition client_enter : prog unit := perform ClientEnter ≫= returned.
Definition client_exit : prog unit := perform ClientExit.
Definition sleep (seconds : Q) : prog unit := perform (Sleep seconds).
Definition time_time : prog Q := perform Now.
Definition runs_get (thread run : string) : prog (result thread_run) :=
  perform (RunsGet thread run).
Definition runs_create (thread agent : string) : prog thread_run :=
  perform (RunsCreate thread agent) ≫= returned.
Definition threads_create : prog string := perform ThreadsCreate ≫= returned.
Definition messages_create (thread role content : string) : prog unit :=
  perform (MessagesCreate thread role content) ≫= returned.
Definition get_last_message_by_role (thread : string)
  : prog (result (option message)) :=
  perform (GetLastMessageByRole thread).

(** The module-level configuration, read from the process environment. *)
Record config := Config
  { PROJECT_ENDPOINT : string;
    AGENT_ID : string;
    POLL_INTERVAL_SEC : Q;
    RUN_TIMEOUT_SEC : Z }.

(** ** Thread management *)

Definition _get_or_create_thread_id : prog string :=
  tid ← gets thread_id;
  if truthy_str tid then Ret (default "" tid)
  else
    new ← threads_create;
    modify (set_thread_id (Some new));;
    Ret new.

(** ** Run management *)

Definition _is_run_active : prog bool :=
  gets (λ s, bool_decide (active_run_id s ≠ None)).

Definition _set_active_run (run : option string) : prog unit :=
  modify (set_active_run_id run).

Definition already_active : exn :=
  Exn RuntimeError "A run is already active in this session.".

Definition _start_run (thread agent : string) : prog thread_run :=
  active ← _is_run_active;
  if active : bool then Raise already_active
  else
    r ← runs_create thread agent;
    _set_active_run (Some (run_id r));;
    modify (set_emitted_cot_set (Some ∅));;
    modify (set_emitted_url_lines (Some ∅));;
    Ret r.

Definition _end_run : prog unit := _set_active_run None.

(** ** Progress polling *)

(** [a > b] on time stamps. *)
Definition Qgtb (a b : Q) : bool := negb (Qle_bool a b).

(** [ann.url_citation.title or url] *)
Definition title_or_url (ann : annotation) : string :=
  if truthy_str (title ann) then default "" (title ann) else url ann.

(** How a bounded unfolding of [while True] ends. *)
Inductive loop_exit := Returned | OutOfFuel.

Definition timeout_notice : string := nl +:+ "⚠️ Timeout exceeded.".

Section Poll.
(** [re.search(cot_pattern, text)] of the standard library, as the first
    group of the match, for the pattern
    [(?is)cot_summary:\s*(.*?)(?=\n\s*(?:[A-Z][^:]*:|$)|$)]. *)
Variable cot_search : string → option string.

(** Lines 156-163: the summary block of the latest message. *)
Definition show_cot_summary (status_msg : handle) (text : string)
    (cot_set : gset string) : prog (gset string) :=
  match cot_search text with
  | Some group1 =>
      let cot_content := strip group1 in
      if String.eqb cot_content "" then Ret cot_set
      else
        let cot_block := "cot_summary: " +:+ cot_content in
        if bool_decide (cot_block ∈ cot_set) then Ret cot_set
        else
          stream_token status_msg
                     (nl +:+ nl +:+ "-----" +:+ nl +:+ cot_block);;
          let cot_set := {[cot_block]} ∪ cot_set in
          modify (set_emitted_cot_set (Some cot_set));;
          Ret cot_set
  | None => Ret cot_set
  end.

(** Lines 167-173: the loop over the annotations. *)
Fixpoint show_url_citations (status_msg : handle) (anns : list annotation)
    (url_lines : gset string) : prog (gset string) :=
  match anns with
  | [] => Ret url_lines
  | ann :: anns =>
      let citation :=
        "[" +:+ title_or_url ann +:+ "](" +:+ url ann +:+ ")" in
      if bool_decide (citation ∈ url_lines)
      then show_url_citations status_msg anns url_lines
      else
        stream_token status_msg (nl +:+ "URL Citation: " +:+ citation);;
        show_url_citations status_msg anns ({[citation]} ∪ url_lines)
  end.

(** Lines 143-177: the progress of a run that is queued or in progress.
    [cot_set] and [url_lines] are the poller's local variables
    [emitted_cot_set] and [emitted_url_lines]; they come back updated.  The only statement of the [try] that can raise is the fetch
    at its start, so the handler finds the sets as they were. *)
Definition show_progress (thread : string) (status_msg : handle)
    (cot_set url_lines : gset string)
  : prog (gset string * gset string) :=
  try_except
    (last_message ← get_last_message_by_role thread ≫= returned;
     match last_message with
     | Some m =>
         match text_messages m with
         | [] => Ret (cot_set, url_lines)
         | _ =>
             let text := join (nl +:+ nl) (strip <$> text_messages m) in
             cot_set ← show_cot_summary status_msg text cot_set;
             match url_citation_annotations m with
             | [] => Ret (cot_set, url_lines)
             | anns =>
                 url_lines ← show_url_citations status_msg anns url_lines;
                 modify (set_emitted_url_lines (Some url_lines));;
                 Ret (cot_set, url_lines)
             end
         end
     | None => Ret (cot_set, url_lines)
     end)
    (λ _, Ret (cot_set, url_lines)).

Definition in_progress (r : thread_run) : bool :=
  String.eqb (status r) "queued" || String.eqb (status r) "in_progress".

(** Lines 122-194: [while True], unfolded at most [fuel] times. *)
Fixpoint poll_loop (fuel : nat) (thread run : string) (status_msg : handle)
    (poll_interval timeout_sec start_time : Q)
    (cot_set url_lines : gset string) : prog loop_exit :=
  match fuel with
  | 0 => Ret OutOfFuel
  | S fuel =>
      got ← runs_get thread run;
      match got with
      | Err e =>
          stream_token status_msg
                     (match exn_cls e with
                      | HttpResponseError =>
                          nl +:+ "❗ Error getting run status: " +:+ exn_msg e
                      | _ => nl +:+ "❗ Unexpected error: " +:+ exn_msg e
                      end);;
          sleep poll_interval;;
          now ← time_time;
          if Qgtb (now - start_time) timeout_sec
          then stream_token status_msg timeout_notice;; Ret Returned
          else poll_loop fuel thread run status_msg poll_interval timeout_sec
                 start_time cot_set url_lines
      | Ok r =>
          if in_progress r then
            sets ← show_progress thread status_msg cot_set url_lines;
            now ← time_time;
            if Qgtb (now - start_time) timeout_sec
            then stream_token status_msg timeout_notice;; Ret Returned
            else
              sleep poll_interval;;
              poll_loop fuel thread run status_msg poll_interval timeout_sec
                start_time sets.1 sets.2
          else
            (if String.eqb (status r) "failed" then
               stream_token status_msg (nl +:+ "❌ Run failed.");;
               match last_error r with
               | Some err =>
                   stream_token status_msg (nl +:+ "Error: " +:+ err)
               | None => Ret tt
               end
             else Ret tt);;
            Ret Returned
      end
  end.

Definition _poll_run_and_show_progress (fuel : nat) (thread run : string)
    (status_msg : handle) (poll_interval timeout_sec : Q) : prog loop_exit :=
  start_time ← time_time;
  cot_set ← gets (λ s, default ∅ (emitted_cot_set s));
  url_lines ← gets (λ s, default ∅ (emitted_url_lines s));
  poll_loop fuel thread run status_msg poll_interval timeout_sec start_time
    cot_set url_lines.

(** ** Final results *)

Definition reference_line (ann : annotation) : string :=
  "- [" +:+ title_or_url ann +:+ "](" +:+ url ann +:+ ")".

(** Lines 225-230: the loop that collects the references. *)
Fixpoint collect_references (anns : list annotation) (seen_urls : gset string)
    (references : list string) : list string :=
  match anns with
  | [] => references
  | ann :: anns =>
      if bool_decide (url ann ∉ seen_urls)
      then collect_references anns ({[url ann]} ∪ seen_urls)
             (references ++ [reference_line ann])
      else collect_references anns seen_urls references
  end.

Definition references_of (anns : list annotation) : list string :=
  collect_references anns ∅ [].

Definition references_block (references : list string) : string :=
  nl +:+ nl +:+ "### References" +:+ nl +:+ join nl references.

Definition _display_final_results (thread : string) (output_msg : handle)
  : prog unit :=
  got ← get_last_message_by_role thread;
  match got with
  | Err e =>
      stream_token output_msg
                 ("Error retrieving final results: " +:+ exn_msg e)
  | Ok None => stream_token output_msg "No results available."
  | Ok (Some final_message) =>
      match text_messages final_message with
      | [] => stream_token output_msg "No content available."
      | texts =>
          stream_token output_msg (join (nl +:+ nl) (strip <$> texts))
      end;;
      match url_citation_annotations final_message with
      | [] => Ret tt
      | anns =>
          match references_of anns with
          | [] => Ret tt
          | references =>
              stream_token output_msg (references_block references)
          end
      end
  end.

(** ** The message handler *)

Variable cfg : config.

Definition _create_clients : prog unit :=
  if String.eqb (PROJECT_ENDPOINT cfg) ""
  then Raise (Exn RuntimeError "PROJECT_ENDPOINT is not set.")
  else if String.eqb (AGENT_ID cfg) ""
  then Raise (Exn RuntimeError "AGENT_ID is not set.")
  else create_clients.

Definition busy_notice : string :=
  "⚠️ Another research is in progress. Please wait for completion.".

(** [content] is [message.content]. *)
Definition on_message (fuel : nat) (content : option string) : prog loop_exit :=
  let user_query := strip (default "" content) in
  if String.eqb user_query "" then
    send_message "Please provide a research question.";;
    Ret Returned
  else if String.eqb (PROJECT_ENDPOINT cfg) "" || String.eqb (AGENT_ID cfg) ""
  then
    send_message
      "❌ Missing required environment variables: PROJECT_ENDPOINT or AGENT_ID";;
    Ret Returned
  else
    status_panel ← send_message "⏳ Starting deep research...";
    results_panel ← send_message "";
    created ←
      try_except (_create_clients;; Ret true)
        (λ e, stream_token status_panel
                (nl +:+ "❌ Failed to initialize clients: " +:+ exn_msg e);;
              Ret false);
    if created : bool then
      try_except
        (client_enter;;
         try_finally
           (thread ← _get_or_create_thread_id;
            active ← _is_run_active;
            if active : bool then
              send_message busy_notice;; Ret Returned
            else
              messages_create thread "user" user_query;;
              started ←
                try_except (r ← _start_run thread (AGENT_ID cfg); Ret (Some r))
                  (λ e, stream_token status_panel
                          (nl +:+ "❌ Failed to start research: " +:+ exn_msg e);;
                        _end_run;; Ret None);
              match started with
              | None => Ret Returned
              | Some r =>
                  try_finally
                    (polled ← _poll_run_and_show_progress fuel thread
                                (run_id r) status_panel
                                (POLL_INTERVAL_SEC cfg)
                                (inject_Z (RUN_TIMEOUT_SEC cfg));
                     match polled with
                     | Returned =>
                         _display_final_results thread results_panel;;
                         Ret Returned
                     | OutOfFuel => Ret OutOfFuel
                     end)
                    _end_run
              end)
           client_exit)
        (λ e, stream_token status_panel
                (nl +:+ "❗ Unexpected error: " +:+ exn_msg e);;
              _end_run;; Ret Returned)
    else Ret Returned.
End Poll.

(** ** What a run shows *)

(** The text of a [stream_token] call. *)
Definition token_of (c : call) : option string :=
  match c with StreamToken _ t => Some t | _ => None end.

(** The tokens streamed by a list of calls, in order. *)
Definition tokens (cs : list call) : list string := omap token_of cs.

(** The token that shows a summary block (line 161). *)
Definition cot_line (cot_block : string) : string :=
  nl +:+ nl +:+ "-----" +:+ nl +:+ cot_block.

(** Whether a token shows a summary block. *)
Definition is_cot_line (token : string) : bool :=
  String.prefix (nl +:+ nl +:+ "-----" +:+ nl) token.

(** The summary lines among the tokens, in order. *)
Definition cot_lines (ts : list string) : list string :=
  filter (λ t, is_cot_line t = true) ts.

(** The two deduplication sets of the session; a key never set reads as
    the empty set (lines 119-120). *)
Definition cot_seen (s : session) : gset string :=
  default ∅ (emitted_cot_set s).
Definition urls_seen (s : session) : gset string :=
  default ∅ (emitted_url_lines s).

(** Both sets of [s'] contain those of [s]. *)
Definition grown (s s' : session) : Prop :=
  cot_seen s ⊆ cot_seen s' ∧ urls_seen s ⊆ urls_seen s'.

(** Along a stretch [T] of a run that starts in session [s] and ends in
    [s'], the sets only grow: from the start to each call, from each call
    to every later one, and to the end. *)
Definition rising (s : session) (T : list (entry session call resp))
    (s' : session) : Prop :=
  StronglySorted grown (s :: (pre <$> T) ++ [s']).

(** A call that streams no summary line. *)
Definition silent (c : call) : Prop :=
  match c with StreamToken _ t => is_cot_line t = false | _ => True end.

(** What a stretch [T] of a run did to the poller's set of summary blocks,
    which was [C] before it and is [C'] after it: the set grew, no summary
    line was streamed twice, and the lines streamed are those of the
    blocks that were added. *)
Definition emits (C : gset string) (T : list (entry session call resp))
    (D : gset string) : Prop :=
  C ⊆ D ∧
  NoDup (cot_lines (tokens (ev <$> T))) ∧
  ∀ t, t ∈ cot_lines (tokens (ev <$> T)) →
       ∃ b, t = cot_line b ∧ (b ∉ C) ∧ b ∈ D.

(** A citation list deduplicated by URL, in first-seen order: every
    annotation whose URL no earlier annotation has. *)
Fixpoint first_seen (anns : list annotation) : list annotation :=
  match anns with
  | [] => []
  | ann :: anns => ann :: filter (λ b, url b ≠ url ann) (first_seen anns)
  end.

(** Token [t] is streamed in the stretch [T] of a run. *)
Definition streamed (t : string) (T : list (entry session call resp)) : Prop :=
  t ∈ tokens (ev <$> T).

(** The calls that show the progress of a run (lines 143-177). *)
Definition shows_progress (c : call) : bool :=
  match c with
  | GetLastMessageByRole _ | StreamToken _ _ => true
  | _ => false
  end.

(** The calls the poller makes to the vendor: it reads the run and the
    latest message, and nothing else. *)
Definition reads_only (c : call) : bool :=
  match c with
  | RunsGet _ _ | GetLastMessageByRole _
  | StreamToken _ _ | Sleep _ | Now => true
  | _ => false
  end.

(** A run is created only while the session has no active run. *)
Definition created_when_idle (x : entry session call resp) : Prop :=
  match ev x with
  | RunsCreate _ _ => active_run_id (pre x) = None
  | _ => True
  end.

(** The calls that start work for a new question. *)
Definition begins_work (c : call) : bool :=
  match c with
  | MessagesCreate _ _ _ | RunsCreate _ _ => true
  | _ => false
  end.

(** ** An environment with a clock

    The vendor is scripted: the [k]-th [runs.get] and the [k]-th
    [get_last_message_by_role] have fixed outcomes.  The clock advances by
    the time each call takes ([elapse], by index of the call) and by the
    duration of each sleep. *)
Record vendor := Vendor
  { on_create_clients : result unit;
    on_client_enter : result unit;
    on_threads_create : result string;
    on_messages_create : result unit;
    on_runs_create : result thread_run;
    on_runs_get : nat → result thread_run;
    on_get_last_message : nat → result (option message);
    elapse : nat → Q }.

Record world := World
  { clock : Q;          (* what time.time() returns *)
    n_calls : nat;      (* calls answered so far *)
    n_polls : nat;      (* runs.get calls answered so far *)
    n_fetches : nat;    (* get_last_message_by_role calls answered so far *)
    n_sent : nat }.     (* messages sent so far *)

Definition tick (v : vendor) (extra : Q) (w : world) : world :=
  World (clock w + elapse v (n_calls w) + extra) (S (n_calls w))
        (n_polls w) (n_fetches w) (n_sent w).

Definition answer (v : vendor) (c : call) (w : world) : world * resp c :=
  match c with
  | CreateClients => (tick v 0 w, on_create_clients v)
  | ClientEnter => (tick v 0 w, on_client_enter v)
  | ClientExit => (tick v 0 w, tt)
  | ThreadsCreate => (tick v 0 w, on_threads_create v)
  | MessagesCreate _ _ _ => (tick v 0 w, on_messages_create v)
  | RunsCreate _ _ => (tick v 0 w, on_runs_create v)
  | RunsGet _ _ =>
      let w := tick v 0 w in
      (World (clock w) (n_calls w) (S (n_polls w)) (n_fetches w) (n_sent w),
       on_runs_get v (n_polls w))
  | GetLastMessageByRole _ =>
      let w := tick v 0 w in
      (World (clock w) (n_calls w) (n_polls w) (S (n_fetches w)) (n_sent w),
       on_get_last_message v (n_fetches w))
  | SendMessage _ =>
      let w := tick v 0 w in
      (World (clock w) (n_calls w) (n_polls w) (n_fetches w) (S (n_sent w)),
       n_sent w)
  | StreamToken _ _ => (tick v 0 w, tt)
  | Sleep d => (tick v d w, tt)
  | Now => let w := tick v 0 w in (w, clock w)
  end.

Definition start_world : world := World 0 0 0 0 0.


(** A call made before the time-out: a reading of the clock that does not
    exceed it, or a token that is not the time-out notice. *)
Definition before (start timeout : Q) (x : entry session call resp) : Prop :=
  match ev x as c return resp c → Prop with
  | Now => λ t, (t - start <= timeout)%Q
  | StreamToken _ token => λ _, token ≠ timeout_notice
  | _ => λ _, True
  end (res x).


(** [n] as a number of seconds. *)
Definition seconds (n : nat) : Q := inject_Z (Z.of_nat n).

End DeepResearch.

(** * The realtime voice agent: [azure_realtimeapi_agent/app.py] *)

(** A Python value as an attribute of a server event holds it, as far as
    the handlers look at it. *)
Inductive pyval :=
| PyNone
| PyStr (s : string)
| PyBytes (b : string)
| PyOther.                               (* a value of any other type *)

(** [isinstance(v, str) and v] *)
Definition nonempty_str (v : pyval) : option string :=
  match v with
  | PyStr s => if String.eqb s "" then None else Some s
  | _ => None
  end.

(** [isinstance(v, (str, bytes)) and v] *)
Definition nonempty_str_or_bytes (v : pyval) : option string :=
  match v with
  | PyStr s | PyBytes s => if String.eqb s "" then None else Some s
  | _ => None
  end.

(** Truthiness of a session flag: a key that was never set reads [None]. *)
Definition truthy (o : option bool) : bool := default false o.

(** [s.endswith(suffix)] *)
Definition endswith (s suffix : string) : bool :=
  let n := String.length s in
  let k := String.length suffix in
  (k <=? n) && String.eqb (String.substring (n - k) k s) suffix.

Module Realtime.

(** A Chainlit message that was sent, an open realtime connection, its
    connection manager and the task that receives its events. *)
Definition handle := nat.
Definition conn := nat.
Definition manager := nat.
Definition task := nat.

(** ** The session: the keys of [cl.user_session] the agent uses *)
Record session := Session
  { connection : option conn;                   (* KEY_CONN *)
    recv_task : option task;                    (* KEY_RECV_TASK *)
    connection_manager : option manager;        (* KEY_CM *)
    track_id : option string;                   (* KEY_TRACK_ID *)
    is_generating : option bool;                (* KEY_IS_GENERATING *)
    is_playing : option bool;                   (* KEY_IS_PLAYING *)
    current_response_message : option handle;   (* KEY_CURRENT_RESPONSE_MSG *)
    current_user_message : option handle;       (* KEY_CURRENT_USER_MSG *)
    text_stream_locked : option bool }.         (* KEY_TEXT_STREAM_LOCKED *)

Definition new_session : session :=
  Session None None None None None None None None None.

(** [cl.user_session.set(key, v)] *)
Definition set_connection (v : option conn) (s : session) : session :=
  Session v (recv_task s) (connection_manager s) (track_id s)
    (is_generating s) (is_playing s) (current_response_message s)
    (current_user_message s) (text_stream_locked s).
Definition set_recv_task (v : option task) (s : session) : session :=
  Session (connection s) v (connection_manager s) (track_id s)
    (is_generating s) (is_playing s) (current_response_message s)
    (current_user_message s) (text_stream_locked s).
Definition set_connection_manager (v : option manager) (s : session)
  : session :=
  Session (connection s) (recv_task s) v (track_id s)
    (is_generating s) (is_playing s) (current_response_message s)
    (current_user_message s) (text_stream_locked s).
Definition set_track_id (v : option string) (s : session) : session :=
  Session (connection s) (recv_task s) (connection_manager s) v
    (is_generating s) (is_playing s) (current_response_message s)
    (current_user_message s) (text_stream_locked s).
Definition set_is_generating (v : option bool) (s : session) : session :=
  Session (connection s) (recv_task s) (connection_manager s) (track_id s)
    v (is_playing s) (current_response_message s)
    (current_user_message s) (text_stream_locked s).
Definition set_is_playing (v : option bool) (s : session) : session :=
  Session (connection s) (recv_task s) (connection_manager s) (track_id s)
    (is_generating s) v (current_response_message s)
    (current_user_message s) (text_stream_locked s).
Definition set_current_response_message (v : option handle) (s : session)
  : session :=
  Session (connection s) (recv_task s) (connection_manager s) (track_id s)
    (is_generating s) (is_playing s) v
    (current_user_message s) (text_stream_locked s).
Definition set_current_user_message (v : option handle) (s : session)
  : session :=
  Session (connection s) (recv_task s) (connection_manager s) (track_id s)
    (is_generating s) (is_playing s) (current_response_message s)
    v (text_stream_locked s).
Definition set_text_stream_locked (v : option bool) (s : session) : session :=
  Session (connection s) (recv_task s) (connection_manager s) (track_id s)
    (is_generating s) (is_playing s) (current_response_message s)
    (current_user_message s) v.

(** A server event, as the receive loop reads it with [getattr]: its type,
    [getattr(event, "delta", None)], [getattr(event, "transcript", "")] and
    the text the error handler logs. *)
Record event := Event
  { event_type : string;
    delta : pyval;
    transcript : pyval;
    error_text : string }.

(** ** The calls that leave the handlers *)
Inductive call :=
| Uuid4                                          (* str(uuid4()) *)
| MessageSend (content : string) (author type : option string)
                                                 (* cl.Message(...).send() *)
| StreamToken (msg : handle) (token : string)
| MessageUpdate (msg : handle)
| B64Decode (raw : string)
| SendAudioChunk (data track : string)
| SendAudioInterrupt
| ResponseCancel (c : conn)
| ItemCreate (c : conn) (text : string)          (* a user input_text item *)
| ResponseCreate (c : conn)
| TaskDone (t : task)
| TaskCancel (t : task)
| TaskAwait (t : task)
| ManagerExit (m : manager)
| LogError (text : string)
| LogException (x : exn).

(** What [await recv_task] gives after [recv_task.cancel()]: the await
    returns (the task has ended, having swallowed the cancellation), it
    raises an exception of the task, or it raises [asyncio.CancelledError].
    That class derives from [BaseException] and not from [Exception]: it
    is no [exn], and no [except Exception] catches it. *)
Inductive awaited := AwaitReturned | AwaitRaised (x : exn) | AwaitCancelled.

(** How a handler that awaits a cancelled task is left: it returns, or the
    [asyncio.CancelledError] of the await leaves it. *)
Inductive ending := Returns | RaisesCancelledError.

(** What a call returns.  The calls on the connection and the decoder
    return or raise; the Chainlit calls, the identifier generator and the
    logger return. *)
Definition resp (c : call) : Type :=
  match c with
  | Uuid4 => string
  | MessageSend _ _ _ => handle
  | StreamToken _ _ => unit
  | MessageUpdate _ => unit
  | B64Decode _ => result string
  | SendAudioChunk _ _ => unit
  | SendAudioInterrupt => unit
  | ResponseCancel _ => result unit
  | ItemCreate _ _ => result unit
  | ResponseCreate _ => result unit
  | TaskDone _ => bool
  | TaskCancel _ => unit
  | TaskAwait _ => awaited
  | ManagerExit _ => result unit
  | LogError _ => unit
  | LogException _ => unit
  end.

Abbreviation prog := (prog session call resp).

(** The calls, at their types. *)
Definition uuid4 : prog string := perform Uuid4.
Definition message_send (content : string) (author type : option string)
  : prog handle :=
  perform (MessageSend content author type).
Definition stream_token (msg : handle) (token : string) : prog unit :=
  perform (StreamToken msg token).
Definition message_update (msg : handle) : prog unit :=
  perform (MessageUpdate msg).
Definition b64decode (raw : string) : prog string :=
  perform (B64Decode raw) ≫= returned.
Definition send_audio_chunk (data track : string) : prog unit :=
  perform (SendAudioChunk data track).
Definition send_audio_interrupt : prog unit := perform SendAudioInterrupt.
Definition response_cancel (c : conn) : prog unit :=
  perform (ResponseCancel c) ≫= returned.
Definition item_create (c : conn) (text : string) : prog unit :=
  perform (ItemCreate c text) ≫= returned.
Definition response_create (c : conn) : prog unit :=
  perform (ResponseCreate c) ≫= returned.
Definition task_done (t : task) : prog bool := perform (TaskDone t).
Definition task_cancel (t : task) : prog unit := perform (TaskCancel t).
Definition task_await (t : task) : prog awaited := perform (TaskAwait t).
Definition manager_exit (m : manager) : prog unit :=
  perform (ManagerExit m) ≫= returned.
Definition log_error (text : string) : prog unit := perform (LogError text).
Definition log_exception (x : exn) : prog unit := perform (LogException x).

(** ** Session defaults and the audio track *)

(** [if cl.user_session.get(key) is None: cl.user_session.set(key, v)] *)
Definition set_default {A} (get : session → option A)
    (set : option A → session → session) (v : option A) : prog unit :=
  modify (λ s, match get s with None => set v s | Some _ => s end).

(** The dictionary of defaults is built first, so an identifier is drawn
    whether or not the session has a track. *)
Definition _ensure_session_defaults : prog unit :=
  tid ← uuid4;
  set_default is_generating set_is_generating (Some false);;
  set_default is_playing set_is_playing (Some false);;
  set_default track_id set_track_id (Some tid);;
  set_default text_stream_locked set_text_stream_locked (Some false);;
  set_default current_response_message set_current_response_message None;;
  set_default current_user_message set_current_user_message None.

Definition _get_track_id : prog string :=
  tid ← gets track_id;
  if truthy_str tid then Ret (default "" tid)
  else
    tid ← uuid4;
    modify (set_track_id (Some tid));;
    Ret tid.

(** ** The handlers of the receive loop *)

Definition agent_author : string := "エージェント".

Definition _stream_agent_text (d : string) : prog unit :=
  current_msg ← gets current_response_message;
  current_msg ← match current_msg with
                | None =>
                    m ← message_send "" (Some agent_author) None;
                    modify (set_current_response_message (Some m));;
                    Ret m
                | Some m => Ret m
                end;
  stream_token current_msg d.

Definition _handle_agent_text_delta (delta : pyval) : prog unit :=
  match nonempty_str delta with
  | Some d =>
      modify (set_text_stream_locked (Some true));;
      _stream_agent_text d
  | None => Ret tt
  end.

Definition _handle_agent_audio_transcript_delta (delta : pyval) : prog unit :=
  locked ← gets text_stream_locked;
  if negb (truthy locked) then
    match nonempty_str delta with
    | Some d => _stream_agent_text d
    | None => Ret tt
    end
  else Ret tt.

Definition _finalize_agent_message : prog unit :=
  current_msg ← gets current_response_message;
  match current_msg with
  | Some m =>
      message_update m;;
      modify (set_current_response_message None)
  | None => Ret tt
  end.

Definition _handle_agent_audio_delta (raw_b64 : pyval) : prog unit :=
  match nonempty_str_or_bytes raw_b64 with
  | Some raw =>
      audio_bytes ← b64decode raw;
      playing ← gets is_playing;
      (if negb (truthy playing) then modify (set_is_playing (Some true))
       else Ret tt);;
      track ← _get_track_id;
      send_audio_chunk audio_bytes track
  | None => Ret tt
  end.

Definition _handle_user_transcription_delta (delta : pyval) : prog unit :=
  match nonempty_str delta with
  | Some d =>
      user_msg ← gets current_user_message;
      user_msg ← match user_msg with
                 | None =>
                     m ← message_send "" (Some "user") (Some "user_message");
                     modify (set_current_user_message (Some m));;
                     Ret m
                 | Some m => Ret m
                 end;
      stream_token user_msg d
  | None => Ret tt
  end.

Definition _handle_user_transcription_completed (final_text : pyval)
  : prog unit :=
  user_msg ← gets current_user_message;
  match user_msg with
  | None =>
      match final_text with
      | PyStr t =>
          if negb (String.eqb (strip t) "") then
            message_send t (Some "user") (Some "user_message");; Ret tt
          else Ret tt
      | _ => Ret tt
      end
  | Some m =>
      message_update m;;
      modify (set_current_user_message None)
  end.

Definition _handle_user_transcription_failed : prog unit :=
  user_msg ← gets current_user_message;
  match user_msg with
  | Some m =>
      message_update m;;
      modify (set_current_user_message None)
  | None => Ret tt
  end.

Definition _handle_response_done : prog unit :=
  modify (set_is_generating (Some false));;
  modify (set_is_playing (Some false));;
  modify (set_text_stream_locked (Some false));;
  current_msg ← gets current_response_message;
  match current_msg with
  | Some m =>
      message_update m;;
      modify (set_current_response_message None)
  | None => Ret tt
  end.

Definition _handle_error_event (e : event) : prog unit :=
  modify (set_is_generating (Some false));;
  modify (set_text_stream_locked (Some false));;
  log_error ("[Realtime error] " +:+ error_text e);;
  current_msg ← gets current_response_message;
  match current_msg with
  | Some m =>
      message_update m;;
      modify (set_current_response_message None)
  | None => Ret tt
  end;;
  current_user_msg ← gets current_user_message;
  match current_user_msg with
  | Some m =>
      message_update m;;
      modify (set_current_user_message None)
  | None => Ret tt
  end.

(** The body of the receive loop: one event. *)
Definition dispatch (e : event) : prog unit :=
  let event_type := event_type e in
  if String.eqb event_type "response.text.delta" then
    _handle_agent_text_delta (delta e)
  else if String.eqb event_type "response.audio_transcript.delta" then
    _handle_agent_audio_transcript_delta (delta e)
  else if String.eqb event_type "response.text.done"
          || String.eqb event_type "response.audio_transcript.done" then
    _finalize_agent_message
  else if String.eqb event_type "response.audio.delta" then
    _handle_agent_audio_delta (delta e)
  else if String.eqb event_type
            "conversation.item.input_audio_transcription.delta" then
    _handle_user_transcription_delta (delta e)
  else if String.eqb event_type
            "conversation.item.input_audio_transcription.completed" then
    _handle_user_transcription_completed (transcript e)
  else if String.eqb event_type
            "conversation.item.input_audio_transcription.failed" then
    _handle_user_transcription_failed
  else if String.eqb event_type "response.done" then
    _handle_response_done
  else if String.eqb event_type "error" || endswith event_type ".error" then
    _handle_error_event e
  else Ret tt.

(** The receive loop over the events the connection delivers before it
    closes; an exception of a handler ends the loop and is logged. *)
Definition _receive_events_loop (events : list event) : prog unit :=
  try_except (foldr (λ e rest, dispatch e;; rest) (Ret tt) events)
    log_exception.

(** ** The Chainlit handlers *)

Definition greeting : string :=
  "🎙️ Azure OpenAI Realtimeエージェントです。録音開始ボタンを押して話しかけてください。"
  +:+ nl +:+ nl +:+
  "- あなたの音声が自動的にテキストで表示されます。" +:+ nl +:+
  "- エージェントの回答も音声と一緒にテキスト表示されます。" +:+ nl +:+
  "- エージェントの回答中は新しい質問の入力をお待ちください。".

Definition on_chat_start : prog unit :=
  _ensure_session_defaults;;
  message_send greeting None None;;
  Ret tt.

Definition no_connection_notice : string :=
  "音声モードを開始してから送信してください！".

Definition on_message (content : string) : prog unit :=
  _ensure_session_defaults;;
  connection ← gets connection;
  match connection with
  | None =>
      message_send no_connection_notice None None;;
      Ret tt
  | Some connection =>
      generating ← gets is_generating;
      playing ← gets is_playing;
      (if truthy generating || truthy playing then
         try_except (response_cancel connection) (λ _, Ret tt);;
         send_audio_interrupt;;
         tid ← uuid4;
         modify (set_track_id (Some tid));;
         modify (set_is_generating (Some false));;
         modify (set_is_playing (Some false));;
         current_msg ← gets current_response_message;
         match current_msg with
         | Some m =>
             message_update m;;
             modify (set_current_response_message None)
         | None => Ret tt
         end
       else Ret tt);;
      item_create connection content;;
      response_create connection;;
      modify (set_is_generating (Some true))
  end.

(** [on_chat_end], also registered as [on_stop].  The [except Exception]
    around [await recv_task] passes over what the task raised, but not
    over [asyncio.CancelledError]: that one leaves the handler at the
    await, and nothing below it runs. *)
Definition on_chat_end : prog ending :=
  recv_task ← gets recv_task;
  cancelled ←
    match recv_task with
    | Some t =>
        done ← task_done t;
        if negb done then
          task_cancel t;;
          r ← task_await t;
          match r with
          | AwaitReturned | AwaitRaised _ => Ret false
          | AwaitCancelled => Ret true
          end
        else Ret false
    | None => Ret false
    end;
  if cancelled : bool then Ret RaisesCancelledError
  else
    cm ← gets connection_manager;
    match cm with
    | Some m => try_except (manager_exit m) (λ _, Ret tt)
    | None => Ret tt
    end;;
    modify (set_connection None);;
    modify (set_connection_manager None);;
    modify (set_recv_task None);;
    modify (set_current_response_message None);;
    modify (set_current_user_message None);;
    Ret Returns.

(** ** Notions the claims are stated with *)

(** The token a call appends to a message, with the message. *)
Definition token_of (c : call) : option (handle * string) :=
  match c with StreamToken m t => Some (m, t) | _ => None end.

(** The user input a call submits to the conversation. *)
Definition submits (c : call) : bool :=
  match c with ItemCreate _ _ => true | _ => false end.

(** A delta the handlers have no text in: absent, not a string, or the
    empty string. *)
Definition no_text (v : pyval) : Prop := ∀ t, v = PyStr t → t = "".

(** The session with its missing defaults filled, [tid] being the
    identifier drawn for the track. *)
Definition filled (tid : string) (s : session) : session :=
  Session (connection s) (recv_task s) (connection_manager s)
    (Some (default tid (track_id s)))
    (Some (truthy (is_generating s))) (Some (truthy (is_playing s)))
    (current_response_message s) (current_user_message s)
    (Some (truthy (text_stream_locked s))).

(** The writes of a barge-in on the session [s]: the track is [tid] and
    both flags are false. *)
Definition quiet (tid : string) (s : session) : session :=
  set_is_playing (Some false)
    (set_is_generating (Some false) (set_track_id (Some tid) s)).

(** The session once the chat has ended: the connection, its manager, the
    receive task and both open messages are cleared; the track and the
    flags are as they were. *)
Definition ended (s : session) : session :=
  Session None None None (track_id s) (is_generating s) (is_playing s)
    None None (text_stream_locked s).

(** An await of a cancelled task that raised [asyncio.CancelledError]. *)
Definition cancelled_await (x : entry session call resp) : bool :=
  match ev x as c return resp c → bool with
  | TaskAwait _ => λ r, match r with AwaitCancelled => true | _ => false end
  | _ => λ _, false
  end (res x).


(** An environment of one connection, scripted: the identifiers it draws,
    whether cancelling a response fails, and whether the receive task has
    ended. *)
Record script := Script
  { draw : nat → string;
    cancel_fails : bool;
    receiver_ended : bool }.

Record world := World { n_drawn : nat; n_sent : nat }.

Definition start_world : world := World 0 0.

Definition answer (v : script) (c : call) (w : world) : world * resp c :=
  match c return world * resp c with
  | Uuid4 => (World (S (n_drawn w)) (n_sent w), draw v (n_drawn w))
  | MessageSend _ _ _ => (World (n_drawn w) (S (n_sent w)), n_sent w)
  | StreamToken _ _ => (w, tt)
  | MessageUpdate _ => (w, tt)
  | B64Decode raw => (w, Ok raw)
  | SendAudioChunk _ _ => (w, tt)
  | SendAudioInterrupt => (w, tt)
  | ResponseCancel _ =>
      (w, if cancel_fails v
          then Err (Exn OtherError "no active response") else Ok tt)
  | ItemCreate _ _ => (w, Ok tt)
  | ResponseCreate _ => (w, Ok tt)
  | TaskDone _ => (w, receiver_ended v)
  | TaskCancel _ => (w, tt)
  | TaskAwait _ => (w, AwaitReturned)
  | ManagerExit _ => (w, Ok tt)
  | LogError _ => (w, tt)
  | LogException _ => (w, tt)
  end.

End Realtime.

(** * The realtime agent with tools: [azure_realtimeapi_async_fc/app.py] *)

(** ** JSON values and [json.dumps(v, ensure_ascii=False)]

    A dictionary keeps its items in insertion order and holds each key
    once.  A float is kept as the text [json.dumps] writes for it. *)
#[warnings="-register-all"] Inductive json :=
| JNull
| JBool (b : bool)
| JInt (n : Z)
| JFloat (text : string)
| JStr (s : string)
| JList (items : list json)
| JDict (items : list (string * json)).

Definition hex_digit (n : nat) : ascii :=
  ascii_of_nat (if n <? 10 then 48 + n else 87 + n).

Definition dquote : string := String (ascii_of_nat 34) EmptyString.
Definition backslash : string := String (ascii_of_nat 92) EmptyString.

(** The escapes of [json.encoder] when non-ASCII text is left as it is. *)
Definition escape_char (c : ascii) : string :=
  let n := nat_of_ascii c in
  if n =? 34 then backslash +:+ dquote
  else if n =? 92 then backslash +:+ backslash
  else if n =? 10 then backslash +:+ "n"
  else if n =? 13 then backslash +:+ "r"
  else if n =? 9 then backslash +:+ "t"
  else if n =? 8 then backslash +:+ "b"
  else if n =? 12 then backslash +:+ "f"
  else if n <? 32 then
    backslash +:+ "u00" +:+
    String (hex_digit (n / 16)) (String (hex_digit (n mod 16)) EmptyString)
  else String c EmptyString.

Fixpoint escape (s : string) : string :=
  match s with
  | EmptyString => ""
  | String c s' => escape_char c +:+ escape s'
  end.

Definition encode_str (s : string) : string := dquote +:+ escape s +:+ dquote.

Fixpoint json_dumps (v : json) : string :=
  match v with
  | JNull => "null"
  | JBool true => "true"
  | JBool false => "false"
  | JInt n => pretty n
  | JFloat text => text
  | JStr s => encode_str s
  | JList items => "[" +:+ join ", " (map json_dumps items) +:+ "]"
  | JDict items =>
      "{" +:+
      join ", " (map (λ kv, encode_str kv.1 +:+ ": " +:+ json_dumps kv.2) items)
      +:+ "}"
  end.

(** [type(v).__name__] of a value that [json.loads] returned. *)
Definition py_type_name (v : json) : string :=
  match v with
  | JNull => "NoneType"
  | JBool _ => "bool"
  | JInt _ => "int"
  | JFloat _ => "float"
  | JStr _ => "str"
  | JList _ => "list"
  | JDict _ => "dict"
  end.

Fixpoint assoc (key : string) (items : list (string * json)) : option json :=
  match items with
  | [] => None
  | (k, v) :: items' => if String.eqb k key then Some v else assoc key items'
  end.

(** [args.get(key, default)]: only a dictionary has the method. *)
Definition dict_get (args : json) (key : string) (default : json)
  : result json :=
  match args with
  | JDict items => Ok (from_option id default (assoc key items))
  | _ => Err (Exn AttributeError
                ("'" +:+ py_type_name args
                 +:+ "' object has no attribute 'get'"))
  end.

(** [{"error": msg}] *)
Definition error_payload (msg : string) : json := JDict [("error", JStr msg)].

Module AsyncFC.

Definition conn := nat.
Definition step := nat.

(** An entry of the dictionary of pending function calls. *)
Record pending := Pending
  { p_name : string; p_arguments : string; p_item_id : option string }.

(** ** The session: the keys of [cl.user_session] the function-call
    handlers use *)
Record session := Session
  { connection : option conn;                           (* KEY_CONN *)
    is_generating : option bool;                        (* KEY_IS_GENERATING *)
    pending_function_calls : option (gmap string pending) }.
                                            (* KEY_PENDING_FUNCTION_CALLS *)

Definition set_connection (v : option conn) (s : session) : session :=
  Session v (is_generating s) (pending_function_calls s).
Definition set_is_generating (v : option bool) (s : session) : session :=
  Session (connection s) v (pending_function_calls s).
Definition set_pending_function_calls (v : option (gmap string pending))
    (s : session) : session :=
  Session (connection s) (is_generating s) v.

(** A function-call event, as the handlers read it with [getattr]: the
    call identifier and the name may be absent; the fragment and the full
    arguments are strings, empty when absent. *)
Record event := Event
  { call_id : option string;
    name : option string;
    delta : string;
    arguments : string;
    item_id : option string }.

(** ** The calls that leave the handlers *)
Inductive call :=
| CreateTask (c : conn) (call_id : string) (name : option string)
    (arguments : string)
      (* asyncio.create_task(_execute_function_call_async(...)) *)
| StepSend (name : string)               (* cl.Step(name, type="tool").send() *)
| StepUpdate (st : step) (input output : option string) (is_error : bool)
| LogInfo (text : string)
| LogException (text : string)
| Sleep (seconds : Q)
| ItemCreate (c : conn) (call_id output : string)
                                         (* a function_call_output item *)
| ResponseCreate (c : conn) (instructions : option string).

(** What a call returns.  The calls on the connection return or raise. *)
Definition resp (c : call) : Type :=
  match c with
  | CreateTask _ _ _ _ => unit
  | StepSend _ => step
  | StepUpdate _ _ _ _ => unit
  | LogInfo _ => unit
  | LogException _ => unit
  | Sleep _ => unit
  | ItemCreate _ _ _ => result unit
  | ResponseCreate _ _ => result unit
  end.

Abbreviation prog := (prog session call resp).

Definition create_task (c : conn) (call_id : string) (name : option string)
    (arguments : string) : prog unit :=
  perform (CreateTask c call_id name arguments).
Definition step_send (name : string) : prog step := perform (StepSend name).
Definition step_update (st : step) (input output : option string)
    (is_error : bool) : prog unit :=
  perform (StepUpdate st input output is_error).
Definition log_info (text : string) : prog unit := perform (LogInfo text).
Definition log_exception (text : string) : prog unit :=
  perform (LogException text).
Definition sleep (seconds : Q) : prog unit := perform (Sleep seconds).
Definition item_create (c : conn) (call_id output : string) : prog unit :=
  perform (ItemCreate c call_id output) ≫= returned.
Definition response_create (c : conn) (instructions : option string)
  : prog unit :=
  perform (ResponseCreate c instructions) ≫= returned.

(** ** What the handlers compute without a call

    The parser, the texts the tools and the step display build from their
    arguments: functions of their arguments, which the claims do not look
    into.  [weather_report] is the dictionary [get_weather] returns, or the
    exception its string operations raise; [format_input] is the display of
    the arguments and [format_output] the display of the result with the
    error mark, both with their fall-back to the raw text. *)
Class Library := {
  json_loads : string → result json;
  weather_report : json → json → result json;
  search_notice : json → string;
  search_results : json → json → json;
  format_input : string → string;
  format_output : option string → string → string * bool }.

Section Tools.
Context `{Library}.

(** ** The tools *)

Definition get_weather (location date : json) : prog json :=
  sleep (1 # 2);;
  returned (weather_report location date).

Definition search_database (query category : json) : prog json :=
  log_info (search_notice query);;
  sleep 20;;
  Ret (search_results query category).

(** ** Execution of a function call *)

(** [f"{name}"] *)
Definition name_str (name : option string) : string := default "None" name.

Definition unknown_function (name : option string) : json :=
  error_payload ("Unknown function: " +:+ name_str name).

Definition _execute_function_call (name : option string) (arguments : string)
  : prog string :=
  try_except
    (args ← returned (json_loads arguments);
     if decide (name = Some "get_weather") then
       location ← returned (dict_get args "location" (JStr ""));
       date ← returned (dict_get args "date" JNull);
       result ← get_weather location date;
       Ret (json_dumps result)
     else if decide (name = Some "search_database") then
       query ← returned (dict_get args "query" (JStr ""));
       category ← returned (dict_get args "category" JNull);
       result ← search_database query category;
       Ret (json_dumps result)
     else Ret (json_dumps (unknown_function name)))
    (λ e,
       log_exception ("Function call error: " +:+ exn_msg e);;
       Ret (json_dumps (error_payload (exn_msg e)))).

(** ** The function-call events *)

Definition _handle_function_call_arguments_delta (e : event) : prog unit :=
  if truthy_str (call_id e) then
    let call_id := default "" (call_id e) in
    stored ← gets pending_function_calls;
    let pending_calls := default ∅ stored in
    let pending_calls :=
      if decide (is_Some (pending_calls !! call_id)) then pending_calls
      else <[call_id := Pending "" "" (item_id e)]> pending_calls in
    let pending_calls :=
      alter (λ p, Pending (p_name p) (p_arguments p +:+ delta e) (p_item_id p))
        call_id pending_calls in
    modify (set_pending_function_calls (Some pending_calls))
  else Ret tt.

Definition _handle_function_call_arguments_done (e : event) : prog unit :=
  if negb (truthy_str (call_id e)) then Ret tt
  else
    let call_id := default "" (call_id e) in
    connection ← gets connection;
    match connection with
    | None => Ret tt
    | Some connection =>
        create_task connection call_id (name e) (arguments e);;
        stored ← gets pending_function_calls;
        let pending_calls := default ∅ stored in
        if decide (is_Some (pending_calls !! call_id)) then
          modify (set_pending_function_calls
                    (Some (delete call_id pending_calls)))
        else Ret tt
    end.

(** ** The task of one function call *)

Definition answer_instructions : string :=
  "Function callの結果を使って、ユーザーに分かりやすく回答してください。".

(** [if not cl.user_session.get(KEY_IS_GENERATING): ...] *)
Definition request_response (connection : conn) (instructions : option string)
  : prog unit :=
  generating ← gets is_generating;
  if negb (truthy generating) then
    modify (set_is_generating (Some true));;
    response_create connection instructions
  else Ret tt.

Definition _execute_function_call_async (connection : conn) (call_id : string)
    (name : option string) (arguments : string) : prog unit :=
  st ← step_send ("🔧 " +:+ name_str name);
  let input := format_input arguments in
  try_except
    (step_update st (Some input) None false;;
     log_info ("Executing function: " +:+ name_str name
               +:+ " with args: " +:+ arguments);;
     result ← _execute_function_call name arguments;
     log_info ("Function result: " +:+ result);;
     let output := format_output name result in
     step_update st (Some input) (Some output.1) output.2;;
     item_create connection call_id result;;
     request_response connection (Some answer_instructions))
    (λ e,
       log_exception ("Error executing function call: " +:+ exn_msg e);;
       step_update st (Some input)
         (Some ("❌ エラーが発生しました: " +:+ exn_msg e)) true;;
       let error_result := json_dumps (error_payload (exn_msg e)) in
       item_create connection call_id error_result;;
       request_response connection None).

(** The coroutine a [CreateTask] call schedules. *)
Definition spawned (c : call) : option (prog unit) :=
  match c with
  | CreateTask connection call_id name arguments =>
      Some (_execute_function_call_async connection call_id name arguments)
  | _ => None
  end.

(** The handler applied to the events of a list, in order. *)
Definition receive_deltas (events : list event) : prog unit :=
  foldr (λ e rest, _handle_function_call_arguments_delta e;; rest) (Ret tt)
    events.

End Tools.

(** ** Notions the claims are stated with *)

(** The arguments buffered for a call identifier. *)
Definition buffered (id : string) (s : session) : string :=
  match pending_function_calls s ≫= (.!! id) with
  | Some p => p_arguments p
  | None => ""
  end.

(** The fragments of the events that carry the identifier, concatenated in
    the order of the events. *)
Fixpoint fragments (id : string) (events : list event) : string :=
  match events with
  | [] => ""
  | e :: events' =>
      if decide (call_id e = Some id) then delta e +:+ fragments id events'
      else fragments id events'
  end.

(** A tool output was fed back: the item was created. *)
Definition fed (x : entry session call resp) : bool :=
  match ev x as c return resp c → bool with
  | ItemCreate _ _ _ => is_ok
  | _ => λ _, false
  end (res x).

(** A response is requested. *)
Definition requests (c : call) : bool :=
  match c with ResponseCreate _ _ => true | _ => false end.

(** What follows an entry [x] of a trace, [T] being the rest of the trace:
    a feed that returns to a session that is generating ends the trace; a
    feed that returns to a session that is not generating is followed by
    the request, made with the flag set; anything else is not followed by
    a request. *)
Definition follows (x : entry session call resp)
    (T : list (entry session call resp)) : Prop :=
  if fed x then
    if truthy (is_generating (post x)) then T = []
    else ∃ y T', T = y :: T' ∧ requests (ev y) = true ∧
                 pre y = set_is_generating (Some true) (post x)
  else match T with
       | y :: _ => requests (ev y) = false
       | [] => True
       end.

Fixpoint single_flight (T : list (entry session call resp)) : Prop :=
  match T with
  | [] => True
  | x :: T' => follows x T' ∧ single_flight T'
  end.

(** A call that neither feeds an output nor requests a response. *)
Definition quiet (x : entry session call resp) : Prop :=
  fed x = false ∧ requests (ev x) = false.

(** A trace that does not begin with a request, and one that does not end
    with a feed. *)
Definition unrequested (T : list (entry session call resp)) : Prop :=
  match T with
  | y :: _ => requests (ev y) = false
  | [] => True
  end.

Definition settled (T : list (entry session call resp)) : Prop :=
  match last T with
  | Some x => fed x = false
  | None => True
  end.

(** An environment, scripted: whether the calls on the connection fail,
    and whether another response starts while a tool sleeps. *)
Record script := Script
  { feed_fails : bool;
    request_fails : bool;
    response_starts_meanwhile : bool }.

Record world := World { n_steps : nat }.

Definition start_world : world := World 0.

Definition answer (v : script) : handler session call resp world :=
  λ c w s,
    match c return world * session * resp c with
    | CreateTask _ _ _ _ => (w, s, tt)
    | StepSend _ => (World (S (n_steps w)), s, n_steps w)
    | StepUpdate _ _ _ _ => (w, s, tt)
    | LogInfo _ => (w, s, tt)
    | LogException _ => (w, s, tt)
    | Sleep _ =>
        (w, if response_starts_meanwhile v
            then set_is_generating (Some true) s else s, tt)
    | ItemCreate _ _ _ =>
        (w, s, if feed_fails v
               then Err (Exn OtherError "connection closed") else Ok tt)
    | ResponseCreate _ _ =>
        (w, s, if request_fails v
               then Err (Exn OtherError "connection closed") else Ok tt)
    end.

End AsyncFC.

(** * Facts about programs and their runs *)

Section ProgFacts.
Context {St E : Type} {resp : E → Type} {W : Type}.
Implicit Types h : handler St E resp W.

Lemma interp_bind h {A B} (m : prog St E resp A) (f : A → prog St E resp B) w s :
  interp h (m ≫= f) w s = then_run (interp h m w s) (λ a, interp h (f a)).
Proof.
  unfold mbind, prog_bind.
  revert w s. induction m as [a|x|k IH|s' k IH|e k IH]; intros w s; simpl.
  - unfold then_run; simpl. by destruct (interp h (f a) w s).
  - done.
  - apply IH.
  - apply IH.
  - destruct (h e w s) as [[w' s'] r]. rewrite IH.
    unfold then_run, log; simpl. by destruct (value (interp h (k r) w' s')).
Qed.

Lemma interp_try_except h {A} (m : prog St E resp A) (f : exn → prog St E resp A) w s :
  interp h (try_except m f) w s =
  catch_run (interp h m w s) (λ x, interp h (f x)).
Proof.
  revert w s. induction m as [a|x|k IH|s' k IH|e k IH]; intros w s; simpl.
  - done.
  - unfold catch_run; simpl. by destruct (interp h (f x) w s).
  - apply IH.
  - apply IH.
  - destruct (h e w s) as [[w' s'] r]. rewrite IH.
    unfold catch_run, log; simpl.
    destruct (interp h (k r) w' s') as [w2 s2 [a|x] tr]; simpl; [done|].
    by destruct (interp h (f x) w2 s2).
Qed.

Lemma interp_ret h {A} (a : A) w s :
  interp h (mret a : prog St E resp A) w s = Run w s (Ok a) [].
Proof. done. Qed.

Lemma interp_gets h {A} (f : St → A) w s :
  interp h (gets f) w s = Run w s (Ok (f s)) [].
Proof. done. Qed.

Lemma interp_modify h (f : St → St) w s :
  interp h (modify f) w s = Run w (f s) (Ok tt) [].
Proof. done. Qed.

Lemma interp_perform h (e : E) w s :
  interp h (perform e) w s =
  let '(w', s', r) := h e w s in Run w' s' (Ok r) [Entry e r s s'].
Proof. simpl. by destruct (h e w s) as [[w' s'] r]. Qed.

Lemma calls_then_run {A B} (r : run St E resp W A) (f : A → W → St → run St E resp W B) :
  calls (then_run r f) =
  calls r ++ match value r with
             | Ok a => calls (f a (env r) (final r))
             | Err _ => []
             end.
Proof.
  unfold then_run, calls. destruct (value r); simpl.
  - by rewrite fmap_app.
  - by rewrite app_nil_r.
Qed.

(** *** A property of every call of every run of a program *)

Definition always h (P : entry St E resp → Prop) {A} (m : prog St E resp A)
  : Prop :=
  ∀ w s, Forall P (trace (interp h m w s)).

Lemma always_ret h P {A} (a : A) : always h P (Ret a).
Proof. intros w s. constructor. Qed.

Lemma always_mret h P {A} (a : A) : always h P (mret a : prog St E resp A).
Proof. intros w s. constructor. Qed.

Lemma always_raise h P {A} x : always h P (Raise x : prog St E resp A).
Proof. intros w s. constructor. Qed.

Lemma always_bind h P {A B} (m : prog St E resp A) (f : A → prog St E resp B) :
  always h P m → (∀ a, always h P (f a)) → always h P (m ≫= f).
Proof.
  intros Hm Hf w s. rewrite interp_bind. unfold then_run.
  specialize (Hm w s). destruct (value (interp h m w s)); simpl; [|done].
  apply Forall_app; split; [done|apply Hf].
Qed.

Lemma always_try_except h P {A} (m : prog St E resp A) f :
  always h P m → (∀ x, always h P (f x)) → always h P (try_except m f).
Proof.
  intros Hm Hf w s. rewrite interp_try_except. unfold catch_run.
  specialize (Hm w s). destruct (value (interp h m w s)); simpl; [done|].
  apply Forall_app; split; [done|apply Hf].
Qed.

Lemma always_try_finally h P {A} (m : prog St E resp A) fin :
  always h P m → always h P fin → always h P (try_finally m fin).
Proof.
  intros Hm Hfin. unfold try_finally.
  apply (always_bind h P
           (try_except (bind m (λ a, Ret (Ok a))) (λ x, Ret (Err x)))).
  - apply always_try_except.
    + apply (always_bind h P m); [done|]. intros a. apply always_ret.
    + intros x. apply always_ret.
  - intros r. apply (always_bind h P fin); [done|].
    intros _. destruct r; [apply always_ret|apply always_raise].
Qed.

Lemma always_gets h P {A} (f : St → A) : always h P (gets f).
Proof. intros w s. constructor. Qed.

Lemma always_modify h P (f : St → St) : always h P (modify f).
Proof. intros w s. constructor. Qed.

Lemma always_returned h P {A} (r : result A) : always h P (returned r).
Proof. destruct r; [apply always_ret|apply always_raise]. Qed.

Lemma always_do h (P : entry St E resp → Prop) {A} (e : E)
    (k : resp e → prog St E resp A) :
  (∀ r s s', P (Entry e r s s')) → (∀ r, always h P (k r)) →
  always h P (Do e k).
Proof.
  intros HP Hk w s. simpl. destruct (h e w s) as [[w' s'] r]. simpl.
  constructor; [apply HP|apply Hk].
Qed.

Lemma always_get h P {A} (k : St → prog St E resp A) :
  (∀ s, always h P (k s)) → always h P (Get k).
Proof. intros Hk w s. apply Hk. Qed.

Lemma always_put h P {A} s' (k : prog St E resp A) :
  always h P k → always h P (Put s' k).
Proof. intros Hk w s. apply Hk. Qed.

Lemma always_perform h (P : entry St E resp → Prop) (e : E) :
  (∀ r s s', P (Entry e r s s')) → always h P (perform e).
Proof.
  intros HP w s. rewrite interp_perform.
  destruct (h e w s) as [[w' s'] r]. simpl. by repeat constructor.
Qed.

(** *** Weakest preconditions: what holds of the run of a program *)

Definition wp h {A} (m : prog St E resp A)
    (Q : list (entry St E resp) → result A → W → St → Prop) (w : W) (s : St)
  : Prop :=
  let r := interp h m w s in Q (trace r) (value r) (env r) (final r).

Lemma wp_mono h {A} (m : prog St E resp A) (Q Q' : _ → _ → _ → _ → Prop) w s :
  (∀ T v w' s', Q T v w' s' → Q' T v w' s') → wp h m Q w s → wp h m Q' w s.
Proof. unfold wp. auto. Qed.

Lemma wp_ret h {A} (a : A) Q w s :
  wp h (mret a : prog St E resp A) Q w s ↔ Q [] (Ok a) w s.
Proof. done. Qed.

Lemma wp_raise h {A} x (Q : _ → result A → _ → _ → Prop) w s :
  wp h (Raise x) Q w s ↔ Q [] (Err x) w s.
Proof. done. Qed.

Lemma wp_gets h {A} (f : St → A) Q w s :
  wp h (gets f) Q w s ↔ Q [] (Ok (f s)) w s.
Proof. done. Qed.

Lemma wp_modify h (f : St → St) Q w s :
  wp h (modify f) Q w s ↔ Q [] (Ok tt) w (f s).
Proof. done. Qed.

Lemma wp_perform h (e : E) Q w s :
  wp h (perform e) Q w s ↔
  Q [Entry e (h e w s).2 s (h e w s).1.2] (Ok (h e w s).2)
    (h e w s).1.1 (h e w s).1.2.
Proof.
  unfold wp. rewrite interp_perform. by destruct (h e w s) as [[w' s'] r].
Qed.

Lemma wp_returned h {A} (r : result A) Q w s :
  wp h (returned r) Q w s ↔ Q [] r w s.
Proof. by destruct r. Qed.

Lemma wp_bind h {A B} (m : prog St E resp A) (f : A → prog St E resp B) Q w s :
  wp h (m ≫= f) Q w s ↔
  wp h m (λ T1 v w1 s1,
            match v with
            | Ok a => wp h (f a) (λ T2, Q (T1 ++ T2)) w1 s1
            | Err x => Q T1 (Err x) w1 s1
            end) w s.
Proof.
  unfold wp. rewrite interp_bind. unfold then_run.
  by destruct (value (interp h m w s)).
Qed.

Lemma wp_try_except h {A} (m : prog St E resp A) f Q w s :
  wp h (try_except m f) Q w s ↔
  wp h m (λ T1 v w1 s1,
            match v with
            | Ok a => Q T1 (Ok a) w1 s1
            | Err x => wp h (f x) (λ T2, Q (T1 ++ T2)) w1 s1
            end) w s.
Proof.
  unfold wp. rewrite interp_try_except. unfold catch_run.
  destruct (interp h m w s) as [w1 s1 [a|x] T1]; simpl; [done|].
  by destruct (interp h (f x) w1 s1).
Qed.

Lemma wp_any h {A} (m : prog St E resp A) (Q : _ → _ → _ → _ → Prop) w s :
  (∀ T v w' s', Q T v w' s') → wp h m Q w s.
Proof. unfold wp. auto. Qed.

Lemma seq_eq (h0 : ∀ e : E, W → W * resp e) e w (s : St) :
  seq h0 e w s = ((h0 e w).1, s, (h0 e w).2).
Proof. unfold seq. by destruct (h0 e w). Qed.
End ProgFacts.

(** Symbolic execution of a program against a sequential environment
    [h0]: run to the next call, name its answer, continue. *)
Ltac run_seq h0 tac :=
  unfold mbind, prog_bind, mret, prog_ret, perform, gets, modify, returned;
  repeat progress (cbn; rewrite ?seq_eq; cbn; tac;
    try match goal with
    | |- context [h0 ?e ?w] =>
        let w' := fresh "w" in
        let r := fresh "r" in
        destruct (h0 e w) as [w' r] eqn:?;
        let T := type of r in
        let T := eval cbn in T in
        lazymatch T with
        | result _ => destruct r as [r|r]
        | _ => idtac
        end
    | |- context [if ?b then _ else _] => destruct b eqn:?
    end).

(** One step of a weakest-precondition proof. *)
Ltac wp_step :=
  lazymatch goal with
  | |- wp _ (mret _) _ _ _ => apply wp_ret
  | |- wp _ (Ret _) _ _ _ => apply wp_ret
  | |- wp _ (Raise _) _ _ _ => apply wp_raise
  | |- wp _ (gets _) _ _ _ => apply wp_gets
  | |- wp _ (modify _) _ _ _ => apply wp_modify
  | |- wp _ (returned _) _ _ _ => apply wp_returned
  | |- wp ?h (perform ?e) ?Q ?w ?s =>
      apply (wp_perform h e Q w s);
      let w' := fresh "w" in
      let s' := fresh "s" in
      let r := fresh "r" in
      destruct (h e w s) as [[w' s'] r] eqn:?; cbn [fst snd]
  | |- wp _ (try_except _ _) _ _ _ => apply wp_try_except
  | |- wp _ (_ ≫= _) _ _ _ => apply wp_bind
  end; cbv beta iota.

(** The same against a sequential environment [seq h0]: the session comes
    back from a call as it went in. *)
Ltac wp_step_seq :=
  lazymatch goal with
  | |- wp (seq ?h0) (perform ?e) ?Q ?w ?s =>
      apply (wp_perform (seq h0) e Q w s); rewrite !seq_eq; cbn [fst snd];
      let w' := fresh "w" in
      let r := fresh "r" in
      destruct (h0 e w) as [w' r] eqn:?; cbn [fst snd]; cbv beta iota
  | _ => wp_step
  end.

(** The same against any environment [h]. *)
Ltac run_any h tac :=
  unfold mbind, prog_bind, mret, prog_ret, perform, gets, modify, returned;
  repeat progress (cbn; tac;
    try match goal with
    | |- context [h ?e ?w ?s] =>
        let w' := fresh "w" in
        let s' := fresh "s" in
        let r := fresh "r" in
        destruct (h e w s) as [[w' s'] r] eqn:?;
        let T := type of r in
        let T := eval cbn in T in
        lazymatch T with
        | result _ => destruct r as [r|r]
        | _ => idtac
        end
    | |- context [if ?b then _ else _] => destruct b eqn:?
    end).

(** * Facts about the deep-research flow *)

Module DeepResearchFacts.
Import DeepResearch.

Section Guard.
Context {W : Type}.
Implicit Types h : handler session call resp W.

Lemma start_run_active h w s r thread agent :
  active_run_id s = Some r →
  interp h (_start_run thread agent) w s = Run w s (Err already_active) [].
Proof.
  intros Hact. unfold _start_run, _is_run_active.
  rewrite interp_bind, interp_gets. unfold then_run. simpl.
  by rewrite Hact.
Qed.

Lemma start_run_inactive h w s thread agent :
  active_run_id s = None →
  interp h (_start_run thread agent) w s =
  let '(w', s', r) := h (RunsCreate thread agent) w s in
  let x := Entry (RunsCreate thread agent) r s s' in
  match r with
  | Ok r =>
      Run w' (set_emitted_url_lines (Some ∅)
               (set_emitted_cot_set (Some ∅)
                  (set_active_run_id (Some (run_id r)) s'))) (Ok r) [x]
  | Err e => Run w' s' (Err e) [x]
  end.
Proof.
  intros Hact. unfold _start_run, _is_run_active.
  rewrite interp_bind, interp_gets. unfold then_run. simpl.
  rewrite Hact. simpl.
  destruct (h (RunsCreate thread agent) w s) as [[w' s'] [r|e]]; done.
Qed.
End Guard.

(** *** Calls of the poller and of the renderer *)

Ltac unfold_calls :=
  unfold stream_token, send_message, create_clients, client_enter,
    client_exit, sleep, time_time, runs_get, runs_create, threads_create,
    messages_create, get_last_message_by_role, _end_run, _set_active_run,
    _is_run_active in *.

Ltac always_side :=
  first
    [ solve [auto]
    | solve [hnf; auto]
    | match goal with
      | H : ∀ x, shows_progress (ev x) = true → _ → _ |- _ =>
          apply H; [reflexivity|vm_compute; discriminate]
      end ].

Ltac always_step :=
  lazymatch goal with
  | |- always _ _ (mret _) => apply always_mret
  | |- always _ _ (Ret _) => apply always_ret
  | |- always _ _ (Raise _) => apply always_raise
  | |- always _ _ (gets _) => apply always_gets
  | |- always _ _ (modify _) => apply always_modify
  | |- always _ _ (returned _) => apply always_returned
  | |- always ?h ?P (perform ?e) =>
      apply (always_perform h P e); intros; always_side
  | |- always _ _ (try_finally _ _) => apply always_try_finally
  | |- always _ _ (try_except _ _) => apply always_try_except; [|intros ?]
  | |- always _ _ (_ ≫= _) => apply always_bind; [|intros ?]
  | |- always _ _ (Get _) => apply always_get; intros ?
  | |- always _ _ (Put _ _) => apply always_put
  | |- always _ _ (Do _ _) => apply always_do; [intros; always_side|intros ?]
  end.

Ltac always_auto :=
  repeat first
    [ always_step
    | solve [auto]
    | lazymatch goal with
      | |- always _ _ (match ?x with _ => _ end) => destruct x eqn:?
      end ].

Section ShowCalls.
Context {W : Type} (h : handler session call resp W).
Context (P : entry session call resp → Prop).
Hypothesis P_show :
  ∀ x, shows_progress (ev x) = true →
       token_of (ev x) ≠ Some timeout_notice → P x.
Variable cot_search : string → option string.

Lemma show_cot_summary_always msg text cot_set :
  always h P (show_cot_summary cot_search msg text cot_set).
Proof using P_show.
  unfold show_cot_summary. unfold_calls. always_auto.
Qed.

Lemma show_url_citations_always msg anns url_lines :
  always h P (show_url_citations msg anns url_lines).
Proof using P_show.
  revert url_lines.
  induction anns as [|ann anns IH]; intros url_lines; cbn [show_url_citations];
    unfold_calls; always_auto.
Qed.

Lemma show_progress_always thread msg cot_set url_lines :
  always h P (show_progress cot_search thread msg cot_set url_lines).
Proof using P_show.
  pose proof show_cot_summary_always. pose proof show_url_citations_always.
  unfold show_progress. unfold_calls. always_auto.
Qed.
End ShowCalls.

Section PollCalls.
Context {W : Type} (h : handler session call resp W).
Context (P : entry session call resp → Prop).
Hypothesis P_reads : ∀ x, reads_only (ev x) = true → P x.
Variable cot_search : string → option string.

Lemma poll_loop_always fuel thread run msg interval timeout start cot_set url_lines :
  always h P (poll_loop cot_search fuel thread run msg interval timeout start
                cot_set url_lines).
Proof using P_reads.
  assert (∀ thread msg C U,
            always h P (show_progress cot_search thread msg C U)).
  { intros. apply show_progress_always. intros x Hx _. apply P_reads.
    by destruct (ev x). }
  revert cot_set url_lines.
  induction fuel as [|fuel IH]; intros cot_set url_lines; cbn [poll_loop];
    unfold_calls; always_auto.
Qed.

Lemma poll_always fuel thread run msg interval timeout :
  always h P (_poll_run_and_show_progress cot_search fuel thread run msg
                interval timeout).
Proof using P_reads.
  pose proof poll_loop_always.
  unfold _poll_run_and_show_progress. unfold_calls. always_auto.
Qed.
End PollCalls.

Section DisplayCalls.
Context {W : Type} (h : handler session call resp W).
Context (P : entry session call resp → Prop).
Hypothesis P_reads : ∀ x, reads_only (ev x) = true → P x.

Lemma display_final_results_always thread msg :
  always h P (_display_final_results thread msg).
Proof using P_reads.
  unfold _display_final_results. unfold_calls. always_auto.
Qed.
End DisplayCalls.

Section GuardedHandler.
Context {W : Type} (h : handler session call resp W).

Lemma reads_created_when_idle x : reads_only (ev x) = true → created_when_idle x.
Proof. unfold created_when_idle. by destruct (ev x). Qed.

Lemma start_run_created_when_idle thread agent :
  always h created_when_idle (_start_run thread agent).
Proof.
  intros w s. destruct (active_run_id s) as [r|] eqn:Hact.
  - rewrite (start_run_active h w s r) by done. constructor.
  - rewrite start_run_inactive by done.
    destruct (h (RunsCreate thread agent) w s) as [[w' s'] [r|e]];
      by repeat constructor.
Qed.

Lemma on_message_created_when_idle cot_search cfg fuel content :
  always h created_when_idle (on_message cot_search cfg fuel content).
Proof.
  pose proof start_run_created_when_idle.
  pose proof (poll_always h _ reads_created_when_idle cot_search).
  pose proof (display_final_results_always h _ reads_created_when_idle).
  unfold on_message, _create_clients, _get_or_create_thread_id.
  unfold_calls. always_auto.
Qed.
End GuardedHandler.

Section Busy.
Context {W : Type} (h0 : ∀ c : call, W → W * resp c).
Variables (cot_search : string → option string) (cfg : config).

Lemma on_message_while_active fuel content w s r :
  active_run_id s = Some r →
  Forall (λ c, begins_work c = false)
    (calls (interp (seq h0) (on_message cot_search cfg fuel content) w s)).
Proof.
  intros Hact. unfold on_message, _create_clients, _get_or_create_thread_id.
  unfold_calls. unfold calls.
  destruct (String.eqb _ _); [by run_seq h0 idtac; repeat constructor|].
  destruct (_ || _) eqn:Hcfg; [by run_seq h0 idtac; repeat constructor|].
  apply orb_false_elim in Hcfg as [-> ->].
  run_seq h0 ltac:(rewrite ?Hact; cbn); by repeat constructor.
Qed.

Lemma on_message_busy_notice fuel content w s r :
  active_run_id s = Some r →
  strip (default "" content) ≠ "" →
  PROJECT_ENDPOINT cfg ≠ "" → AGENT_ID cfg ≠ "" →
  truthy_str (thread_id s) = true →
  (∀ w, (h0 CreateClients w).2 = Ok tt) →
  (∀ w, (h0 ClientEnter w).2 = Ok tt) →
  let out := interp (seq h0) (on_message cot_search cfg fuel content) w s in
  calls out =
    [ SendMessage "⏳ Starting deep research..."; SendMessage "";
      CreateClients; ClientEnter; SendMessage busy_notice; ClientExit ] ∧
  final out = s ∧ value out = Ok Returned.
Proof.
  intros Hact Hq Hep Hag Hth Hcc Hce out. subst out.
  unfold on_message, _create_clients, _get_or_create_thread_id.
  unfold_calls. unfold calls.
  apply String.eqb_neq in Hq, Hep, Hag. rewrite Hq, Hep, Hag. cbn [orb].
  run_seq h0 ltac:(rewrite ?Hact, ?Hth; cbn);
    repeat match goal with
    | H : h0 CreateClients ?w = _ |- _ =>
        pose proof (Hcc w) as Hc; rewrite H in Hc; simplify_eq/=; clear H
    | H : h0 ClientEnter ?w = _ |- _ =>
        pose proof (Hce w) as Hc; rewrite H in Hc; simplify_eq/=; clear H
    end; done.
Qed.
End Busy.

Lemma start_run_marks_active {W} (h : handler session call resp W)
    w s thread agent r :
  value (interp h (_start_run thread agent) w s) = Ok r →
  active_run_id (final (interp h (_start_run thread agent) w s))
  = Some (run_id r).
Proof.
  destruct (active_run_id s) as [r0|] eqn:Hact.
  - by rewrite (start_run_active h w s r0).
  - rewrite start_run_inactive by done.
    destruct (h (RunsCreate thread agent) w s) as [[w' s'] [r'|e]]; simpl;
      [|done].
    by intros [= ->].
Qed.

(** C1.  While a run is active (the session's [active_run_id] is not
    [None]), a further [_start_run] raises the already-active error, calls
    nothing and leaves the session as it is, and the message handler
    creates neither a message nor a run.  A start that succeeds records its
    run as the active one, so that a second start directly after it fails;
    and whenever [_start_run] or the message handler creates a run, the
    session has no active run at that moment: a session has at most one
    active run. *)
Theorem run_guard_single_flight {W : Type}
    (h : handler session call resp W) (h0 : ∀ c : call, W → W * resp c)
    (cot_search : string → option string) (cfg : config)
    (fuel : nat) (content : option string) (thread agent : string)
    (w : W) (s : session) (r : string) :
  active_run_id s = Some r →
  interp h (_start_run thread agent) w s = Run w s (Err already_active) [] ∧
  Forall (λ c, begins_work c = false)
    (calls (interp (seq h0) (on_message cot_search cfg fuel content) w s)) ∧
  (∀ w1 s1 r1 thread' agent',
     let first := interp h (_start_run thread agent) w1 s1 in
     value first = Ok r1 →
     active_run_id (final first) = Some (run_id r1) ∧
     interp h (_start_run thread' agent') (env first) (final first)
     = Run (env first) (final first) (Err already_active) []) ∧
  always h created_when_idle (_start_run thread agent) ∧
  always h created_when_idle (on_message cot_search cfg fuel content).
Proof.
  intros Hact. split_and!.
  - by apply (start_run_active h w s r).
  - by apply (on_message_while_active h0 cot_search cfg fuel content w s r).
  - intros w1 s1 r1 thread' agent' first Hok.
    pose proof (start_run_marks_active h w1 s1 thread agent r1 Hok) as Hfin.
    split; [done|]. by apply (start_run_active h _ _ (run_id r1)).
  - apply start_run_created_when_idle.
  - apply on_message_created_when_idle.
Qed.

(** *** The poller streams no summary block twice *)

Lemma is_cot_line_cot_line b : is_cot_line (cot_line b) = true.
Proof. unfold is_cot_line, cot_line. vm_compute. by destruct b. Qed.

#[local] Instance cot_line_inj : Inj (=) (=) cot_line.
Proof. intros b1 b2. unfold cot_line. intros H. by simplify_eq. Qed.

Lemma emits_nil C : emits C [] C.
Proof. split_and!; [done|constructor|]. by intros t ?%elem_of_nil. Qed.

Lemma emits_app C C1 C2 T1 T2 :
  emits C T1 C1 → emits C1 T2 C2 → emits C (T1 ++ T2) C2.
Proof.
  intros (Hsub1 & Hnd1 & Hin1) (Hsub2 & Hnd2 & Hin2).
  unfold emits, tokens, cot_lines.
  rewrite fmap_app, omap_app, filter_app.
  split_and!.
  - set_solver.
  - apply NoDup_app. split_and!; [done| |done].
    intros t (b & -> & _ & Hb)%Hin1 (b' & ?%(inj cot_line) & Hb' & _)%Hin2.
    by subst.
  - intros t [Ht|Ht]%elem_of_app.
    + destruct (Hin1 t Ht) as (b & -> & ? & ?). exists b. set_solver.
    + destruct (Hin2 t Ht) as (b & -> & ? & ?). exists b. set_solver.
Qed.

Lemma emits_silent C c r s s' : silent c → emits C [Entry c r s s'] C.
Proof.
  intros Hc. split_and!; [done| |].
  - destruct c; simpl in *; try constructor.
    unfold cot_lines. rewrite filter_cons_False by congruence. constructor.
  - intros t. destruct c; simpl in *; try by intros ?%elem_of_nil.
    unfold cot_lines. rewrite filter_cons_False by congruence.
    by intros ?%elem_of_nil.
Qed.

Lemma emits_cot_line C msg b r s s' :
  b ∉ C → emits C [Entry (StreamToken msg (cot_line b)) r s s'] ({[b]} ∪ C).
Proof.
  intros Hb. unfold emits, cot_lines. simpl.
  rewrite filter_cons_True by apply is_cot_line_cot_line. simpl.
  split_and!.
  - set_solver.
  - apply NoDup_singleton.
  - intros t ->%list_elem_of_singleton. exists b. set_solver.
Qed.

Section Dedup.
Context {W : Type} (h : handler session call resp W).
Variable cot_search : string → option string.

Lemma show_cot_summary_emits msg text C w s :
  wp h (show_cot_summary cot_search msg text C)
    (λ T v _ _, ∃ C', v = Ok C' ∧ emits C T C') w s.
Proof.
  unfold show_cot_summary. unfold_calls.
  destruct (cot_search text) as [g|]; [|wp_step; eauto using emits_nil].
  destruct (String.eqb _ _); [wp_step; eauto using emits_nil|].
  case_bool_decide as Hin; [wp_step; eauto using emits_nil|].
  repeat wp_step. eexists. split; [done|].
  by apply (emits_cot_line C msg _ _ _ _ Hin).
Qed.

Lemma show_url_citations_emits msg anns U w s :
  wp h (show_url_citations msg anns U)
    (λ T v _ _, (∃ U', v = Ok U') ∧ ∀ C, emits C T C) w s.
Proof.
  revert U w s. induction anns as [|ann anns IH]; intros U w s;
    cbn [show_url_citations]; unfold_calls.
  - wp_step. eauto using emits_nil.
  - case_bool_decide; [apply IH|].
    repeat wp_step. eapply wp_mono; [|apply IH].
    intros T v _ _ [Hv HT]. split; [done|]. intros C.
    eapply emits_app; [|apply HT]. by apply emits_silent.
Qed.

Lemma show_progress_emits thread msg C U w s :
  wp h (show_progress cot_search thread msg C U)
    (λ T v _ _, ∃ C' U', v = Ok (C', U') ∧ emits C T C') w s.
Proof.
  unfold show_progress. unfold_calls.
  repeat wp_step.
  destruct r as [[m|]|e]; cbv beta iota.
  - destruct (text_messages m).
    { wp_step. simpl. eauto using emits_app, emits_silent, emits_nil. }
    wp_step. eapply wp_mono; [|apply show_cot_summary_emits].
    intros T v ? ? (C' & -> & HT). cbv beta iota.
    destruct (url_citation_annotations m) eqn:Hanns.
    { wp_step. exists C', U. split; [done|].
      eapply emits_app; [by apply emits_silent|]. simpl.
      rewrite app_nil_r. done. }
    wp_step. eapply wp_mono; [|apply show_url_citations_emits].
    intros T2 v ? ? [[U' ->] HT2]. cbv beta iota.
    repeat wp_step. exists C', U'. split; [done|].
    eapply emits_app; [by apply emits_silent|]. simpl.
    rewrite !app_nil_r. eapply emits_app; [done|apply HT2].
  - repeat wp_step. simpl. eauto using emits_app, emits_silent, emits_nil.
  - repeat wp_step. simpl. eauto using emits_app, emits_silent, emits_nil.
Qed.

Lemma poll_loop_emits fuel thread run msg interval timeout start C U w s :
  wp h (poll_loop cot_search fuel thread run msg interval timeout start C U)
    (λ T _ _ _, ∃ C', emits C T C') w s.
Proof.
  revert C U w s. induction fuel as [|fuel IH]; intros C U w s;
    cbn [poll_loop]; unfold_calls.
  { wp_step. eauto using emits_nil. }
  repeat wp_step. destruct r as [r|e]; cbv beta iota.
  - destruct (in_progress r).
    + wp_step. eapply wp_mono; [|apply show_progress_emits].
      intros T v ? ? (C' & U' & -> & HT). cbv beta iota.
      repeat wp_step. destruct (Qgtb _ _).
      * repeat wp_step. exists C'.
        eapply emits_app; [by apply emits_silent|].
        eapply emits_app; [done|].
        eapply emits_app; [by apply emits_silent|].
        by apply emits_silent.
      * repeat wp_step. eapply wp_mono; [|apply IH].
        intros T2 v ? ? [C2 HT2]. exists C2.
        eapply emits_app; [by apply emits_silent|].
        eapply emits_app; [done|].
        eapply emits_app; [by apply emits_silent|].
        eapply emits_app; [by apply emits_silent|done].
    + wp_step. destruct (String.eqb _ _).
      * repeat wp_step. destruct (last_error r); repeat wp_step; exists C;
          repeat (eapply emits_app; [by apply emits_silent|]);
          apply emits_nil.
      * repeat wp_step. exists C.
        eapply emits_app; [by apply emits_silent|apply emits_nil].
  - repeat wp_step. destruct (Qgtb _ _).
    + repeat wp_step. exists C.
      repeat (eapply emits_app; [by destruct (exn_cls e); apply emits_silent|]).
      apply emits_nil.
    + eapply wp_mono; [|apply IH]. intros T2 v ? ? [C2 HT2]. exists C2.
      repeat (eapply emits_app; [by destruct (exn_cls e); apply emits_silent|]).
      done.
Qed.


Lemma poll_emits fuel thread run msg interval timeout w s :
  wp h (_poll_run_and_show_progress cot_search fuel thread run msg
          interval timeout)
    (λ T _ _ _, ∃ x T' C', T = x :: T' ∧ ev x = Now ∧
                           emits (cot_seen (post x)) T' C') w s.
Proof.
  unfold _poll_run_and_show_progress. unfold_calls.
  repeat wp_step. eapply wp_mono; [|apply poll_loop_emits].
  intros T v ? ? [C' HT]. by eexists _, T, C'.
Qed.

Lemma poll_no_summary_twice fuel thread run msg interval timeout w s :
  NoDup (cot_lines (tokens (calls
    (interp h (_poll_run_and_show_progress cot_search fuel thread run msg
                 interval timeout) w s)))).
Proof.
  pose proof (poll_emits fuel thread run msg interval timeout w s) as Hwp.
  unfold wp in Hwp. destruct Hwp as (x & T' & C' & HT & Hx & _ & Hnd & _).
  unfold calls. rewrite HT. cbn [fmap list_fmap]. by rewrite Hx.
Qed.
End Dedup.

(** *** The sets of the session only grow *)

#[local] Instance grown_preorder : PreOrder grown.
Proof.
  split.
  - by intros s.
  - intros s1 s2 s3 [? ?] [? ?]. split; set_solver.
Qed.

Lemma rising_nil s s' : grown s s' → rising s [] s'.
Proof.
  intros H. unfold rising. simpl.
  rewrite !StronglySorted_cons, !Forall_cons, !Forall_nil.
  split_and!; [done..|constructor].
Qed.

Lemma rising_app s s1 s2 T1 T2 :
  rising s T1 s1 → rising s1 T2 s2 → rising s (T1 ++ T2) s2.
Proof.
  unfold rising. rewrite fmap_app, <-app_assoc.
  intros H1 H2. rewrite app_comm_cons in H1 |- *.
  apply StronglySorted_cons in H2 as [H2 H2'].
  apply StronglySorted_app_2.
  - intros x1 x2 Hx1 Hx2. trans s1.
    + eapply StronglySorted_app_1_elem_of; [exact H1|done|by left].
    + by eapply Forall_forall in H2.
  - by eapply StronglySorted_app_1_l.
  - done.
Qed.

Lemma rising_call s c r : rising s [Entry c r s s] s.
Proof.
  unfold rising. simpl.
  rewrite !StronglySorted_cons, !Forall_cons, !Forall_nil.
  split_and!; [done..|constructor].
Qed.

Lemma rising_refl s : rising s [] s.
Proof. by apply rising_nil. Qed.

Lemma rising_still s T :
  Forall (λ x, pre x = s) T → rising s T s.
Proof.
  induction 1 as [|x T Hx HT IH]; [by apply rising_nil|].
  destruct x as [c r s1 s2]. simpl in Hx. subst s1.
  unfold rising in *. simpl.
  apply StronglySorted_cons. split; [|done].
  apply StronglySorted_cons in IH as [IH _]. by constructor.
Qed.

Lemma rising_cons s c r T s' :
  rising s T s' → rising s (Entry c r s s :: T) s'.
Proof. intros H. by apply (rising_app s s s' [_] T), H; apply rising_call. Qed.

Lemma rising_end s T s1 s2 :
  rising s T s1 → grown s1 s2 → rising s T s2.
Proof.
  intros H1 H2. rewrite <-(app_nil_r T).
  by eapply rising_app, rising_nil.
Qed.

Lemma rising_grown s T s' : rising s T s' → grown s s'.
Proof.
  unfold rising. intros [H _]%StronglySorted_cons.
  eapply Forall_forall in H; [done|]. apply elem_of_app. right. by left.
Qed.

Ltac streamed_stable :=
  intros; unfold streamed, tokens in *;
  rewrite ?fmap_app, ?omap_app, ?elem_of_app in *; tauto.

Section Growth.
Context {W : Type} (h0 : ∀ c : call, W → W * resp c).
Variable cot_search : string → option string.

Lemma show_cot_summary_rising msg text C w s :
  cot_seen s ⊆ C →
  wp (seq h0) (show_cot_summary cot_search msg text C)
    (λ T v _ s', ∃ C', v = Ok C' ∧ rising s T s' ∧ cot_seen s' ⊆ C' ∧
                       urls_seen s' = urls_seen s) w s.
Proof.
  intros HC. unfold show_cot_summary. unfold_calls.
  destruct (cot_search text) as [g|];
    [|wp_step; eauto 6 using rising_refl].
  destruct (String.eqb _ _);
    [wp_step; eauto 6 using rising_refl|].
  case_bool_decide as Hin;
    [wp_step; eauto 6 using rising_refl|].
  repeat wp_step_seq. eexists. split; [done|]. split_and!; [|done..].
  eapply rising_app; [apply rising_call|]. simpl. apply rising_nil.
  split; [|done]. unfold cot_seen at 2. simpl. set_solver.
Qed.

Lemma show_url_citations_still msg anns U w s :
  wp (seq h0) (show_url_citations msg anns U)
    (λ T v _ s', ∃ U', v = Ok U' ∧ U ⊆ U' ∧ s' = s ∧
                       Forall (λ x, pre x = s) T) w s.
Proof.
  revert U w. induction anns as [|ann anns IH]; intros U w;
    cbn [show_url_citations]; unfold_calls.
  - wp_step. eauto 6.
  - case_bool_decide; [apply IH|].
    repeat wp_step_seq. eapply wp_mono; [|apply IH].
    intros T v ? ? (U' & -> & HU & -> & HT). exists U'.
    split_and!; [done|set_solver|done|by constructor].
Qed.

Lemma show_progress_rising thread msg C U w s :
  cot_seen s ⊆ C → urls_seen s ⊆ U →
  wp (seq h0) (show_progress cot_search thread msg C U)
    (λ T v _ s', ∃ C' U', v = Ok (C', U') ∧ rising s T s' ∧
                          cot_seen s' ⊆ C' ∧ urls_seen s' ⊆ U') w s.
Proof.
  intros HC HU. unfold show_progress. unfold_calls.
  repeat wp_step_seq.
  destruct r as [[m|]|e]; cbv beta iota;
    [|repeat wp_step; simpl; eauto 8 using rising_cons, rising_refl..].
  destruct (text_messages m);
    [wp_step; simpl; eauto 8 using rising_cons, rising_refl|].
  wp_step. eapply wp_mono; [|by apply show_cot_summary_rising].
  intros T v ? s1 (C' & -> & HT & HC' & Hurls). cbv beta iota.
  destruct (url_citation_annotations m) eqn:Hanns.
  { wp_step. exists C', U. split_and!; [done| |done|by rewrite Hurls].
    simpl. rewrite app_nil_r. by apply rising_cons. }
  wp_step. eapply wp_mono; [|apply show_url_citations_still].
  intros T2 v ? ? (U' & -> & HU' & -> & HT2). cbv beta iota.
  repeat wp_step. exists C', U'. split_and!; [done| |done..].
  simpl. rewrite !app_nil_r. apply rising_cons.
  eapply rising_app; [done|].
  eapply rising_end; [by apply rising_still|].
  split; [done|]. unfold urls_seen at 2. simpl. rewrite Hurls.
  by etrans.
Qed.

Lemma poll_loop_rising fuel thread run msg interval timeout start C U w s :
  cot_seen s ⊆ C → urls_seen s ⊆ U →
  wp (seq h0)
    (poll_loop cot_search fuel thread run msg interval timeout start C U)
    (λ T _ _ s', rising s T s') w s.
Proof.
  revert C U w s. induction fuel as [|fuel IH]; intros C U w s HC HU;
    cbn [poll_loop]; unfold_calls.
  { wp_step. apply rising_refl. }
  repeat wp_step_seq. destruct r as [r|e]; cbv beta iota.
  - destruct (in_progress r).
    + wp_step. eapply wp_mono; [|by apply show_progress_rising].
      intros T v ? s1 (C' & U' & -> & HT & HC' & HU'). cbv beta iota.
      repeat wp_step_seq. destruct (Qgtb _ _).
      * repeat wp_step_seq. simpl. apply rising_cons.
        eapply rising_app; [done|]. do 2 apply rising_cons. apply rising_refl.
      * repeat wp_step_seq. eapply wp_mono; [|by apply IH].
        intros T2 v ? s2 HT2. simpl. apply rising_cons.
        eapply rising_app; [done|]. by do 2 apply rising_cons.
    + wp_step. destruct (String.eqb _ _).
      * repeat wp_step_seq. destruct (last_error r); repeat wp_step_seq;
          simpl; repeat apply rising_cons; apply rising_refl.
      * repeat wp_step. simpl. repeat apply rising_cons. apply rising_refl.
  - repeat wp_step_seq. destruct (Qgtb _ _).
    + repeat wp_step_seq. simpl. repeat apply rising_cons. apply rising_refl.
    + eapply wp_mono; [|by apply IH]. intros T2 v ? s2 HT2.
      simpl. by repeat apply rising_cons.
Qed.

Lemma poll_keeps_seen fuel thread run msg interval timeout w s b :
  b ∈ cot_seen s →
  ¬ streamed (cot_line b)
      (trace (interp (seq h0)
         (_poll_run_and_show_progress cot_search fuel thread run msg
            interval timeout) w s)).
Proof.
  intros Hb.
  pose proof (poll_emits (seq h0) cot_search fuel thread run msg interval
                timeout w s) as Hwp.
  unfold wp in Hwp. destruct Hwp as (x & T' & C' & HT & Hx & _ & _ & Hin).
  assert (post x = s) as Hpost.
  { revert HT. unfold _poll_run_and_show_progress. unfold_calls.
    unfold mbind, prog_bind, perform. cbn. rewrite seq_eq. cbn.
    by intros [= <- _]. }
  rewrite HT, Hpost in *. unfold streamed. cbn [fmap list_fmap].
  rewrite Hx. simpl. intros Hstr.
  destruct (Hin (cot_line b)) as (b' & ?%(inj cot_line) & Hb' & _);
    [|by subst].
  unfold cot_lines. apply list_elem_of_filter. split; [|done].
  apply is_cot_line_cot_line.
Qed.

Lemma poll_rising fuel thread run msg interval timeout w s :
  wp (seq h0)
    (_poll_run_and_show_progress cot_search fuel thread run msg
       interval timeout)
    (λ T _ _ s', rising s T s') w s.
Proof.
  unfold _poll_run_and_show_progress. unfold_calls.
  repeat wp_step_seq. eapply wp_mono; [|by apply poll_loop_rising].
  intros T v ? s' HT. simpl. by apply rising_cons.
Qed.

Lemma streamed_app_l t T T' : streamed t T → streamed t (T ++ T').
Proof.
  unfold streamed, tokens. rewrite fmap_app, omap_app. set_solver.
Qed.

Lemma streamed_app_r t T T' : streamed t T' → streamed t (T ++ T').
Proof.
  unfold streamed, tokens. rewrite fmap_app, omap_app. set_solver.
Qed.

Lemma streamed_here t msg r s s' T :
  streamed t (Entry (StreamToken msg t) r s s' :: T).
Proof. unfold streamed. simpl. set_solver. Qed.

Lemma wp_stable_bind {A B} (m : prog A) (f : A → prog B)
    (P : list (entry session call resp) → Prop) w s :
  (∀ T T', P T → P (T ++ T')) →
  wp (seq h0) m (λ T _ _ _, P T) w s →
  wp (seq h0) (m ≫= f) (λ T _ _ _, P T) w s.
Proof.
  intros HP Hm. apply wp_bind. eapply wp_mono; [|exact Hm].
  intros T [a|x] ? ? HT; simpl; [|done].
  apply wp_any. intros. by apply HP.
Qed.

Lemma wp_stable_try {A} (m : prog A) f
    (P : list (entry session call resp) → Prop) w s :
  (∀ T T', P T → P (T ++ T')) →
  wp (seq h0) m (λ T _ _ _, P T) w s →
  wp (seq h0) (try_except m f) (λ T _ _ _, P T) w s.
Proof.
  intros HP Hm. apply wp_try_except. eapply wp_mono; [|exact Hm].
  intros T [a|x] ? ? HT; simpl; [done|].
  apply wp_any. intros. by apply HP.
Qed.

(** A block that is not in the poller's set is streamed. *)
Lemma show_progress_streams thread msg C U T0 w s m g :
  (∀ w, (h0 (GetLastMessageByRole thread) w).2 = Ok (Some m)) →
  text_messages m ≠ [] →
  cot_search (join (nl +:+ nl) (strip <$> text_messages m)) = Some g →
  strip g ≠ "" →
  "cot_summary: " +:+ strip g ∉ C →
  wp (seq h0) (show_progress cot_search thread msg C U)
    (λ T _ _ _, streamed (cot_line ("cot_summary: " +:+ strip g)) (T0 ++ T))
    w s.
Proof.
  intros Hlast Htexts Hsearch Hg Hnew. unfold show_progress.
  apply wp_stable_try; [streamed_stable|].
  unfold_calls. repeat wp_step_seq.
  pose proof (Hlast w) as Hr. rewrite Heqp in Hr. simpl in Hr. subst r.
  cbv beta iota. destruct (text_messages m) eqn:Hm; [done|].
  apply wp_stable_bind; [streamed_stable|].
  unfold show_cot_summary. rewrite Hsearch.
  apply String.eqb_neq in Hg. rewrite Hg.
  rewrite bool_decide_eq_false_2 by done. unfold_calls.
  repeat wp_step_seq. apply streamed_app_r, streamed_app_r, streamed_here.
Qed.

Lemma poll_streams_new_block fuel thread run msg interval timeout w s r m g :
  cot_seen s = ∅ →
  (∀ w, (h0 (RunsGet thread run) w).2 = Ok r) → in_progress r = true →
  (∀ w, (h0 (GetLastMessageByRole thread) w).2 = Ok (Some m)) →
  text_messages m ≠ [] →
  cot_search (join (nl +:+ nl) (strip <$> text_messages m)) = Some g →
  strip g ≠ "" →
  streamed (cot_line ("cot_summary: " +:+ strip g))
    (trace (interp (seq h0)
      (_poll_run_and_show_progress cot_search (S fuel) thread run msg
         interval timeout) w s)).
Proof.
  intros Hseen Hget Hprog Hlast Htexts Hsearch Hg.
  change (wp (seq h0)
            (_poll_run_and_show_progress cot_search (S fuel) thread run msg
               interval timeout)
            (λ T _ _ _, streamed (cot_line ("cot_summary: " +:+ strip g)) T)
            w s).
  unfold _poll_run_and_show_progress. unfold_calls.
  repeat wp_step_seq. fold (cot_seen s). rewrite Hseen.
  cbn [poll_loop]. unfold_calls. repeat wp_step_seq.
  pose proof (Hget w0) as Hr. rewrite Heqp0 in Hr. simpl in Hr. subst r1.
  cbv beta iota. rewrite Hprog.
  apply wp_stable_bind; [streamed_stable|].
  eapply wp_mono;
    [|by apply (show_progress_streams thread msg ∅ _ [] _ s m g)].
  intros T v ? ?. cbv beta. streamed_stable.
Qed.
End Growth.

(** C4.  Within one call of the poller no summary line is streamed twice,
    whatever the environment answers.  Against a sequential environment a
    block that is in the session's set when the poller starts is not
    streamed again, and both sets of the session only grow along the run.
    Starting a run resets both sets to the empty set, and from a session
    whose set of blocks is empty the first poll that finds a block streams
    it. *)
Theorem poller_streams_each_summary_once {W : Type}
    (h : handler session call resp W) (h0 : ∀ c : call, W → W * resp c)
    (cot_search : string → option string) (fuel : nat)
    (thread run : string) (msg : handle) (interval timeout : Q)
    (w : W) (s : session) :
  let poll n :=
    _poll_run_and_show_progress cot_search n thread run msg interval timeout
  in
  NoDup (cot_lines (tokens (calls (interp h (poll fuel) w s)))) ∧
  (∀ b, b ∈ cot_seen s →
        ¬ streamed (cot_line b) (trace (interp (seq h0) (poll fuel) w s))) ∧
  rising s (trace (interp (seq h0) (poll fuel) w s))
           (final (interp (seq h0) (poll fuel) w s)) ∧
  (∀ agent r,
     value (interp h (_start_run thread agent) w s) = Ok r →
     emitted_cot_set (final (interp h (_start_run thread agent) w s))
     = Some ∅ ∧
     emitted_url_lines (final (interp h (_start_run thread agent) w s))
     = Some ∅) ∧
  (∀ r m g,
     cot_seen s = ∅ →
     (∀ w, (h0 (RunsGet thread run) w).2 = Ok r) → in_progress r = true →
     (∀ w, (h0 (GetLastMessageByRole thread) w).2 = Ok (Some m)) →
     text_messages m ≠ [] →
     cot_search (join (nl +:+ nl) (strip <$> text_messages m)) = Some g →
     strip g ≠ "" →
     streamed (cot_line ("cot_summary: " +:+ strip g))
       (trace (interp (seq h0) (poll (S fuel)) w s))).
Proof.
  intros poll. split_and!.
  - apply poll_no_summary_twice.
  - intros b Hb. by apply poll_keeps_seen.
  - apply (poll_rising h0 cot_search fuel thread run msg interval timeout w s).
  - intros agent r. destruct (active_run_id s) as [r0|] eqn:Hact.
    + by rewrite (start_run_active h w s r0).
    + rewrite start_run_inactive by done.
      by destruct (h (RunsCreate thread agent) w s) as [[w' s'] [r'|e]].
  - intros r m g. apply poll_streams_new_block.
Qed.

(** *** The time-out of the poller *)






Section Timeout.
Variable v : vendor.
Hypothesis elapse_nonneg : ∀ k, (0 <= elapse v k)%Q.
Hypothesis stuck :
  ∀ k, match on_runs_get v k with
       | Ok r => in_progress r = true
       | Err _ => True
       end.
Variable cot_search : string → option string.
Variables (thread run : string) (msg : handle).
Variables (interval timeout start : Q).
Hypothesis interval_pos : (0 < interval)%Q.












End Timeout.



Section TimeoutRun.
Variable v : vendor.
Hypothesis elapse_nonneg : ∀ k, (0 <= elapse v k)%Q.
Hypothesis stuck :
  ∀ k, match on_runs_get v k with
       | Ok r => in_progress r = true
       | Err _ => True
       end.
Variable cot_search : string → option string.
Variables (thread run : string) (msg : handle).
Variables (interval timeout : Q).
Hypothesis interval_pos : (0 < interval)%Q.

End TimeoutRun.


(** *** The reference list *)

Lemma collect_references_first_seen anns seen references :
  collect_references anns seen references =
  references ++
    (reference_line <$> filter (λ b, url b ∉ seen) (first_seen anns)).
Proof.
  revert seen references.
  induction anns as [|a anns IH]; intros seen references; simpl.
  - by rewrite app_nil_r.
  - case_bool_decide as Hseen.
    + rewrite IH, filter_cons_True by done.
      rewrite fmap_cons, <-app_assoc. simpl. do 3 f_equal.
      rewrite list_filter_filter. apply list_filter_iff.
      intros b. rewrite not_elem_of_union, not_elem_of_singleton. tauto.
    + rewrite IH, filter_cons_False by (by intros ?).
      do 2 f_equal. rewrite list_filter_filter. apply list_filter_iff.
      intros b. split; [|tauto]. intros Hb. split; [done|congruence].
Qed.

Lemma first_seen_urls anns u :
  u ∈ url <$> first_seen anns ↔ u ∈ url <$> anns.
Proof.
  induction anns as [|a anns IH]; simpl; [done|].
  rewrite !elem_of_cons, <-IH, !list_elem_of_fmap.
  split.
  - intros [->|(b & -> & Hb)]; [by left|].
    apply list_elem_of_filter in Hb as [_ Hb]. right. eauto.
  - intros [->|(b & -> & Hb)]; [by left|].
    destruct (decide (url b = url a)) as [->|Hne]; [by left|].
    right. exists b. split; [done|]. by apply list_elem_of_filter.
Qed.

Lemma first_seen_NoDup anns : NoDup (url <$> first_seen anns).
Proof.
  induction anns as [|a anns IH]; simpl; [constructor|].
  apply NoDup_cons. split.
  - rewrite list_elem_of_fmap. intros (b & Hb & Hin).
    apply list_elem_of_filter in Hin as [Hne _]. congruence.
  - apply (sublist_NoDup _ (url <$> first_seen anns)); [done|].
    apply fmap_sublist, sublist_filter.
Qed.

Lemma first_seen_sublist anns : first_seen anns `sublist_of` anns.
Proof.
  induction anns as [|a anns IH]; simpl; [done|].
  apply sublist_skip. etrans; [apply sublist_filter|done].
Qed.

Lemma first_seen_first anns a :
  a ∈ first_seen anns →
  snd <$> list_find (λ b, url b = url a) anns = Some a.
Proof.
  induction anns as [|a0 anns IH]; simpl; [by intros ?%elem_of_nil|].
  intros [->|Hin]%elem_of_cons.
  - by rewrite decide_True.
  - apply list_elem_of_filter in Hin as [Hne Hin].
    rewrite decide_False by congruence.
    specialize (IH Hin). destruct (list_find _ anns) as [[i x]|]; by simplify_eq/=.
Qed.

Lemma filter_all {A} (P : A → Prop) `{!∀ x, Decision (P x)} (l : list A) :
  (∀ x, x ∈ l → P x) → filter P l = l.
Proof.
  induction l as [|x l IH]; intros HP; [done|].
  rewrite filter_cons_True by (apply HP; left).
  f_equal. apply IH. intros y Hy. apply HP. by right.
Qed.

Lemma first_seen_nonempty anns : anns ≠ [] → first_seen anns ≠ [].
Proof. by destruct anns. Qed.

Lemma join_concat sep (l : list string) : join sep l = String.concat sep l.
Proof.
  induction l as [|x [|y l] IH]; [done..|].
  change (x +:+ sep +:+ join sep (y :: l)
          = x +:+ sep +:+ String.concat sep (y :: l)).
  by rewrite IH.
Qed.

(** The lines the loop collects, and the block they are shown as. *)
Lemma references_first_seen_lines (anns : list annotation) :
  let shown (a : annotation) : string :=
    match title a with
    | Some t => if String.eqb t "" then url a else t
    | None => url a
    end in
  let line (a : annotation) : string :=
    "- [" +:+ shown a +:+ "](" +:+ url a +:+ ")" in
  references_of anns = line <$> first_seen anns ∧
  references_block (references_of anns)
  = nl +:+ nl +:+ "### References" +:+ nl +:+
    String.concat nl (line <$> first_seen anns).
Proof.
  intros shown line.
  assert (Hline : ∀ a, reference_line a = line a).
  { intros [u [t|]]; [|done].
    unfold reference_line, title_or_url, line, shown.
    cbn. by destruct (String.eqb t ""). }
  assert (Href : references_of anns = line <$> first_seen anns).
  { unfold references_of. rewrite collect_references_first_seen. simpl.
    rewrite filter_all by (intros b _; set_solver).
    apply list_fmap_ext. intros ? a _. apply Hline. }
  split; [done|]. unfold references_block. by rewrite join_concat, Href.
Qed.

(** C6.  The reference list the renderer shows for the annotations [anns]
    of the final message is the text written out below: the heading, then
    one line [- [title](url)] for each annotation of [first_seen anns], in
    that order, the title being the annotation's own title, or its URL
    when it has no title or an empty one.  [first_seen anns] is the list
    of the annotations with every annotation whose URL occurred before
    left out: no URL occurs in it twice, every URL of [anns] occurs in it,
    its entries stand in the order of [anns], and its entry for a URL is
    the first annotation of [anns] with that URL, so the title shown for a
    repeated URL is the one of its first occurrence.  In every environment
    this text is the last token the renderer streams; it is shown once. *)
Theorem references_first_seen_once (anns : list annotation) :
  let kept := first_seen anns in
  let shown (a : annotation) : string :=
    match title a with
    | Some t => if String.eqb t "" then url a else t
    | None => url a
    end in
  let lines := (λ a, "- [" +:+ shown a +:+ "](" +:+ url a +:+ ")") <$> kept in
  let rendered :=
    nl +:+ nl +:+ "### References" +:+ nl +:+ String.concat nl lines in
  references_of anns = lines ∧
  NoDup (url <$> kept) ∧
  (∀ u, u ∈ url <$> kept ↔ u ∈ url <$> anns) ∧
  kept `sublist_of` anns ∧
  (∀ a, a ∈ kept → snd <$> list_find (λ b, url b = url a) anns = Some a) ∧
  (∀ W (h : handler session call resp W) w s thread msg m,
     (h (GetLastMessageByRole thread) w s).2 = Ok (Some m) →
     url_citation_annotations m = anns → anns ≠ [] →
     ∃ body,
       calls (interp h (_display_final_results thread msg) w s)
       = [GetLastMessageByRole thread; StreamToken msg body;
          StreamToken msg rendered]).
Proof.
  intros kept shown lines rendered.
  assert (Href : references_of anns = lines)
    by apply references_first_seen_lines.
  split_and!; [done|apply first_seen_NoDup|apply first_seen_urls
              |apply first_seen_sublist|apply first_seen_first|].
  intros W h w s thread msg m Hgot Hanns Hne.
  assert (lines ≠ []) as Hlines.
  { subst lines kept. destruct anns; [done|]. done. }
  unfold _display_final_results. unfold_calls. unfold calls.
  destruct (h (GetLastMessageByRole thread) w s) as [[w' s'] r] eqn:Hh.
  simpl in Hgot. subst r.
  unfold mbind, prog_bind, perform. cbn -[references_of first_seen].
  rewrite Hh. cbn -[references_of first_seen].
  rewrite Hanns. destruct anns as [|a anns']; [done|].
  rewrite Href. subst rendered.
  destruct lines as [|l ls] eqn:Hl; [done|].
  unfold references_block. rewrite join_concat.
  destruct (text_messages m); cbn;
    repeat match goal with
    | |- context [h ?e ?w ?s] => destruct (h e w s) as [[? ?] ?]; cbn
    end; eauto.
Qed.

End DeepResearchFacts.

(** * Concrete runs *)

(** * Facts about the realtime voice agent *)

Module RealtimeFacts.
Import Realtime.

Ltac unfold_handlers :=
  unfold uuid4, message_send, stream_token, message_update, b64decode,
    send_audio_chunk, send_audio_interrupt, response_cancel, item_create,
    response_create, task_done, task_cancel, task_await, manager_exit,
    log_error, log_exception, set_default in *.

Lemma no_text_nonempty_str v : no_text v → nonempty_str v = None.
Proof.
  intros Hv. destruct v as [|t| |]; try reflexivity.
  rewrite (Hv t eq_refl). reflexivity.
Qed.

Lemma nonempty_str_PyStr d : d ≠ "" → nonempty_str (PyStr d) = Some d.
Proof.
  intros Hd. simpl. destruct (String.eqb_spec d ""); [done|reflexivity].
Qed.

Section Deltas.
Context {W : Type}.
Implicit Types h : handler session call resp W.


Lemma text_delta_run h w s d :
  d ≠ "" →
  interp h (_handle_agent_text_delta (PyStr d)) w s
  = interp h (_stream_agent_text d) w (set_text_stream_locked (Some true) s).
Proof.
  intros Hd. unfold _handle_agent_text_delta.
  rewrite (nonempty_str_PyStr d Hd). reflexivity.
Qed.



(** C10.  A text delta, an audio-transcript delta or a user transcription
    delta that is absent, not a string or the empty string is ignored in
    every environment: the handler, and the receive loop's dispatch of such
    an event, return without a call and leave the session as it was (the
    lock is not set, no message is sent, no token is streamed). *)
Theorem empty_delta_is_ignored h (w : W) (s : session) (v : pyval) :
  no_text v →
  interp h (_handle_agent_text_delta v) w s = Run w s (Ok tt) [] ∧
  interp h (_handle_agent_audio_transcript_delta v) w s = Run w s (Ok tt) [] ∧
  interp h (_handle_user_transcription_delta v) w s = Run w s (Ok tt) [] ∧
  ∀ e, delta e = v →
       event_type e = "response.text.delta" ∨
       event_type e = "response.audio_transcript.delta" ∨
       event_type e = "conversation.item.input_audio_transcription.delta" →
       interp h (dispatch e) w s = Run w s (Ok tt) [].
Proof.
  intros Hv. pose proof (no_text_nonempty_str v Hv) as Hnone.
  assert (interp h (_handle_agent_text_delta v) w s = Run w s (Ok tt) [])
    as Htext.
  { unfold _handle_agent_text_delta. rewrite Hnone. reflexivity. }
  assert (interp h (_handle_agent_audio_transcript_delta v) w s
          = Run w s (Ok tt) []) as Htranscript.
  { unfold _handle_agent_audio_transcript_delta. cbn. rewrite Hnone.
    by destruct (truthy (text_stream_locked s)). }
  assert (interp h (_handle_user_transcription_delta v) w s
          = Run w s (Ok tt) []) as Huser.
  { unfold _handle_user_transcription_delta. rewrite Hnone. reflexivity. }
  split_and!; [done..|].
  intros e <- [He|[He|He]]; unfold dispatch; rewrite He; cbn [String.eqb];
    done.
Qed.


End Deltas.

Section BargeIn.
Context {W : Type}.
Implicit Types h : handler session call resp W.

Lemma ensure_session_defaults_any h w s :
  interp h _ensure_session_defaults w s
  = Run (h Uuid4 w s).1.1 (filled (h Uuid4 w s).2 (h Uuid4 w s).1.2) (Ok tt)
      [Entry Uuid4 (h Uuid4 w s).2 s (h Uuid4 w s).1.2].
Proof.
  unfold _ensure_session_defaults. unfold_handlers.
  unfold mbind, prog_bind, perform, gets, modify. cbn [interp bind].
  destruct (h Uuid4 w s) as [[w1 s1] tid]. cbn [fst snd].
  destruct s1 as [? ? ? [?|] [[]|] [[]|] [?|] [?|] [[]|]]; reflexivity.
Qed.

(** C3 (amended).  In every environment, a user text message makes the
    handler draw the identifier of the session defaults and fill the
    defaults that are missing; [s1] is the session it then reads.

    When [s1] holds an open connection and a response is generating or
    playing, the handler, in this order: requests the cancellation of the
    response (whether or not the request fails), signals the audio
    interrupt, draws a new identifier with [uuid4], stores it as the
    track and sets both flags to false, finalizes the agent message that
    is open, if there is one, and closes it, and only then submits the
    user input, once.  Each of these writes is in the session from which
    the next call is made.

    When [s1] holds no connection the handler does none of this, whatever
    the flags are: after filling the defaults it sends the notice and
    returns.  Nothing is cancelled or interrupted, no identifier is drawn
    for a new track, and the input is not submitted. *)
Theorem barge_in_before_submit h w s content :
  let out := interp h (on_message content) w s in
  let tid0 := (h Uuid4 w s).2 in
  let s1 := (h Uuid4 w s).1.2 in
  (∀ c, connection s1 = Some c →
        truthy (is_generating s1) || truthy (is_playing s1) = true →
        ∃ r_cancel sa sb tid sc finalized s_submit r_submit sd T,
          trace out
          = Entry Uuid4 tid0 s s1
            :: Entry (ResponseCancel c) r_cancel (filled tid0 s1) sa
            :: Entry SendAudioInterrupt tt sa sb
            :: Entry Uuid4 tid sb sc
            :: finalized
            ++ Entry (ItemCreate c content) r_submit s_submit sd :: T ∧
          match current_response_message sc with
          | Some m =>
              ∃ se, finalized = [Entry (MessageUpdate m) tt (quiet tid sc) se] ∧
                    s_submit = set_current_response_message None se
          | None => finalized = [] ∧ s_submit = quiet tid sc
          end ∧
          track_id (quiet tid sc) = Some tid ∧
          is_generating (quiet tid sc) = Some false ∧
          is_playing (quiet tid sc) = Some false ∧
          current_response_message s_submit = None ∧
          Forall (λ x, submits (ev x) = false) T) ∧
  (connection s1 = None →
   ∃ m w2 s2,
     out = Run w2 s2 (Ok tt)
             [Entry Uuid4 tid0 s s1;
              Entry (MessageSend no_connection_notice None None) m
                (filled tid0 s1) s2]).
Proof.
  intros out tid0 s1. subst out. unfold on_message.
  change (_ensure_session_defaults;; ?k)
    with (_ensure_session_defaults ≫= λ _, k).
  rewrite interp_bind, ensure_session_defaults_any.
  unfold then_run. cbn [value env final trace].
  fold tid0 s1. generalize ((h Uuid4 w s).1.1). intros w1.
  set (s0 := filled tid0 s1).
  assert (connection s0 = connection s1) as Hc0 by done.
  assert (is_generating s0 = Some (truthy (is_generating s1))) as Hg0 by done.
  assert (is_playing s0 = Some (truthy (is_playing s1))) as Hp0 by done.
  clearbody s0 tid0 s1. split.
  - intros c Hc Hbusy. rewrite Hc in Hc0.
    unfold_handlers.
    run_any h ltac:(rewrite ?Hc0, ?Hg0, ?Hp0; cbn [truthy default];
                    rewrite ?Hbusy).
    all: try (unfold id in *; congruence).
    all: repeat match goal with
                | u : () |- _ => destruct u
                | u : resp SendAudioInterrupt |- _ => destruct u
                end.
    all: match goal with
         | H : _ Uuid4 _ _ = (_, ?sc, ?tid) |- _ =>
             eexists _, _, _, tid, sc;
             destruct (current_response_message sc) as [m|] eqn:Hm
         end.
    all: run_any h idtac.
    all: repeat match goal with
                | u : () |- _ => destruct u
                | u : resp (MessageUpdate _) |- _ => destruct u
                end.
    all: first
           [ solve [eexists [_], _, _, _, _;
                    (split; [reflexivity|]);
                    (split; [eexists; split; reflexivity|]);
                    split_and!; try done; repeat constructor]
           | solve [eexists [], _, _, _, _;
                    (split; [reflexivity|]);
                    split_and!; try done; repeat constructor] ].
  - intros Hc. rewrite Hc in Hc0. unfold_handlers.
    run_any h ltac:(rewrite ?Hc0). by eexists _, _, _.
Qed.

End BargeIn.

End RealtimeFacts.

(** * Facts about the realtime agent with tools *)

Module AsyncFCFacts.
Import AsyncFC.

Ltac unfold_effects :=
  unfold create_task, step_send, step_update, log_info, log_exception, sleep,
    item_create, response_create in *.

Lemma append_nil_r (s : string) : s +:+ "" = s.
Proof.
  induction s as [|a s IH]; [done|].
  change (String a s +:+ "") with (String a (s +:+ "")). by rewrite IH.
Qed.

Lemma append_assoc (s t u : string) : (s +:+ t) +:+ u = s +:+ t +:+ u.
Proof.
  induction s as [|a s IH]; [done|].
  change (String a (s +:+ t) +:+ u = String a (s +:+ t +:+ u)).
  change (String a ((s +:+ t) +:+ u) = String a (s +:+ t +:+ u)).
  by rewrite IH.
Qed.

Section Buffer.
Context `{Library} {W : Type}.
Implicit Types h : handler session call resp W.

Lemma handle_delta_buffered h w s e id :
  id ≠ "" →
  let out := interp h (_handle_function_call_arguments_delta e) w s in
  trace out = [] ∧ value out = Ok tt ∧ env out = w ∧
  connection (final out) = connection s ∧
  buffered id (final out)
  = buffered id s +:+ (if decide (call_id e = Some id) then delta e else "").
Proof.
  intros Hid out. subst out. unfold _handle_function_call_arguments_delta.
  destruct (call_id e) as [id'|] eqn:He; cbn [truthy_str].
  2:{ cbn. rewrite decide_False by done. by rewrite append_nil_r. }
  destruct (String.eqb_spec id' "") as [->|Hid']; cbn [negb].
  { cbn. rewrite decide_False by congruence. by rewrite append_nil_r. }
  cbn. split_and!; try done.
  unfold buffered. cbn.
  assert (pending_function_calls s ≫= lookup id
          = default ∅ (pending_function_calls s) !! id) as ->.
  { by destruct (pending_function_calls s). }
  generalize (default ∅ (pending_function_calls s)). intros m.
  destruct (decide (id' = id)) as [->|Hne].
  - rewrite (decide_True (P := Some id = Some id)) by done.
    rewrite lookup_alter_eq.
    destruct (decide (is_Some (m !! id))) as [[p Hp]|Hnone].
    + by rewrite Hp.
    + apply eq_None_not_Some in Hnone. rewrite Hnone.
      by rewrite lookup_insert_eq.
  - rewrite (decide_False (P := Some id' = Some id)) by congruence.
    rewrite lookup_alter_ne by done. rewrite append_nil_r.
    destruct (decide (is_Some (m !! id'))); [done|].
    by rewrite lookup_insert_ne.
Qed.

Lemma receive_deltas_buffered h w s events id :
  id ≠ "" →
  let out := interp h (receive_deltas events) w s in
  trace out = [] ∧ value out = Ok tt ∧ env out = w ∧
  connection (final out) = connection s ∧
  buffered id (final out) = buffered id s +:+ fragments id events.
Proof.
  intros Hid. revert s.
  induction events as [|e events IH]; intros s out; subst out.
  { cbn. by rewrite append_nil_r. }
  cbn [receive_deltas foldr fragments].
  change (foldr _ _ events) with (receive_deltas events).
  rewrite interp_bind. unfold then_run.
  destruct (handle_delta_buffered h w s e id Hid)
    as (HT & Hv & Hw & Hc & Hb).
  rewrite Hv, HT, Hw. cbn [trace value env final app].
  destruct (IH (final (interp h (_handle_function_call_arguments_delta e) w s)))
    as (HT' & Hv' & Hw' & Hc' & Hb').
  split_and!; try done.
  - congruence.
  - rewrite Hb', Hb, append_assoc. by destruct (decide (call_id e = Some id)).
Qed.

Lemma handle_done_spawns h w s e id c :
  id ≠ "" → call_id e = Some id → connection s = Some c →
  let out := interp h (_handle_function_call_arguments_done e) w s in
  (∃ r s', trace out
           = [Entry (CreateTask c id (name e) (arguments e)) r s s']) ∧
  value out = Ok tt ∧
  buffered id (final out) = "".
Proof.
  intros Hid He Hc out. subst out.
  unfold _handle_function_call_arguments_done. rewrite He. cbn [truthy_str].
  destruct (String.eqb_spec id "") as [|_]; [done|]. cbn [negb default].
  unfold_effects. run_any h ltac:(rewrite ?Hc).
  - split_and!; [by eauto|done|].
    unfold buffered. cbn. by rewrite lookup_delete_eq.
  - split_and!; [by eauto|done|].
    unfold buffered.
    match goal with
    | Hn : ¬ is_Some _, Hd : decide _ = _ |- _ =>
        clear Hd; apply eq_None_not_Some in Hn;
        destruct (pending_function_calls s0) as [m|]; cbn in *;
        [by rewrite Hn|done]
    end.
Qed.

(** C2 (amended).  In every environment, the fragments of the
    argument-delta events for a call identifier are buffered in the order
    of their arrival: after the events the buffer of the identifier is what
    it was followed by the exact concatenation of the fragments that carry
    the identifier, and no call was made.  The done event of the identifier
    then schedules the execution task, once, with the name and the
    arguments of the done event itself, and the buffer of the identifier is
    dropped: the executor receives the done event's arguments whatever was
    buffered. *)
Theorem executor_receives_done_arguments h (w : W) (s : session)
    (events : list event) (e : event) (id : string) (c : conn) :
  id ≠ "" → call_id e = Some id → connection s = Some c →
  let received := interp h (receive_deltas events) w s in
  let done :=
    interp h (_handle_function_call_arguments_done e)
      (env received) (final received) in
  trace received = [] ∧
  buffered id (final received) = buffered id s +:+ fragments id events ∧
  calls done = [CreateTask c id (name e) (arguments e)] ∧
  spawned (CreateTask c id (name e) (arguments e))
  = Some (_execute_function_call_async c id (name e) (arguments e)) ∧
  buffered id (final done) = "".
Proof.
  intros Hid He Hc received done.
  destruct (receive_deltas_buffered h w s events id Hid)
    as (HT & _ & _ & Hc' & Hb).
  fold received in HT, Hc', Hb.
  destruct (handle_done_spawns h (env received) (final received) e id c
              Hid He ltac:(congruence)) as ((r & s' & Hdone) & _ & Hdropped).
  fold done in Hdone, Hdropped.
  split_and!; try done.
  unfold calls. by rewrite Hdone.
Qed.

End Buffer.

Section Execution.
Context `{Library} {W : Type}.
Implicit Types h : handler session call resp W.

Ltac run_call h :=
  unfold _execute_function_call, get_weather, search_database;
  unfold_effects; run_any h idtac.

Lemma execute_function_call_returns h w s name arguments :
  ∃ result,
    value (interp h (_execute_function_call name arguments) w s) = Ok result.
Proof.
  change (wp h (_execute_function_call name arguments)
            (λ _ v _ _, ∃ result, v = Ok result) w s).
  unfold _execute_function_call. apply wp_try_except.
  match goal with |- wp _ ?m _ _ _ => generalize m; intros body end.
  apply (wp_mono h body (λ _ _ _ _, True)); [|by apply wp_any].
  intros T [a|x] w' s' _; [by eauto|].
  unfold wp. unfold_effects. run_any h idtac. by eauto.
Qed.

(** C9 (amended).  In every environment the execution of a function call
    returns a string and never raises.  When the arguments do not parse,
    the string is the payload [{"error": msg}] of the parser's message,
    whatever the name.  When they parse and the name is not that of a
    tool, the string is the payload that names the function, and nothing
    else happened.  When they parse to something that is not a dictionary,
    or a tool raises, the string is the payload of the exception's
    message. *)
Theorem execute_function_call_returns_payload h (w : W) (s : session)
    (name : option string) (arguments : string) :
  let out := interp h (_execute_function_call name arguments) w s in
  (∃ result, value out = Ok result) ∧
  (∀ x, json_loads arguments = Err x →
        value out = Ok (json_dumps (error_payload (exn_msg x))) ∧
        calls out = [LogException ("Function call error: " +:+ exn_msg x)]) ∧
  (∀ args, json_loads arguments = Ok args →
           name ≠ Some "get_weather" → name ≠ Some "search_database" →
           out = Run w s
                   (Ok (json_dumps
                          (error_payload
                             ("Unknown function: " +:+ name_str name)))) []) ∧
  (∀ args, json_loads arguments = Ok args →
           name = Some "get_weather" ∨ name = Some "search_database" →
           (∀ items, args ≠ JDict items) →
           value out
           = Ok (json_dumps
                   (error_payload
                      ("'" +:+ py_type_name args
                       +:+ "' object has no attribute 'get'")))) ∧
  (∀ args location date x,
     json_loads arguments = Ok args → name = Some "get_weather" →
     dict_get args "location" (JStr "") = Ok location →
     dict_get args "date" JNull = Ok date →
     weather_report location date = Err x →
     value out = Ok (json_dumps (error_payload (exn_msg x)))).
Proof.
  intros out. subst out. split_and!.
  - apply execute_function_call_returns.
  - intros x Hx. unfold _execute_function_call. rewrite Hx.
    unfold_effects. run_any h idtac. done.
  - intros args Hargs Hw Hs. unfold _execute_function_call. rewrite Hargs.
    cbn. rewrite decide_False by done. rewrite decide_False by done. done.
  - intros args Hargs Hname Hnodict.
    assert (∀ key default,
              dict_get args key default
              = Err (Exn AttributeError
                       ("'" +:+ py_type_name args
                        +:+ "' object has no attribute 'get'"))) as Hany.
    { intros key default. destruct args; try done. by destruct (Hnodict items). }
    unfold _execute_function_call, get_weather, search_database.
    rewrite Hargs. unfold_effects.
    destruct Hname as [-> | ->]; cbn; rewrite !Hany; run_any h idtac; done.
  - intros args location date x Hargs -> Hl Hd Hx.
    unfold _execute_function_call, get_weather. rewrite Hargs.
    unfold_effects. cbn. rewrite decide_True by done. rewrite Hl. cbn.
    rewrite Hd. run_any h ltac:(rewrite ?Hx). done.
Qed.

End Execution.

(** *** Single flight of the response requests *)

Lemma quiet_trace T :
  Forall quiet T → single_flight T ∧ unrequested T ∧ settled T.
Proof.
  induction 1 as [|x T [Hfed Hreq] HT (IH & Hun & Hset)]; [done|].
  split_and!.
  - split; [|done]. unfold follows. rewrite Hfed.
    destruct T as [|y T]; [done|]. exact Hun.
  - exact Hreq.
  - unfold settled in *. destruct T as [|y T]; [done|]. by rewrite last_cons_cons.
Qed.

Lemma single_flight_app A B :
  single_flight A → settled A → single_flight B → unrequested B →
  single_flight (A ++ B).
Proof.
  intros HA Hset HB Hun.
  induction A as [|x A IH]; [done|].
  destruct HA as [Hx HA]. cbn [app single_flight]. split.
  - unfold follows in *. destruct (fed x) eqn:Hfed.
    + destruct (truthy (is_generating (post x))).
      * subst A. unfold settled in Hset. cbn in Hset. congruence.
      * destruct Hx as (y & T' & -> & Hy). by exists y, (T' ++ B).
    + destruct A as [|y A]; [|done].
      destruct B as [|y B]; [done|]. exact Hun.
  - destruct A as [|y A]; [done|]. apply IH; [done|].
    unfold settled in *. by rewrite last_cons_cons in Hset.
Qed.

Lemma unrequested_app A B :
  unrequested A → unrequested B → unrequested (A ++ B).
Proof. by destruct A. Qed.

Lemma settled_app A B : settled A → settled B → settled (A ++ B).
Proof.
  intros HA HB. destruct B as [|y B] using rev_ind.
  - by rewrite app_nil_r.
  - unfold settled in *. rewrite app_assoc, last_snoc.
    by rewrite last_snoc in HB.
Qed.

Lemma single_flight_feed T1 x T2 :
  single_flight (T1 ++ x :: T2) → follows x T2.
Proof.
  induction T1 as [|x' T1 IH]; [by intros [? _]|].
  intros [_ HT]. by apply IH.
Qed.

Lemma single_flight_request T1 y T2 :
  single_flight (T1 ++ y :: T2) → unrequested (T1 ++ y :: T2) →
  requests (ev y) = true →
  ∃ T0 x, T1 = T0 ++ [x] ∧ fed x = true ∧
          truthy (is_generating (post x)) = false ∧
          pre y = set_is_generating (Some true) (post x).
Proof.
  intros HT Hun Hy.
  destruct T1 as [|x T1]; [cbn in Hun; congruence|]. clear Hun.
  revert x HT. induction T1 as [|x' T1 IH]; intros x [Hx HT].
  - exists [], x. unfold follows in Hx.
    destruct (fed x); [|cbn in Hx; congruence].
    destruct (truthy (is_generating (post x))); [done|].
    destruct Hx as (y' & T' & [= <- <-] & _ & Hpre). done.
  - destruct (IH x' HT) as (T0 & x0 & -> & Hx0).
    by exists (x :: T0), x0.
Qed.

Section SingleFlight.
Context `{Library} {W : Type}.
Implicit Types h : handler session call resp W.

(** What the proofs carry along a run: the trace respects the discipline
    and begins with no request, and a run that raised ends with no feed. *)
Definition closed_run {A} (T : list (entry session call resp))
    (v : result A) (w : W) (s : session) : Prop :=
  single_flight T ∧ unrequested T ∧ (is_ok v = false → settled T).

Ltac quiet_step :=
  lazymatch goal with
  | |- always _ _ (mret _) => apply always_mret
  | |- always _ _ (Ret _) => apply always_ret
  | |- always _ _ (Raise _) => apply always_raise
  | |- always _ _ (gets _) => apply always_gets
  | |- always _ _ (modify _) => apply always_modify
  | |- always _ _ (returned _) => apply always_returned
  | |- always ?h ?P (perform ?e) =>
      apply (always_perform h P e); intros; split; reflexivity
  | |- always _ _ (try_except _ _) => apply always_try_except; [|intros ?]
  | |- always _ _ (_ ≫= _) => apply always_bind; [|intros ?]
  | |- always _ _ (if ?b then _ else _) => destruct b
  end.

Lemma execute_function_call_quiet h name arguments :
  always h quiet (_execute_function_call name arguments).
Proof.
  unfold _execute_function_call, get_weather, search_database.
  unfold_effects. repeat quiet_step.
Qed.

Lemma wp_quiet_bind h {A B} (m : prog A) (f : A → prog B) w s :
  always h quiet m →
  (∀ a w1 s1, wp h (f a) closed_run w1 s1) →
  wp h (m ≫= f) closed_run w s.
Proof.
  intros Hm Hf. apply wp_bind. unfold wp at 1.
  specialize (Hm w s). apply quiet_trace in Hm as (Hsf & Hun & Hset).
  destruct (value (interp h m w s)) as [a|x]; [|done].
  eapply wp_mono; [|apply Hf].
  intros T v w' s' (Hsf' & Hun' & Hset'). split_and!.
  - by apply single_flight_app.
  - by apply unrequested_app.
  - intros Hv. apply settled_app; auto.
Qed.

Lemma wp_closed_try h {A} (m : prog A) (f : exn → prog A) w s :
  wp h m closed_run w s →
  (∀ x w1 s1, wp h (f x) closed_run w1 s1) →
  wp h (try_except m f) closed_run w s.
Proof.
  intros Hm Hf. apply wp_try_except. eapply wp_mono; [|exact Hm].
  intros T [a|x] w1 s1 (Hsf & Hun & Hset); [done|].
  specialize (Hset eq_refl).
  eapply wp_mono; [|apply Hf].
  intros T' v w' s' (Hsf' & Hun' & Hset'). split_and!.
  - by apply single_flight_app.
  - by apply unrequested_app.
  - intros Hv. apply settled_app; auto.
Qed.

Lemma feed_and_request h connection call_id output instructions w s :
  wp h (item_create connection call_id output;;
        request_response connection instructions) closed_run w s.
Proof.
  unfold wp, closed_run, request_response. unfold_effects.
  run_any h idtac.
  all: split_and!; try done; by eauto.
Qed.

Lemma execute_function_call_async_closed h connection call_id name arguments
    w s :
  wp h (_execute_function_call_async connection call_id name arguments)
    closed_run w s.
Proof.
  unfold _execute_function_call_async.
  apply wp_quiet_bind; [unfold_effects; repeat quiet_step|]. intros st w1 s1.
  apply wp_closed_try.
  - apply wp_quiet_bind; [unfold_effects; repeat quiet_step|]. intros _ w2 s2.
    apply wp_quiet_bind; [unfold_effects; repeat quiet_step|]. intros _ w3 s3.
    apply wp_quiet_bind; [apply execute_function_call_quiet|].
    intros result w4 s4.
    apply wp_quiet_bind; [unfold_effects; repeat quiet_step|]. intros _ w5 s5.
    apply wp_quiet_bind; [unfold_effects; repeat quiet_step|]. intros _ w6 s6.
    apply feed_and_request.
  - intros x w2 s2.
    apply wp_quiet_bind; [unfold_effects; repeat quiet_step|]. intros _ w3 s3.
    apply wp_quiet_bind; [unfold_effects; repeat quiet_step|]. intros _ w4 s4.
    apply feed_and_request.
Qed.

(** C5.  In every environment, also one that changes the session while the
    task is suspended in a call, the trace of the task of a function call
    is disciplined.  Whenever the creation of a tool-output item returns,
    for the result or for the error: if the session is generating at that
    moment, the task makes no further call; if it is not, the next call is
    the request of a response, made with the flag set.  And every request
    of a response the task makes comes directly after such a creation that
    returned to a session that was not generating. *)
Theorem tool_task_requests_response_when_idle h (w : W) (s : session)
    (connection : conn) (call_id : string) (name : option string)
    (arguments : string) :
  let out :=
    interp h (_execute_function_call_async connection call_id name arguments)
      w s in
  (∀ T1 x T2,
     trace out = T1 ++ x :: T2 → fed x = true →
     if truthy (is_generating (post x)) then T2 = []
     else ∃ y T3, T2 = y :: T3 ∧ requests (ev y) = true ∧
                  pre y = set_is_generating (Some true) (post x)) ∧
  (∀ T1 y T2,
     trace out = T1 ++ y :: T2 → requests (ev y) = true →
     ∃ T0 x, T1 = T0 ++ [x] ∧ fed x = true ∧
             truthy (is_generating (post x)) = false ∧
             pre y = set_is_generating (Some true) (post x)).
Proof.
  intros out.
  destruct (execute_function_call_async_closed h connection call_id name
              arguments w s) as (Hsf & Hun & _).
  fold out in Hsf, Hun. split.
  - intros T1 x T2 HT Hfed. rewrite HT in Hsf.
    apply single_flight_feed in Hsf. unfold follows in Hsf.
    by rewrite Hfed in Hsf.
  - intros T1 y T2 HT Hy. rewrite HT in Hsf, Hun.
    by apply single_flight_request with T2.
Qed.

End SingleFlight.

End AsyncFCFacts.

Module Examples.
Import DeepResearch DeepResearchFacts.

(** A vendor whose run stays in progress and has no message yet. *)
Definition stuck_vendor : vendor :=
  Vendor (Ok tt) (Ok tt) (Ok "thread-1") (Ok tt)
    (Ok (ThreadRun "run-1" "queued" None))
    (λ _, Ok (ThreadRun "run-1" "in_progress" None))
    (λ _, Ok None) (λ _, 0%Q).

Definition demo_config : config := Config "https://project" "agent-1" (3 # 2) 1800.

Definition busy_session : session :=
  Session (Some "thread-1") (Some "run-1") (Some ∅) (Some ∅).

Lemma run_guard_single_flight_witness :
  active_run_id busy_session = Some "run-1" ∧
  interp (seq (answer stuck_vendor)) (_start_run "thread-1" "agent-1")
    start_world busy_session
  = Run start_world busy_session (Err already_active) [] ∧
  calls (interp (seq (answer stuck_vendor))
           (on_message (λ _, None) demo_config 3 (Some "why is the sky blue"))
           start_world busy_session)
  = [ SendMessage "⏳ Starting deep research..."; SendMessage "";
      CreateClients; ClientEnter; SendMessage busy_notice; ClientExit ].
Proof.
  split; [reflexivity|].
  split; [|vm_compute; reflexivity].
  exact (proj1 (run_guard_single_flight (seq (answer stuck_vendor))
                  (answer stuck_vendor) (λ _, None) demo_config 3
                  (Some "why is the sky blue") "thread-1" "agent-1"
                  start_world busy_session "run-1" eq_refl)).
Defined.

(** Scenario 1: the run is queued, then twice in progress with the same
    summary block in the latest message, then completed. *)
Definition analyzing : message :=
  Message ["cot_summary: analyzing sources"] [].

Definition scenario1 : vendor :=
  Vendor (Ok tt) (Ok tt) (Ok "thread-1") (Ok tt)
    (Ok (ThreadRun "run-1" "queued" None))
    (λ k, Ok (ThreadRun "run-1"
                (match k with
                 | 0 => "queued"
                 | 1 | 2 => "in_progress"
                 | _ => "completed"
                 end) None))
    (λ k, Ok (match k with 0 => None | _ => Some analyzing end))
    (λ _, 0%Q).

Definition poll1 (s : session) :=
  interp (seq (answer scenario1))
    (_poll_run_and_show_progress re_search_cot_summary 10 "thread-1" "run-1"
       0 (3 # 2) 1800)
    start_world s.

Definition started : session :=
  final (interp (seq (answer scenario1)) (_start_run "thread-1" "agent-1")
           start_world (Session (Some "thread-1") None None None)).

(** The first run streams the block once; a second run, started on the
    session the first one left, streams it once again. *)
Lemma poller_streams_each_summary_once_witness :
  tokens (calls (poll1 started))
  = [cot_line "cot_summary: analyzing sources"] ∧
  cot_seen (final (poll1 started)) = {["cot_summary: analyzing sources"]} ∧
  tokens (calls (poll1
    (final (interp (seq (answer scenario1)) (_start_run "thread-1" "agent-1")
              start_world (set_active_run_id None (final (poll1 started)))))))
  = [cot_line "cot_summary: analyzing sources"] ∧
  NoDup (cot_lines (tokens (calls (poll1 started)))).
Proof.
  split; [vm_compute; reflexivity|].
  split; [vm_compute; reflexivity|].
  split; [vm_compute; reflexivity|].
  exact (proj1 (poller_streams_each_summary_once (seq (answer scenario1))
                  (answer scenario1) re_search_cot_summary 10 "thread-1"
                  "run-1" 0 (3 # 2) 1800 start_world started)).
Defined.



(** A final message that cites three pages: the first one twice, under two
    titles, the second without a title and the third with an empty one. *)
Definition cited_message : message :=
  Message [" Findings. "]
    [Annotation "https://a.example" (Some "First title");
     Annotation "https://b.example" None;
     Annotation "https://a.example" (Some "Second title");
     Annotation "https://c.example" (Some "")].

Definition cited_vendor : vendor :=
  Vendor (Ok tt) (Ok tt) (Ok "thread-1") (Ok tt)
    (Ok (ThreadRun "run-1" "queued" None))
    (λ _, Ok (ThreadRun "run-1" "completed" None))
    (λ _, Ok (Some cited_message)) (λ _, 0%Q).

Lemma references_first_seen_once_witness :
  calls (interp (seq (answer cited_vendor))
           (_display_final_results "thread-1" 1) start_world busy_session)
  = [GetLastMessageByRole "thread-1";
     StreamToken 1 "Findings.";
     StreamToken 1
       (nl +:+ nl +:+ "### References" +:+ nl +:+
        "- [First title](https://a.example)" +:+ nl +:+
        "- [https://b.example](https://b.example)" +:+ nl +:+
        "- [https://c.example](https://c.example)")] ∧
  ∃ body,
    calls (interp (seq (answer cited_vendor))
             (_display_final_results "thread-1" 1) start_world busy_session)
    = [GetLastMessageByRole "thread-1"; StreamToken 1 body;
       StreamToken 1
         (nl +:+ nl +:+ "### References" +:+ nl +:+
          "- [First title](https://a.example)" +:+ nl +:+
          "- [https://b.example](https://b.example)" +:+ nl +:+
          "- [https://c.example](https://c.example)")].
Proof.
  split; [vm_compute; reflexivity|].
  destruct (references_first_seen_once
              (url_citation_annotations cited_message))
    as (_ & _ & _ & _ & _ & Hshown).
  exact (Hshown _ (seq (answer cited_vendor)) start_world busy_session
           "thread-1" 1 cited_message eq_refl eq_refl
           ltac:(discriminate)).
Defined.

(** ** The realtime voice agent *)

Definition uuids : Realtime.script :=
  Realtime.Script (λ k, match k with
                        | 0 => "track-0" | 1 => "track-1" | 2 => "track-2"
                        | _ => "track-n"
                        end) false false.

Definition voice
  : handler Realtime.session Realtime.call Realtime.resp Realtime.world :=
  seq (Realtime.answer uuids).

(** A session in voice mode, its agent answering with message 7 open. *)
Definition answering : Realtime.session :=
  Realtime.Session (Some 1) (Some 2) (Some 3) (Some "track-old")
    (Some true) (Some true) (Some 7) None (Some false).

Lemma empty_delta_is_ignored_witness :
  Realtime.no_text PyOther ∧
  interp voice (Realtime._handle_agent_text_delta PyOther)
    Realtime.start_world answering
  = Run Realtime.start_world answering (Ok tt) [] ∧
  interp voice
    (Realtime.dispatch
       (Realtime.Event "response.audio_transcript.delta" (PyStr "")
          (PyStr "") ""))
    Realtime.start_world answering
  = Run Realtime.start_world answering (Ok tt) [].
Proof.
  split; [by intros t|]. split.
  - apply (RealtimeFacts.empty_delta_is_ignored voice Realtime.start_world
             answering PyOther). by intros t.
  - apply (RealtimeFacts.empty_delta_is_ignored voice Realtime.start_world
             answering (PyStr "")).
    + intros t Ht. by injection Ht as <-.
    + reflexivity.
    + right. left. reflexivity.
Defined.

(** A session in voice mode in which nothing was said yet. *)
Definition listening : Realtime.session :=
  Realtime.Session (Some 1) (Some 2) (Some 3) (Some "track-old")
    (Some false) (Some false) None None (Some false).


(** The same environment once the receive loop has ended: the server
    closed the connection, or a handler raised and the loop logged it. *)
Definition hung_up
  : handler Realtime.session Realtime.call Realtime.resp Realtime.world :=
  seq (Realtime.answer (Realtime.Script (Realtime.draw uuids) false true)).

(** The receive loop ended while the agent was answering, so nothing reset
    the flags; the user then stops the session: [on_chat_end] finds the
    task done, drops the connection and leaves the flags. *)
Definition stopped : Realtime.session :=
  final (interp hung_up Realtime.on_chat_end Realtime.start_world answering).

Lemma barge_in_before_submit_witness :
  calls (interp voice (Realtime.on_message "stop, tell me the weather")
           Realtime.start_world answering)
  = [Realtime.Uuid4; Realtime.ResponseCancel 1; Realtime.SendAudioInterrupt;
     Realtime.Uuid4; Realtime.MessageUpdate 7;
     Realtime.ItemCreate 1 "stop, tell me the weather";
     Realtime.ResponseCreate 1] ∧
  Realtime.track_id answering = Some "track-old" ∧
  Realtime.track_id
    (final (interp voice (Realtime.on_message "stop, tell me the weather")
              Realtime.start_world answering)) = Some "track-1" ∧
  (∃ r_cancel sa sb tid sc finalized s_submit r_submit sd T,
     trace (interp voice (Realtime.on_message "stop, tell me the weather")
              Realtime.start_world answering)
     = Entry Realtime.Uuid4 "track-0" answering answering
       :: Entry (Realtime.ResponseCancel 1) r_cancel
            (Realtime.filled "track-0" answering) sa
       :: Entry Realtime.SendAudioInterrupt tt sa sb
       :: Entry Realtime.Uuid4 tid sb sc
       :: finalized
       ++ Entry (Realtime.ItemCreate 1 "stop, tell me the weather") r_submit
            s_submit sd :: T ∧
     match Realtime.current_response_message sc with
     | Some m =>
         ∃ se, finalized = [Entry (Realtime.MessageUpdate m) tt
                              (Realtime.quiet tid sc) se] ∧
               s_submit = Realtime.set_current_response_message None se
     | None => finalized = [] ∧ s_submit = Realtime.quiet tid sc
     end ∧
     Realtime.track_id (Realtime.quiet tid sc) = Some tid ∧
     Realtime.is_generating (Realtime.quiet tid sc) = Some false ∧
     Realtime.is_playing (Realtime.quiet tid sc) = Some false ∧
     Realtime.current_response_message s_submit = None ∧
     Forall (λ x, Realtime.submits (ev x) = false) T) ∧
  (∃ m w2 s2,
     interp voice (Realtime.on_message "are you there") Realtime.start_world
       stopped
     = Run w2 s2 (Ok tt)
         [Entry Realtime.Uuid4 "track-0" stopped stopped;
          Entry (Realtime.MessageSend Realtime.no_connection_notice None None)
            m (Realtime.filled "track-0" stopped) s2]).
Proof.
  split; [vm_compute; reflexivity|].
  split; [reflexivity|].
  split; [vm_compute; reflexivity|].
  split.
  - exact (proj1 (RealtimeFacts.barge_in_before_submit voice
                    Realtime.start_world answering
                    "stop, tell me the weather") 1 eq_refl eq_refl).
  - exact (proj2 (RealtimeFacts.barge_in_before_submit voice
                    Realtime.start_world stopped "are you there") eq_refl).
Defined.

(** A message sent after the stop, with both flags still set, cancels
    nothing, interrupts nothing and keeps the track and the flags: the
    handler answers with the notice and returns. *)
Lemma message_after_stop_does_not_barge_in :
  Realtime.is_generating stopped = Some true ∧
  Realtime.is_playing stopped = Some true ∧
  Realtime.connection stopped = None ∧
  calls (interp voice (Realtime.on_message "are you there")
           Realtime.start_world stopped)
  = [Realtime.Uuid4;
     Realtime.MessageSend Realtime.no_connection_notice None None] ∧
  final (interp voice (Realtime.on_message "are you there")
           Realtime.start_world stopped)
  = stopped ∧
  Realtime.track_id stopped = Some "track-old".
Proof.
  vm_compute. repeat split.
Defined.

(** ** The realtime agent with tools *)

(** The arguments of Scenario 3 and their two fragments. *)
Definition tokyo_arguments : string :=
  "{" +:+ dquote +:+ "location" +:+ dquote +:+ ":" +:+ dquote +:+ "Tokyo"
  +:+ dquote +:+ "}".
Definition fragment1 : string := "{" +:+ dquote +:+ "loc".
Definition fragment2 : string :=
  "ation" +:+ dquote +:+ ":" +:+ dquote +:+ "Tokyo" +:+ dquote +:+ "}".

(** What [get_weather] returns for Tokyo and no date. *)
Definition tokyo_report : json :=
  JDict [("location", JStr "Tokyo"); ("date", JStr "今日");
         ("weather", JStr "晴れのち曇り"); ("temperature", JStr "24");
         ("humidity", JStr "62");
         ("forecast",
          JStr "Tokyoの今日の天気は晴れのち曇り、気温は24度、湿度は62%の予報です。")].

(** The library on the values the examples pass it: [json.loads] on the
    arguments of Scenario 3 and on the empty string, [get_weather] on
    Tokyo; the displays are the raw texts. *)
#[local] Instance library : AsyncFC.Library :=
  {| AsyncFC.json_loads arguments :=
       if String.eqb arguments tokyo_arguments
       then Ok (JDict [("location", JStr "Tokyo")])
       else Err (Exn JSONDecodeError
                   "Expecting value: line 1 column 1 (char 0)");
     AsyncFC.weather_report location date :=
       match location, date with
       | JStr "Tokyo", JNull => Ok tokyo_report
       | _, _ => Err (Exn AttributeError
                        ("'" +:+ py_type_name location
                         +:+ "' object has no attribute 'replace'"))
       end;
     AsyncFC.search_notice query := "";
     AsyncFC.search_results query category := JDict [];
     AsyncFC.format_input arguments := arguments;
     AsyncFC.format_output name result := (result, false) |}.

Definition quiet_world : AsyncFC.script := AsyncFC.Script false false false.
Definition busy_world : AsyncFC.script := AsyncFC.Script false false true.

(** A session in voice mode in which nothing is generating. *)
Definition idle : AsyncFC.session := AsyncFC.Session (Some 1) (Some false) None.

Definition delta_event (fragment : string) : AsyncFC.event :=
  AsyncFC.Event (Some "c1") None fragment "" (Some "item-1").
Definition done_event : AsyncFC.event :=
  AsyncFC.Event (Some "c1") (Some "get_weather") "" tokyo_arguments
    (Some "item-1").

Definition received (fragments : list string) :=
  interp (AsyncFC.answer quiet_world)
    (AsyncFC.receive_deltas (delta_event <$> fragments))
    AsyncFC.start_world idle.

Definition completed (fragments : list string) :=
  interp (AsyncFC.answer quiet_world)
    (AsyncFC._handle_function_call_arguments_done done_event)
    (env (received fragments)) (final (received fragments)).

(** Scenario 3. *)
Lemma executor_receives_done_arguments_witness :
  AsyncFC.fragments "c1" (delta_event <$> [fragment1; fragment2])
  = tokyo_arguments ∧
  AsyncFC.buffered "c1" (final (received [fragment1; fragment2]))
  = tokyo_arguments ∧
  calls (completed [fragment1; fragment2])
  = [AsyncFC.CreateTask 1 "c1" (Some "get_weather") tokyo_arguments] ∧
  AsyncFC.buffered "c1" (final (completed [fragment1; fragment2])) = "".
Proof.
  destruct (AsyncFCFacts.executor_receives_done_arguments
              (AsyncFC.answer quiet_world) AsyncFC.start_world idle
              (delta_event <$> [fragment1; fragment2]) done_event "c1" 1
              ltac:(discriminate) eq_refl eq_refl)
    as (_ & Hbuffered & Hcalls & _ & Hdropped).
  split; [vm_compute; reflexivity|].
  split; [exact Hbuffered|].
  split; [exact Hcalls|exact Hdropped].
Defined.

(** Only the first fragment arrives before the done event: the executor
    still receives the full arguments of the done event, which are not the
    concatenation of the fragments received. *)
Lemma executor_does_not_receive_the_buffer :
  AsyncFC.fragments "c1" (delta_event <$> [fragment1]) = fragment1 ∧
  AsyncFC.buffered "c1" (final (received [fragment1])) = fragment1 ∧
  calls (completed [fragment1])
  = [AsyncFC.CreateTask 1 "c1" (Some "get_weather") tokyo_arguments] ∧
  tokyo_arguments ≠ fragment1.
Proof.
  split; [vm_compute; reflexivity|].
  split; [vm_compute; reflexivity|].
  split; [vm_compute; reflexivity|].
  vm_compute. discriminate.
Defined.

Definition executed (name : option string) (arguments : string) :=
  interp (AsyncFC.answer quiet_world)
    (AsyncFC._execute_function_call name arguments) AsyncFC.start_world idle.

Definition parse_error : string :=
  "Expecting value: line 1 column 1 (char 0)".

Lemma execute_function_call_returns_payload_witness :
  value (executed (Some "get_time") tokyo_arguments)
  = Ok ("{" +:+ dquote +:+ "error" +:+ dquote +:+ ": " +:+ dquote
        +:+ "Unknown function: get_time" +:+ dquote +:+ "}") ∧
  calls (executed (Some "get_time") tokyo_arguments) = [] ∧
  value (executed (Some "get_weather") tokyo_arguments)
  = Ok (json_dumps tokyo_report) ∧
  value (executed (Some "get_weather") "")
  = Ok (json_dumps (error_payload parse_error)).
Proof.
  pose proof (AsyncFCFacts.execute_function_call_returns_payload
                (AsyncFC.answer quiet_world) AsyncFC.start_world idle
                (Some "get_time") tokyo_arguments)
    as (_ & _ & Hunknown & _).
  pose proof (AsyncFCFacts.execute_function_call_returns_payload
                (AsyncFC.answer quiet_world) AsyncFC.start_world idle
                (Some "get_weather") "")
    as (_ & Hparse & _).
  specialize (Hunknown _ eq_refl ltac:(discriminate) ltac:(discriminate)).
  destruct (Hparse _ eq_refl) as [Hvalue _].
  split; [unfold executed; rewrite Hunknown; vm_compute; reflexivity|].
  split; [unfold executed; rewrite Hunknown; reflexivity|].
  split; [vm_compute; reflexivity|exact Hvalue].
Defined.

(** A function that is not a tool, called with arguments that do not
    parse: the payload carries the parser's message and does not name the
    function. *)
Lemma unknown_function_with_unparsable_arguments :
  value (executed (Some "get_time") "")
  = Ok ("{" +:+ dquote +:+ "error" +:+ dquote +:+ ": " +:+ dquote
        +:+ parse_error +:+ dquote +:+ "}") ∧
  calls (executed (Some "get_time") "")
  = [AsyncFC.LogException ("Function call error: " +:+ parse_error)] ∧
  json_dumps (AsyncFC.unknown_function (Some "get_time"))
  = "{" +:+ dquote +:+ "error" +:+ dquote +:+ ": " +:+ dquote
    +:+ "Unknown function: get_time" +:+ dquote +:+ "}" ∧
  value (executed (Some "get_time") "")
  ≠ Ok (json_dumps (AsyncFC.unknown_function (Some "get_time"))).
Proof.
  split; [vm_compute; reflexivity|].
  split; [vm_compute; reflexivity|].
  split; [vm_compute; reflexivity|].
  vm_compute. discriminate.
Defined.

Definition task (v : AsyncFC.script) :=
  interp (AsyncFC.answer v)
    (AsyncFC._execute_function_call_async 1 "c1" (Some "get_weather")
       tokyo_arguments)
    AsyncFC.start_world idle.

(** The task of Scenario 3 in a session that stays idle requests a
    response after feeding the report; when another response starts while
    the tool sleeps, it feeds the report and requests nothing. *)
Lemma tool_task_requests_response_when_idle_witness :
  drop 5 (calls (task quiet_world))
  = [AsyncFC.StepUpdate 0 (Some tokyo_arguments)
       (Some (json_dumps tokyo_report)) false;
     AsyncFC.ItemCreate 1 "c1" (json_dumps tokyo_report);
     AsyncFC.ResponseCreate 1 (Some AsyncFC.answer_instructions)] ∧
  drop 5 (calls (task busy_world))
  = [AsyncFC.StepUpdate 0 (Some tokyo_arguments)
       (Some (json_dumps tokyo_report)) false;
     AsyncFC.ItemCreate 1 "c1" (json_dumps tokyo_report)] ∧
  AsyncFC.is_generating (final (task quiet_world)) = Some true ∧
  drop 7 (trace (task busy_world)) = [].
Proof.
  split; [vm_compute; reflexivity|].
  split; [vm_compute; reflexivity|].
  split; [vm_compute; reflexivity|].
  pose proof (proj1 (AsyncFCFacts.tool_task_requests_response_when_idle
                       (H := library) (AsyncFC.answer busy_world) AsyncFC.start_world idle 1
                       "c1" (Some "get_weather") tokyo_arguments)
                (take 6 (trace (task busy_world)))
                (Entry (AsyncFC.ItemCreate 1 "c1" (json_dumps tokyo_report))
                   (Ok tt) (AsyncFC.set_is_generating (Some true) idle)
                   (AsyncFC.set_is_generating (Some true) idle))
                (drop 7 (trace (task busy_world)))
                ltac:(vm_compute; reflexivity) eq_refl) as Hend.
  exact Hend.
Defined.

End Examples.

(** * More about programs: [try: ... finally: ...] *)

Section Finally.
Context {St E : Type} {resp : E → Type} {W : Type}.
Implicit Types h : handler St E resp W.

Lemma interp_try_finally h {A} (m : prog St E resp A) fin w s :
  interp h (try_finally m fin) w s
  = let r := interp h m w s in
    let r' := interp h fin (env r) (final r) in
    Run (env r') (final r')
      (match value r' with Ok _ => value r | Err x => Err x end)
      (trace r ++ trace r').
Proof.
  unfold try_finally.
  pose proof (interp_bind h
                (try_except (bind m (λ a, Ret (Ok a))) (λ x, Ret (Err x)))
                (λ r, bind fin (λ _, match r with
                                      | Ok a => Ret a
                                      | Err x => Raise x
                                      end)) w s) as Hb.
  unfold mbind, prog_bind in Hb. rewrite Hb. clear Hb.
  rewrite interp_try_except.
  pose proof (interp_bind h m (λ a, Ret (Ok a)) w s) as Hb.
  unfold mbind, prog_bind in Hb. rewrite Hb. clear Hb.
  destruct (interp h m w s) as [w1 s1 [a|x] T];
    unfold then_run, catch_run; cbn.
  - pose proof (interp_bind h fin (λ _, Ret a) w1 s1) as Hb.
    unfold mbind, prog_bind in Hb. rewrite Hb. clear Hb.
    destruct (interp h fin w1 s1) as [w2 s2 [[]|x] T2];
      unfold then_run; cbn; by rewrite ?app_nil_r.
  - pose proof (interp_bind h fin (λ _, Raise x : prog St E resp A) w1 s1)
      as Hb.
    unfold mbind, prog_bind in Hb. rewrite Hb. clear Hb.
    destruct (interp h fin w1 s1) as [w2 s2 [[]|x'] T2];
      unfold then_run; cbn; by rewrite ?app_nil_r.
Qed.

Lemma wp_try_finally h {A} (m : prog St E resp A) fin
    (Q : _ → result A → _ → _ → Prop) w s :
  wp h m (λ T1 v w1 s1,
            wp h fin (λ T2 v2 w2 s2,
                        Q (T1 ++ T2)
                          (match v2 with Ok _ => v | Err x => Err x end)
                          w2 s2) w1 s1) w s →
  wp h (try_finally m fin) Q w s.
Proof. unfold wp. by rewrite interp_try_finally. Qed.

End Finally.

(** * More about the deep-research flow *)

Module DeepResearchMore.
Import DeepResearch DeepResearchFacts.

Section Threads.
Context {W : Type} (h0 : ∀ e, W → W * resp e).

(** The thread of a session is created once.  With a thread stored, the
    lookup returns it without a call and leaves the session alone.
    Without one, the only call is the creation of a thread; if the
    creation raises, the session is left as it was; if it returns a
    non-empty identifier, a second lookup returns the same identifier
    without a call. *)
Theorem thread_is_created_once (w : W) (s : session) :
  let first := interp (seq h0) _get_or_create_thread_id w s in
  let second :=
    interp (seq h0) _get_or_create_thread_id (env first) (final first) in
  (truthy_str (thread_id s) = true →
   first = Run w s (Ok (default "" (thread_id s))) []) ∧
  (truthy_str (thread_id s) = false →
   calls first = [ThreadsCreate] ∧
   (∀ x, value first = Err x → final first = s) ∧
   (∀ tid, value first = Ok tid → tid ≠ "" →
           thread_id (final first) = Some tid ∧
           second = Run (env first) (final first) (Ok tid) [])).
Proof.
  intros first second. split.
  - intros Hset. subst first. unfold _get_or_create_thread_id.
    cbn. by rewrite Hset.
  - intros Hunset.
    assert (first
            = match h0 ThreadsCreate w with
              | (w1, Ok tid) =>
                  Run w1 (set_thread_id (Some tid) s) (Ok tid)
                    [Entry ThreadsCreate (Ok tid) s s]
              | (w1, Err x) =>
                  Run w1 s (Err x) [Entry ThreadsCreate (Err x) s s]
              end) as Hfirst.
    { subst first. unfold _get_or_create_thread_id. unfold_calls.
      unfold mbind, prog_bind, perform, gets, modify, returned. cbn.
      rewrite Hunset. cbn. rewrite seq_eq.
      by destruct (h0 ThreadsCreate w) as [w1 [tid|x]]. }
    subst second. rewrite Hfirst. clear Hfirst first.
    destruct (h0 ThreadsCreate w) as [w1 [tid|x]].
    + split_and!; [done|done|]. intros ? [= <-] Htid. split; [done|].
      unfold _get_or_create_thread_id. cbn.
      destruct (String.eqb_spec tid "") as [|_]; [done|]. reflexivity.
    + split_and!; [done| |done]. by intros ? _.
Qed.

End Threads.

Section Validation.
Context {W : Type} (h : handler session call resp W).
Variable cot_search : string → option string.

(** A question that is blank once stripped, or a configuration without
    end point or agent, is answered with one message: the handler returns
    without any call to the vendor. *)
Theorem unusable_question_starts_nothing (cfg : config) (fuel : nat)
    (content : option string) (w : W) (s : session) :
  strip (default "" content) = "" ∨
  PROJECT_ENDPOINT cfg = "" ∨ AGENT_ID cfg = "" →
  let out := interp h (on_message cot_search cfg fuel content) w s in
  value out = Ok Returned ∧
  ∃ notice, calls out = [SendMessage notice] ∧
            (strip (default "" content) = "" →
             notice = "Please provide a research question.").
Proof.
  intros Hbad out. subst out. unfold on_message. unfold_calls.
  destruct (String.eqb_spec (strip (default "" content)) "") as [Hblank|Hq].
  - run_any h idtac. split; [done|]. by eexists.
  - assert (String.eqb (PROJECT_ENDPOINT cfg) ""
            || String.eqb (AGENT_ID cfg) "" = true) as ->.
    { destruct Hbad as [?|[->| ->]]; [done|done|]. by rewrite orb_true_r. }
    run_any h idtac. split; [done|]. by eexists.
Qed.

End Validation.

Section Release.
Context {W : Type} (h0 : ∀ e, W → W * resp e).
Variable cot_search : string → option string.

Ltac step := wp_step_seq; unfold_calls.
Ltac returns :=
  lazymatch goal with
  | |- wp _ (returned ?r) _ _ _ => destruct r as [?|?]; step
  end.
Ltac call := repeat first [returns | step].

Lemma get_or_create_thread_id_keeps_guard w s :
  wp (seq h0) _get_or_create_thread_id
    (λ _ _ _ s', active_run_id s' = active_run_id s) w s.
Proof.
  unfold _get_or_create_thread_id. unfold_calls.
  step. step. destruct (truthy_str (thread_id s)); [by step|].
  repeat step. destruct r; by repeat step.
Qed.

(** Whatever the body does, [try: ... finally: _end_run()] leaves no run
    marked active. *)
Lemma finally_end_run_releases {A} (m : prog A) w s :
  wp (seq h0) (try_finally m _end_run)
    (λ _ _ _ s', active_run_id s' = None) w s.
Proof.
  apply wp_try_finally. apply wp_any. intros T v w1 s1. done.
Qed.

Lemma on_message_releases_guard cfg fuel content w s :
  active_run_id s = None →
  wp (seq h0) (on_message cot_search cfg fuel content)
    (λ _ v _ s', is_ok v = true ∧ active_run_id s' = None) w s.
Proof.
  intros Hidle. unfold on_message. unfold_calls.
  destruct (String.eqb _ ""); [by repeat step|].
  destruct (_ || _); [by repeat step|].
  do 4 step.
  (* the clients: the session is left alone *)
  step.
  eapply (wp_mono _ _ (λ _ v _ s1, s1 = s ∧ ∃ b : bool, v = Ok b)); cycle 1.
  { step. unfold _create_clients. unfold_calls.
    destruct (String.eqb (PROJECT_ENDPOINT cfg) ""); [by repeat step; eauto|].
    destruct (String.eqb (AGENT_ID cfg) ""); [by repeat step; eauto|].
    call; eauto. }
  intros T v w2 s2 [-> [b ->]]. destruct b; [|by step].
  (* the outer handler releases the guard *)
  step.
  eapply (wp_mono _ _ (λ _ v _ s1, is_ok v = true → active_run_id s1 = None));
    cycle 1.
  2:{ intros ? [a|x] ? ? Hok; [by auto|]. by repeat step. }
  step. step. step. returns; [|done].
  (* the client is left whatever happens; it does not touch the session *)
  apply wp_try_finally.
  eapply (wp_mono _ _ (λ _ v _ s1, is_ok v = true → active_run_id s1 = None));
    cycle 1.
  2:{ intros ? v ? ? Hok. step. by destruct v. }
  (* the thread *)
  step. eapply wp_mono; [|apply get_or_create_thread_id_keeps_guard].
  intros ? [thread|x] ? s' Hkeep; [|done]. rewrite Hidle in Hkeep.
  step. step. rewrite Hkeep.
  rewrite bool_decide_false by (by intros ?). cbv beta iota.
  step. step. step. returns; [|done].
  (* the start of the run *)
  step.
  eapply (wp_mono _ _ (λ _ v _ s1, ∃ o : option thread_run,
                         v = Ok o ∧ (o = None → active_run_id s1 = None)));
    cycle 1.
  { step. unfold _start_run. unfold_calls.
    eapply (wp_mono _ _ (λ _ v _ _, ∀ o, v = Ok o → o ≠ None)); cycle 1.
    { apply wp_bind. apply wp_any. intros ? [run|x] ? ?; [|done].
      step. by intros o [= <-]. }
    intros ? [o|x] ? ? Hsome.
    - exists o. split; [done|]. intros ->. by destruct (Hsome None).
    - repeat step. by exists None. }
  intros ? v ? ? (o & -> & Hnone). destruct o as [run|].
  - eapply wp_mono; [|apply finally_end_run_releases]. auto.
  - step. auto.
Qed.

(** A message handled from a session with no active run leaves no run
    marked active, and the handler never raises: whether the question is
    refused, the clients cannot be created, the thread, the message or the
    run cannot be created, the poller returns, times out or is cut short,
    or anything raises on the way, [active_run_id] is [None] when the
    handler returns, provided nothing else touches the session. *)
Theorem guard_is_released cfg fuel content (w : W) (s : session) :
  active_run_id s = None →
  let out := interp (seq h0) (on_message cot_search cfg fuel content) w s in
  is_ok (value out) = true ∧ active_run_id (final out) = None.
Proof. intros Hidle. by apply on_message_releases_guard. Qed.

(** A second message whose client cannot be entered while a run is active
    does not only report the error: the handler of the unexpected error
    calls [_end_run], so the session loses the mark of the run that is
    still in progress. *)
Theorem failed_entry_clears_the_running_guard cfg fuel content (w : W)
    (s : session) (running : string) (x : exn) :
  strip (default "" content) ≠ "" →
  PROJECT_ENDPOINT cfg ≠ "" → AGENT_ID cfg ≠ "" →
  (∀ w', (h0 CreateClients w').2 = Ok tt) →
  (∀ w', (h0 ClientEnter w').2 = Err x) →
  active_run_id s = Some running →
  let out := interp (seq h0) (on_message cot_search cfg fuel content) w s in
  value out = Ok Returned ∧
  active_run_id (final out) = None ∧
  ∃ panel,
    calls out
    = [SendMessage "⏳ Starting deep research..."; SendMessage "";
       CreateClients; ClientEnter;
       StreamToken panel (nl +:+ "❗ Unexpected error: " +:+ exn_msg x)].
Proof.
  intros Hq Hp Ha Hcreate Henter Hrun out. subst out.
  unfold on_message, _create_clients. unfold_calls.
  apply String.eqb_neq in Hq, Hp, Ha. rewrite Hq, Hp, Ha. cbn [orb].
  run_seq h0 ltac:(rewrite ?Hcreate, ?Henter).
  split_and!; [done|done|by eexists].
Qed.

End Release.

(** *** The citation lines of the progress *)

(** The token that shows a citation (line 171), and the tokens that do. *)
Definition url_line (citation : string) : string :=
  nl +:+ "URL Citation: " +:+ citation.

Definition is_url_line (token : string) : bool :=
  String.prefix (nl +:+ "URL Citation: ") token.

Definition url_lines_of (ts : list string) : list string :=
  filter (λ t, is_url_line t = true) ts.

(** A call that streams no citation line. *)
Definition uncited (c : call) : Prop :=
  match c with StreamToken _ t => is_url_line t = false | _ => True end.

(** What a stretch [T] of a run did to the poller's set of citations,
    which was [U] before it and is [U'] after it. *)
Definition cites (U : gset string) (T : list (entry session call resp))
    (U' : gset string) : Prop :=
  U ⊆ U' ∧
  NoDup (url_lines_of (tokens (ev <$> T))) ∧
  ∀ t, t ∈ url_lines_of (tokens (ev <$> T)) →
       ∃ c, t = url_line c ∧ (c ∉ U) ∧ c ∈ U'.

Lemma is_url_line_url_line c : is_url_line (url_line c) = true.
Proof. unfold is_url_line, url_line. vm_compute. by destruct c. Qed.

#[local] Instance url_line_inj : Inj (=) (=) url_line.
Proof. intros c1 c2. unfold url_line. intros Heq. by simplify_eq. Qed.

Lemma cites_nil U : cites U [] U.
Proof. split_and!; [done|constructor|]. by intros t ?%elem_of_nil. Qed.

Lemma cites_app U U1 U2 T1 T2 :
  cites U T1 U1 → cites U1 T2 U2 → cites U (T1 ++ T2) U2.
Proof.
  intros (Hsub1 & Hnd1 & Hin1) (Hsub2 & Hnd2 & Hin2).
  unfold cites, tokens, url_lines_of.
  rewrite fmap_app, omap_app, filter_app.
  split_and!.
  - set_solver.
  - apply NoDup_app. split_and!; [done| |done].
    intros t (c & -> & _ & Hc)%Hin1 (c' & ?%(inj url_line) & Hc' & _)%Hin2.
    by subst.
  - intros t [Ht|Ht]%elem_of_app.
    + destruct (Hin1 t Ht) as (c & -> & ? & ?). exists c. set_solver.
    + destruct (Hin2 t Ht) as (c & -> & ? & ?). exists c. set_solver.
Qed.

Lemma cites_uncited U c r s s' : uncited c → cites U [Entry c r s s'] U.
Proof.
  intros Hc. split_and!; [done| |].
  - destruct c; simpl in *; try constructor.
    unfold url_lines_of. rewrite filter_cons_False by congruence. constructor.
  - intros t. destruct c; simpl in *; try by intros ?%elem_of_nil.
    unfold url_lines_of. rewrite filter_cons_False by congruence.
    by intros ?%elem_of_nil.
Qed.

Lemma cites_url_line U msg c r s s' :
  c ∉ U → cites U [Entry (StreamToken msg (url_line c)) r s s'] ({[c]} ∪ U).
Proof.
  intros Hc. unfold cites, url_lines_of. simpl.
  rewrite filter_cons_True by apply is_url_line_url_line. simpl.
  split_and!.
  - set_solver.
  - apply NoDup_singleton.
  - intros t ->%list_elem_of_singleton. exists c. set_solver.
Qed.

Section Citations.
Context {W : Type} (h : handler session call resp W).
Variable cot_search : string → option string.

Lemma show_cot_summary_cites msg text C U w s :
  wp h (show_cot_summary cot_search msg text C)
    (λ T v _ _, is_ok v = true ∧ cites U T U) w s.
Proof.
  unfold show_cot_summary. unfold_calls.
  destruct (cot_search text) as [g|]; [|wp_step; eauto using cites_nil].
  destruct (String.eqb _ _); [wp_step; eauto using cites_nil|].
  case_bool_decide as Hin; [wp_step; eauto using cites_nil|].
  repeat wp_step. split; [done|]. by apply cites_uncited.
Qed.

Lemma show_url_citations_cites msg anns U w s :
  wp h (show_url_citations msg anns U)
    (λ T v _ _, ∃ U', v = Ok U' ∧ cites U T U') w s.
Proof.
  revert U w s. induction anns as [|ann anns IH]; intros U w s;
    cbn [show_url_citations]; unfold_calls.
  - wp_step. eauto using cites_nil.
  - case_bool_decide as Hin; [apply IH|].
    repeat wp_step. eapply wp_mono; [|apply IH].
    intros T v _ _ (U' & -> & HT). exists U'. split; [done|].
    eapply cites_app; [|apply HT].
    by apply (cites_url_line U msg _ _ _ _ Hin).
Qed.

Lemma show_progress_cites thread msg C U w s :
  wp h (show_progress cot_search thread msg C U)
    (λ T v _ _, ∃ C' U', v = Ok (C', U') ∧ cites U T U') w s.
Proof.
  unfold show_progress. unfold_calls.
  repeat wp_step.
  destruct r as [[m|]|e]; cbv beta iota.
  - destruct (text_messages m).
    { wp_step. simpl. eauto using cites_app, cites_uncited, cites_nil. }
    wp_step. eapply wp_mono; [|apply (show_cot_summary_cites _ _ _ U)].
    intros T [C'|x] ? ? [Hok HT]; [|done]. cbv beta iota.
    destruct (url_citation_annotations m) eqn:Hanns.
    { wp_step. exists C', U. split; [done|].
      eapply cites_app; [by apply cites_uncited|]. simpl.
      rewrite app_nil_r. done. }
    wp_step. eapply wp_mono; [|apply show_url_citations_cites].
    intros T2 v ? ? (U' & -> & HT2). cbv beta iota.
    repeat wp_step. exists C', U'. split; [done|].
    eapply cites_app; [by apply cites_uncited|]. simpl.
    rewrite !app_nil_r. eapply cites_app; [done|apply HT2].
  - repeat wp_step. simpl. eauto using cites_app, cites_uncited, cites_nil.
  - repeat wp_step. simpl. eauto using cites_app, cites_uncited, cites_nil.
Qed.

Lemma poll_loop_cites fuel thread run msg interval timeout start C U w s :
  wp h (poll_loop cot_search fuel thread run msg interval timeout start C U)
    (λ T _ _ _, ∃ U', cites U T U') w s.
Proof.
  revert C U w s. induction fuel as [|fuel IH]; intros C U w s;
    cbn [poll_loop]; unfold_calls.
  { wp_step. eauto using cites_nil. }
  repeat wp_step. destruct r as [r|e]; cbv beta iota.
  - destruct (in_progress r).
    + wp_step. eapply wp_mono; [|apply show_progress_cites].
      intros T v ? ? (C' & U' & -> & HT). cbv beta iota.
      repeat wp_step. destruct (Qgtb _ _).
      * repeat wp_step. exists U'.
        eapply cites_app; [by apply cites_uncited|].
        eapply cites_app; [done|].
        eapply cites_app; [by apply cites_uncited|].
        by apply cites_uncited.
      * repeat wp_step. eapply wp_mono; [|apply IH].
        intros T2 v ? ? [U2 HT2]. exists U2.
        eapply cites_app; [by apply cites_uncited|].
        eapply cites_app; [done|].
        eapply cites_app; [by apply cites_uncited|].
        eapply cites_app; [by apply cites_uncited|done].
    + wp_step. destruct (String.eqb _ _).
      * repeat wp_step. destruct (last_error r); repeat wp_step; exists U;
          repeat (eapply cites_app; [by apply cites_uncited|]);
          apply cites_nil.
      * repeat wp_step. exists U.
        eapply cites_app; [by apply cites_uncited|apply cites_nil].
  - repeat wp_step. destruct (Qgtb _ _).
    + repeat wp_step. exists U.
      repeat (eapply cites_app;
                [by destruct (exn_cls e); apply cites_uncited|]).
      apply cites_nil.
    + eapply wp_mono; [|apply IH]. intros T2 v ? ? [U2 HT2]. exists U2.
      repeat (eapply cites_app;
                [by destruct (exn_cls e); apply cites_uncited|]).
      done.
Qed.

(** In every environment, also one that changes the session while the
    poller sleeps, one run of the poller streams no citation line twice,
    and every citation line it streams is that of a citation that the
    session had not recorded when the poller started. *)
Theorem poller_cites_each_url_once fuel thread run msg interval timeout
    (w : W) (s : session) :
  let out :=
    interp h (_poll_run_and_show_progress cot_search fuel thread run msg
                interval timeout) w s in
  NoDup (url_lines_of (tokens (calls out))) ∧
  ∀ x T, trace out = x :: T →
         ∀ t, t ∈ url_lines_of (tokens (calls out)) →
              ∃ c, t = url_line c ∧ c ∉ urls_seen (post x).
Proof.
  intros out. subst out.
  assert (wp h (_poll_run_and_show_progress cot_search fuel thread run msg
                  interval timeout)
            (λ T _ _ _, ∃ x T' U', T = x :: T' ∧ ev x = Now ∧
                                   cites (urls_seen (post x)) T' U') w s)
    as Hwp.
  { unfold _poll_run_and_show_progress. unfold_calls.
    repeat wp_step. eapply wp_mono; [|apply poll_loop_cites].
    intros T v ? ? [U' HT]. by eexists _, T, U'. }
  unfold wp in Hwp. destruct Hwp as (x & T' & U' & HT & Hx & _ & Hnd & Hin).
  unfold calls. rewrite HT. cbn [fmap list_fmap]. rewrite Hx. cbn.
  split; [done|]. intros x' T'' [= <- <-] t Ht.
  destruct (Hin t Ht) as (c & -> & Hc & _). by exists c.
Qed.

End Citations.

Section Results.
Context {W : Type} (h : handler session call resp W).

(** The final results always show something and never raise.  In every
    environment the renderer fetches the latest agent message once and
    streams one or two tokens to the results panel, and nothing else:
    the error when the fetch raises; a notice when there is no message;
    and otherwise the text of the message, its parts stripped and joined
    by a blank line, or a notice when the message has no text, followed,
    when the message has annotations, by the reference list: the heading
    and one line for each URL, in first-seen order. *)
Theorem final_results_always_show_something (thread : string)
    (output_msg : handle) (w : W) (s : session) :
  let out := interp h (_display_final_results thread output_msg) w s in
  let fetched := (h (GetLastMessageByRole thread) w s).2 in
  let shown (a : annotation) : string :=
    match title a with
    | Some t => if String.eqb t "" then url a else t
    | None => url a
    end in
  let line (a : annotation) : string :=
    "- [" +:+ shown a +:+ "](" +:+ url a +:+ ")" in
  value out = Ok tt ∧
  calls out
  = GetLastMessageByRole thread
    :: (StreamToken output_msg <$>
        match fetched with
        | Err x => ["Error retrieving final results: " +:+ exn_msg x]
        | Ok None => ["No results available."]
        | Ok (Some m) =>
            match text_messages m with
            | [] => "No content available."
            | texts => String.concat (nl +:+ nl) (strip <$> texts)
            end
            :: match url_citation_annotations m with
               | [] => []
               | anns =>
                   [nl +:+ nl +:+ "### References" +:+ nl +:+
                    String.concat nl (line <$> first_seen anns)]
               end
        end).
Proof.
  intros out fetched shown line. subst out fetched.
  unfold _display_final_results. unfold_calls. unfold calls.
  unfold mbind, prog_bind, perform, gets, modify, returned. cbn [interp bind].
  destruct (h (GetLastMessageByRole thread) w s) as [[w1 s1] [[m|]|x]];
    cbn [fst snd interp bind log env final value trace].
  3:{ by destruct (h (StreamToken _ _) w1 s1) as [[w2 s2] []]. }
  2:{ by destruct (h (StreamToken _ _) w1 s1) as [[w2 s2] []]. }
  assert (∀ anns : list annotation,
            anns ≠ [] →
            ∃ r rs, references_of anns = r :: rs ∧
                    references_block (r :: rs)
                    = nl +:+ nl +:+ "### References" +:+ nl +:+
                      String.concat nl (line <$> first_seen anns))
    as Hrefs.
  { intros anns Hanns.
    destruct (references_first_seen_lines anns) as [Href Hblock].
    fold shown line in Href, Hblock.
    destruct (references_of anns) as [|r rs] eqn:Hr.
    - destruct anns; [done|]. discriminate Href.
    - exists r, rs. split; [done|]. exact Hblock. }
  destruct (text_messages m) as [|t texts] eqn:Ht;
    cbn [interp bind log env final value trace].
  all: destruct (h (StreamToken _ _) w1 s1) as [[w2 s2] []].
  all: cbn [fst snd interp bind log env final value trace].
  all: destruct (url_citation_annotations m) as [|a anns] eqn:Ha; [by cbn|].
  all: destruct (Hrefs (a :: anns) ltac:(done)) as (r & rs & -> & Hblock).
  all: cbn [interp bind log env final value trace].
  all: destruct (h (StreamToken _ _) w2 s2) as [[w3 s3] []]; cbn.
  all: rewrite Hblock, ?join_concat; done.
Qed.

End Results.

End DeepResearchMore.

(** * More about the realtime voice agent *)

Module RealtimeMore.
Import Realtime RealtimeFacts.

(** The events of a list dispatched in order, as the receive loop does
    inside its [try]. *)
Definition dispatch_all (events : list event) : prog unit :=
  foldr (λ e rest, dispatch e;; rest) (Ret tt) events.

Definition text_delta (d : string) : event :=
  Event "response.text.delta" (PyStr d) (PyStr "") "".

Section Track.
Context {W : Type} (h0 : ∀ e, W → W * resp e).

(** The audio track of a session is drawn once.  A non-empty track that is
    stored is returned without a call; otherwise one identifier is drawn,
    stored and returned, and, when it is not empty, a second lookup
    returns it without drawing again. *)
Theorem track_is_drawn_once (w : W) (s : session) :
  let first := interp (seq h0) _get_track_id w s in
  let second := interp (seq h0) _get_track_id (env first) (final first) in
  (truthy_str (track_id s) = true →
   first = Run w s (Ok (default "" (track_id s))) []) ∧
  (truthy_str (track_id s) = false →
   ∃ tid,
     first = Run (h0 Uuid4 w).1 (set_track_id (Some tid) s) (Ok tid)
               [Entry Uuid4 tid s s] ∧
     (tid ≠ "" → second = Run (env first) (final first) (Ok tid) [])).
Proof.
  intros first second. split.
  - intros Hset. subst first. unfold _get_track_id. cbn. by rewrite Hset.
  - intros Hunset. subst second first.
    unfold _get_track_id at 2 3. unfold_handlers.
    unfold mbind, prog_bind, perform, gets, modify. cbn.
    rewrite Hunset. cbn. rewrite seq_eq.
    destruct (h0 Uuid4 w) as [w1 tid]. cbn in *.
    exists tid. split; [done|]. intros Htid.
    unfold _get_track_id. cbn.
    apply String.eqb_neq in Htid. rewrite Htid. reflexivity.
Qed.

Lemma ensure_session_defaults_run (w : W) (s : session) :
  interp (seq h0) _ensure_session_defaults w s
  = Run (h0 Uuid4 w).1 (filled (h0 Uuid4 w).2 s) (Ok tt)
      [Entry Uuid4 (h0 Uuid4 w).2 s s].
Proof.
  unfold _ensure_session_defaults. unfold_handlers.
  unfold mbind, prog_bind, perform, gets, modify.
  destruct s as [? ? ? [?|] [[]|] [[]|] [?|] [?|] [[]|]];
    cbn; rewrite seq_eq; reflexivity.
Qed.

(** The defaults fill what is missing and overwrite nothing: a flag that
    is set keeps its value and one that is not becomes false, a stored
    track is kept, even an empty one, and the connection and the open
    messages are not touched.  An identifier is drawn each time, whether
    or not it is used.  Applying the defaults a second time changes
    nothing. *)
Theorem defaults_overwrite_nothing (w : W) (s : session) :
  let out := interp (seq h0) _ensure_session_defaults w s in
  calls out = [Uuid4] ∧
  value out = Ok tt ∧
  is_generating (final out) = Some (truthy (is_generating s)) ∧
  is_playing (final out) = Some (truthy (is_playing s)) ∧
  text_stream_locked (final out) = Some (truthy (text_stream_locked s)) ∧
  track_id (final out) = Some (default (h0 Uuid4 w).2 (track_id s)) ∧
  connection (final out) = connection s ∧
  recv_task (final out) = recv_task s ∧
  connection_manager (final out) = connection_manager s ∧
  current_response_message (final out) = current_response_message s ∧
  current_user_message (final out) = current_user_message s ∧
  final (interp (seq h0) _ensure_session_defaults (env out) (final out))
  = final out.
Proof.
  intros out. subst out. rewrite !ensure_session_defaults_run.
  cbn [calls trace value final env fmap list_fmap ev].
  split_and!; reflexivity.
Qed.

End Track.

Section Turn.
Context {W : Type} (h0 : ∀ e, W → W * resp e).

(** The end of a response resets the turn: the three flags are false, the
    open agent message, if any, was updated once and is no longer open;
    the track, the connection and the user's message are as before. *)
Theorem response_done_resets_the_turn (w : W) (s : session) :
  let out := interp (seq h0) _handle_response_done w s in
  value out = Ok tt ∧
  calls out = match current_response_message s with
              | Some m => [MessageUpdate m]
              | None => []
              end ∧
  is_generating (final out) = Some false ∧
  is_playing (final out) = Some false ∧
  text_stream_locked (final out) = Some false ∧
  current_response_message (final out) = None ∧
  track_id (final out) = track_id s ∧
  connection (final out) = connection s ∧
  current_user_message (final out) = current_user_message s.
Proof.
  intros out. subst out. unfold _handle_response_done. unfold_handlers.
  destruct s as [? ? ? ? ? ? [m|] ? ?]; run_seq h0 idtac; done.
Qed.

(** An error event ends the generation and unlocks the text stream,
    logs the error and finalizes both open messages, the agent's first;
    it does not touch [is_playing], so a session that was playing audio
    still counts as playing. *)
Theorem error_event_keeps_playing (e : event) (w : W) (s : session) :
  let out := interp (seq h0) (_handle_error_event e) w s in
  value out = Ok tt ∧
  calls out
  = LogError ("[Realtime error] " +:+ error_text e)
    :: match current_response_message s with
       | Some m => [MessageUpdate m]
       | None => []
       end
    ++ match current_user_message s with
       | Some m => [MessageUpdate m]
       | None => []
       end ∧
  is_generating (final out) = Some false ∧
  text_stream_locked (final out) = Some false ∧
  current_response_message (final out) = None ∧
  current_user_message (final out) = None ∧
  is_playing (final out) = is_playing s.
Proof.
  intros out. subst out. unfold _handle_error_event. unfold_handlers.
  destruct s as [? ? ? ? ? ? [m|] [m'|] ?]; run_seq h0 idtac; done.
Qed.

(** A message sent on an open connection while nothing is generating or
    playing cancels and interrupts nothing and draws no new track: after
    the defaults the handler submits the input and requests a response.
    The session counts as generating only once the request has returned.
    When the submission raises, the handler raises that exception and
    requests nothing; when the request raises, the handler raises that
    exception; in both cases it writes nothing more to the session, so the
    flag is not set.  This is so in every environment; [s1] is the session
    the handler reads after the draw of the defaults. *)
Theorem idle_message_is_submitted (h : handler session call resp W)
    (content : string) (c : conn) (w : W) (s : session) :
  let tid0 := (h Uuid4 w s).2 in
  let s1 := (h Uuid4 w s).1.2 in
  let created := h (ItemCreate c content) (h Uuid4 w s).1.1 (filled tid0 s1) in
  let requested := h (ResponseCreate c) created.1.1 created.1.2 in
  let draw := Entry Uuid4 tid0 s s1 in
  let create := Entry (ItemCreate c content) created.2 (filled tid0 s1)
                  created.1.2 in
  let request := Entry (ResponseCreate c) requested.2 created.1.2
                   requested.1.2 in
  connection s1 = Some c →
  truthy (is_generating s1) = false → truthy (is_playing s1) = false →
  interp h (on_message content) w s
  = match created.2, requested.2 with
    | Err x, _ => Run created.1.1 created.1.2 (Err x) [draw; create]
    | Ok _, Err x =>
        Run requested.1.1 requested.1.2 (Err x) [draw; create; request]
    | Ok _, Ok _ =>
        Run requested.1.1 (set_is_generating (Some true) requested.1.2)
          (Ok tt) [draw; create; request]
    end ∧
  is_generating (filled tid0 s1) = Some false ∧
  is_playing (filled tid0 s1) = Some false ∧
  track_id (filled tid0 s1) = Some (default tid0 (track_id s1)).
Proof.
  intros tid0 s1 created requested draw create request Hc Hg Hp.
  split; [|cbn; by rewrite Hg, Hp].
  subst draw create request requested created.
  unfold on_message.
  change (_ensure_session_defaults;; ?k)
    with (_ensure_session_defaults ≫= λ _, k).
  rewrite interp_bind, ensure_session_defaults_any.
  unfold then_run. cbn [value env final trace].
  fold tid0 s1. generalize ((h Uuid4 w s).1.1). intros w1.
  set (s0 := filled tid0 s1).
  assert (connection s0 = Some c) as Hc0 by done.
  assert (is_generating s0 = Some false) as Hg0.
  { subst s0. cbn. by rewrite Hg. }
  assert (is_playing s0 = Some false) as Hp0.
  { subst s0. cbn. by rewrite Hp. }
  clearbody s0 tid0 s1.
  unfold_handlers.
  unfold mbind, prog_bind, mret, prog_ret, perform, gets, modify, returned.
  cbn. rewrite Hc0. cbn. rewrite Hg0, Hp0. cbn.
  destruct (h (ItemCreate c content) w1 s0) as [[w2 s2] [[]|x]]; cbn;
    [|reflexivity].
  destruct (h (ResponseCreate c) w2 s2) as [[w3 s3] [[]|x]]; reflexivity.
Qed.

(** The end of the chat, with nothing else touching the session.  The
    receive task is cancelled and awaited exactly when it is stored and
    has not finished.  When that await raises [asyncio.CancelledError],
    the handler is left by it: the connection manager is not exited and
    the session is as it was, nothing is cleared.  In every other case,
    whether or not the await or the exit of the connection manager raises
    an exception, the handler returns, having exited the stored connection
    manager and cleared the connection, the manager, the task and both
    open messages; the flags and the track are left as they were. *)
Theorem chat_end_cleans_up_unless_cancelled (w : W) (s : session) :
  let out := interp (seq h0) on_chat_end w s in
  (∀ t, TaskCancel t ∈ calls out ↔
        recv_task s = Some t ∧ (h0 (TaskDone t) w).2 = false) ∧
  (existsb cancelled_await (trace out) = true →
   value out = Ok RaisesCancelledError ∧
   final out = s ∧
   ∃ t, recv_task s = Some t ∧
        calls out = [TaskDone t; TaskCancel t; TaskAwait t]) ∧
  (existsb cancelled_await (trace out) = false →
   value out = Ok Returns ∧
   final out = ended s ∧
   calls out
   = match recv_task s with
     | Some t =>
         TaskDone t :: if (h0 (TaskDone t) w).2 then []
                       else [TaskCancel t; TaskAwait t]
     | None => []
     end
     ++ match connection_manager s with
        | Some m => [ManagerExit m]
        | None => []
        end).
Proof.
  intros out. subst out. unfold on_chat_end. unfold_handlers.
  unfold mbind, prog_bind, mret, prog_ret, perform, gets, modify, returned.
  destruct s as [cn [t|] [m|] tr g p rm um lk]; cbn; rewrite ?seq_eq; cbn.
  all: try (destruct (h0 (TaskDone t) w) as [w1 []] eqn:Hd; cbn;
            rewrite ?seq_eq; cbn).
  all: try match goal with
           | |- context [h0 (TaskCancel ?t) ?w] =>
               destruct (h0 (TaskCancel t) w) as [w2 []]; cbn;
               rewrite ?seq_eq; cbn
           end.
  all: try match goal with
           | |- context [h0 (TaskAwait ?t) ?w] =>
               destruct (h0 (TaskAwait t) w) as [w3 [|x|]]; cbn;
               rewrite ?seq_eq; cbn
           end.
  all: try match goal with
           | |- context [h0 (ManagerExit ?m) ?w] =>
               destruct (h0 (ManagerExit m) w) as [w4 [[]|x']]; cbn
           end.
  all: split_and!; try done.
  all: try (intros _; split_and!; try done; eauto).
  all: intros t'; split;
    [ intros Hin; set_unfold in Hin; destruct_or!; simplify_eq; try done;
      rewrite Hd; done
    | intros [[= <-] Hf]; rewrite ?Hd in Hf; try discriminate; set_solver ].
Qed.

(** The final transcript of the user is not shown twice.  When fragments
    were streamed to an open message, the completion only finalizes that
    message; otherwise a transcript that is not blank is sent as one
    message, and a blank one, or one that is not a string, shows nothing. *)
Theorem final_transcript_is_shown_once (final_text : pyval) (w : W)
    (s : session) :
  let out :=
    interp (seq h0) (_handle_user_transcription_completed final_text) w s in
  value out = Ok tt ∧
  current_user_message (final out) = None ∧
  calls out
  = match current_user_message s with
    | Some m => [MessageUpdate m]
    | None =>
        match final_text with
        | PyStr t =>
            if String.eqb (strip t) "" then []
            else [MessageSend t (Some "user") (Some "user_message")]
        | _ => []
        end
    end.
Proof.
  intros out. subst out. unfold _handle_user_transcription_completed.
  unfold_handlers.
  destruct s as [? ? ? ? ? ? ? [m|] ?];
    [run_seq h0 idtac; done|].
  destruct final_text as [|t| |]; try (cbn; done).
  cbn. destruct (String.eqb (strip t) ""); run_seq h0 idtac; done.
Qed.

End Turn.

Definition text_done : event :=
  Event "response.text.done" PyNone (PyStr "") "".

Section Loop.
Context {W : Type}.
Implicit Types h : handler session call resp W.

Lemma dispatch_all_cons h e events w s :
  interp h (dispatch_all (e :: events)) w s
  = then_run (interp h (dispatch e) w s)
      (λ _, interp h (dispatch_all events)).
Proof. unfold dispatch_all. cbn [foldr]. apply interp_bind. Qed.

Lemma dispatch_all_app h before after w s :
  interp h (dispatch_all (before ++ after)) w s
  = then_run (interp h (dispatch_all before) w s)
      (λ _, interp h (dispatch_all after)).
Proof.
  revert w s. induction before as [|e before IH]; intros w s.
  - cbn [app]. unfold then_run. cbn [dispatch_all foldr interp].
    cbn [value env final trace app].
    by destruct (interp h _ w s).
  - cbn [app]. rewrite !dispatch_all_cons.
    destruct (interp h (dispatch e) w s) as [w1 s1 [[]|x] T1];
      unfold then_run at 1 3; cbn; [|done].
    rewrite IH. unfold then_run.
    destruct (value (interp h (dispatch_all before) w1 s1)); cbn;
      by rewrite ?app_assoc.
Qed.

(** An exception of a handler ends the receive loop: the events before
    the one whose handler raises are handled, the exception is logged and
    the loop returns; the events after it are never handled. *)
Theorem receive_loop_stops_at_first_exception h (before after : list event)
    (e : event) (x : exn) (w : W) (s : session) :
  let ran := interp h (dispatch_all before) w s in
  let failed := interp h (dispatch e) (env ran) (final ran) in
  value ran = Ok tt → value failed = Err x →
  let out := interp h (_receive_events_loop (before ++ e :: after)) w s in
  value out = Ok tt ∧
  calls out = calls ran ++ calls failed ++ [LogException x].
Proof.
  intros ran failed Hran Hfailed out. subst out.
  assert (interp h (dispatch_all (before ++ e :: after)) w s
          = Run (env failed) (final failed) (Err x)
              (trace ran ++ trace failed)) as Hbody.
  { rewrite dispatch_all_app. fold ran. unfold then_run. rewrite Hran.
    rewrite dispatch_all_cons. fold failed. unfold then_run.
    by rewrite Hfailed. }
  unfold _receive_events_loop.
  change (foldr _ _ ?l) with (dispatch_all l).
  rewrite interp_try_except, Hbody.
  unfold catch_run. cbn [value env final trace].
  unfold log_exception, perform. cbn [interp].
  destruct (h (LogException x) (env failed) (final failed)) as [[w' s'] []].
  cbn. split; [done|]. unfold calls.
  by rewrite !fmap_app, <-app_assoc.
Qed.

End Loop.

Section Stream.
Context {W : Type} (h0 : ∀ e, W → W * resp e).

Lemma dispatch_text_delta d :
  dispatch (text_delta d) = _handle_agent_text_delta (PyStr d).
Proof. reflexivity. Qed.

Lemma dispatch_text_done : dispatch text_done = _finalize_agent_message.
Proof. reflexivity. Qed.

Lemma stream_agent_text_open m d (w : W) (s : session) :
  current_response_message s = Some m →
  interp (seq h0) (_stream_agent_text d) w s
  = Run (h0 (StreamToken m d) w).1 s (Ok tt) [Entry (StreamToken m d) tt s s].
Proof.
  intros Hm. unfold _stream_agent_text. unfold_handlers.
  unfold mbind, prog_bind, perform, gets, modify. cbn [interp bind].
  rewrite Hm. cbn [interp bind]. rewrite seq_eq.
  by destruct (h0 (StreamToken m d) w) as [w1 []].
Qed.

Lemma stream_agent_text_new d (w : W) (s : session) :
  current_response_message s = None →
  let sent := h0 (MessageSend "" (Some agent_author) None) w in
  let s' := set_current_response_message (Some sent.2) s in
  interp (seq h0) (_stream_agent_text d) w s
  = Run (h0 (StreamToken sent.2 d) sent.1).1 s' (Ok tt)
      [Entry (MessageSend "" (Some agent_author) None) sent.2 s s;
       Entry (StreamToken sent.2 d) tt s' s'].
Proof.
  intros Hm sent s'. subst sent s'.
  unfold _stream_agent_text. unfold_handlers.
  unfold mbind, prog_bind, perform, gets, modify. cbn [interp bind].
  rewrite Hm. cbn [interp bind]. rewrite seq_eq.
  destruct (h0 (MessageSend "" (Some agent_author) None) w) as [w1 m].
  cbn [fst snd interp bind log env final value trace]. rewrite seq_eq.
  by destruct (h0 (StreamToken m d) w1) as [w2 []].
Qed.

Lemma stream_to_open_message m (ds : list string) (w : W) (s : session) :
  Forall (λ d, d ≠ "") ds → current_response_message s = Some m →
  let out :=
    interp (seq h0) (dispatch_all ((text_delta <$> ds) ++ [text_done])) w s in
  value out = Ok tt ∧
  calls out = (StreamToken m <$> ds) ++ [MessageUpdate m] ∧
  current_response_message (final out) = None ∧
  text_stream_locked (final out)
  = match ds with [] => text_stream_locked s | _ => Some true end.
Proof.
  intros Hds. revert w s.
  induction Hds as [|d ds Hd Hds IH]; intros w s Hm out; subst out.
  - cbn [fmap list_fmap app]. rewrite dispatch_all_cons, dispatch_text_done.
    unfold _finalize_agent_message. unfold_handlers.
    unfold then_run. run_seq h0 ltac:(rewrite ?Hm). done.
  - cbn [fmap list_fmap app]. rewrite dispatch_all_cons, dispatch_text_delta.
    rewrite (text_delta_run _ w s d Hd).
    rewrite (stream_agent_text_open m d w
               (set_text_stream_locked (Some true) s) Hm).
    unfold then_run. cbn [value env final trace].
    destruct (IH (h0 (StreamToken m d) w).1
                (set_text_stream_locked (Some true) s) Hm)
      as (Hv & Hcalls & Hcur & Hlock).
    unfold calls in *. cbn [trace value final fmap list_fmap app ev].
    rewrite Hv, Hcalls, Hcur, Hlock.
    split_and!; try done. by destruct ds.
Qed.

(** The text of a response goes to one message.  From a session with no
    open agent message, non-empty text deltas followed by the end of the
    text send one empty message of the agent, stream every delta to it in
    the order of arrival and update it once; afterwards no agent message
    is open and the text stream is locked. *)
Theorem text_stream_uses_one_message (d : string) (ds : list string)
    (w : W) (s : session) :
  Forall (λ d, d ≠ "") (d :: ds) → current_response_message s = None →
  let m := (h0 (MessageSend "" (Some agent_author) None) w).2 in
  let out :=
    interp (seq h0)
      (dispatch_all ((text_delta <$> d :: ds) ++ [text_done])) w s in
  value out = Ok tt ∧
  calls out
  = MessageSend "" (Some agent_author) None
    :: (StreamToken m <$> d :: ds) ++ [MessageUpdate m] ∧
  current_response_message (final out) = None ∧
  text_stream_locked (final out) = Some true.
Proof.
  intros Hds Hm m out. subst out.
  apply Forall_cons in Hds as [Hd Hds].
  cbn [fmap list_fmap app]. rewrite dispatch_all_cons, dispatch_text_delta.
  rewrite (text_delta_run _ w s d Hd).
  rewrite (stream_agent_text_new d w (set_text_stream_locked (Some true) s)
             Hm). fold m.
  unfold then_run. cbn [value env final trace].
  match goal with
  | |- context [interp _ _ ?w' ?s'] =>
      destruct (stream_to_open_message m ds w' s' Hds eq_refl)
        as (Hv & Hcalls & Hcur & Hlock)
  end.
  unfold calls in *. cbn [trace value final fmap list_fmap app ev].
  rewrite Hv, Hcalls, Hcur, Hlock.
  split_and!; try done. by destruct ds.
Qed.

End Stream.

Section Audio.
Context {W : Type} (h0 : ∀ e, W → W * resp e).

(** An audio delta is decoded first.  When the decoder raises, the handler
    raises with nothing sent and the session untouched.  Otherwise the
    session counts as playing and the decoded chunk is sent on the track
    of the session. *)
Theorem audio_chunk_carries_the_session_track (payload : pyval)
    (raw tid : string) (w : W) (s : session) :
  payload = PyStr raw ∨ payload = PyBytes raw → raw ≠ "" →
  track_id s = Some tid → tid ≠ "" →
  let out := interp (seq h0) (_handle_agent_audio_delta payload) w s in
  match (h0 (B64Decode raw) w).2 with
  | Ok data =>
      value out = Ok tt ∧
      calls out = [B64Decode raw; SendAudioChunk data tid] ∧
      is_playing (final out) = Some true ∧
      track_id (final out) = Some tid
  | Err x =>
      out = Run (h0 (B64Decode raw) w).1 s (Err x)
              [Entry (B64Decode raw) (Err x) s s]
  end.
Proof.
  intros Hpayload Hraw Htrack Htid out. subst out.
  assert (nonempty_str_or_bytes payload = Some raw) as Hsome.
  { apply String.eqb_neq in Hraw.
    destruct Hpayload as [-> | ->]; cbn; by rewrite Hraw. }
  apply String.eqb_neq in Htid.
  unfold _handle_agent_audio_delta, _get_track_id. rewrite Hsome.
  unfold_handlers. unfold mbind, prog_bind, perform, gets, modify, returned.
  cbn [interp bind]. rewrite seq_eq.
  destruct (h0 (B64Decode raw) w) as [w1 [data|x]];
    cbn [fst snd interp bind log env final value trace]; [|reflexivity].
  destruct s as [? ? ? ? ? [[]|] ? ? ?]; cbn in Htrack; subst;
    cbn; rewrite Htid; cbn; rewrite seq_eq;
    destruct (h0 (SendAudioChunk data tid) w1) as [w2 []]; done.
Qed.

End Audio.

End RealtimeMore.

(** * More about the realtime agent with tools *)

Module AsyncFCMore.
Import AsyncFC AsyncFCFacts.

(** A call that creates a tool-output item. *)
Definition feeds (c : call) : bool :=
  match c with ItemCreate _ _ _ => true | _ => false end.

Section Done.
Context `{Library} {W : Type} (h0 : ∀ e, W → W * resp e).

(** The done event of a call touches only the buffer of that call: the
    buffers of the other identifiers, the connection and the flag are as
    before.  Without a connection in the session nothing is scheduled and
    the session is left as it was, the buffer of the call included. *)
Theorem done_touches_only_its_buffer (e : event) (other : string) (w : W)
    (s : session) :
  call_id e ≠ Some other →
  let out := interp (seq h0) (_handle_function_call_arguments_done e) w s in
  value out = Ok tt ∧
  buffered other (final out) = buffered other s ∧
  connection (final out) = connection s ∧
  is_generating (final out) = is_generating s ∧
  (connection s = None → out = Run w s (Ok tt) []).
Proof.
  intros Hother out. subst out.
  unfold _handle_function_call_arguments_done.
  destruct (call_id e) as [id|] eqn:He; cbn [truthy_str negb];
    [|by cbn].
  destruct (String.eqb id ""); cbn [negb]; [by cbn|].
  destruct (connection s) as [c|] eqn:Hc; [|cbn; by rewrite Hc].
  unfold_effects. run_seq h0 ltac:(rewrite ?Hc).
  - split_and!; try done.
    unfold buffered. cbn. rewrite lookup_delete_ne by congruence.
    by destruct (pending_function_calls s).
  - by split_and!.
Qed.

End Done.

Section Feed.
Context `{Library} {W : Type} (h : handler session call resp W).

Definition unfed (x : entry session call resp) : Prop := feeds (ev x) = false.

Ltac unfed_step :=
  lazymatch goal with
  | |- always _ _ (mret _) => apply always_mret
  | |- always _ _ (Ret _) => apply always_ret
  | |- always _ _ (Raise _) => apply always_raise
  | |- always _ _ (gets _) => apply always_gets
  | |- always _ _ (modify _) => apply always_modify
  | |- always _ _ (returned _) => apply always_returned
  | |- always ?h ?P (perform ?e) =>
      apply (always_perform h P e); intros; reflexivity
  | |- always _ _ (try_except _ _) => apply always_try_except; [|intros ?]
  | |- always _ _ (_ ≫= _) => apply always_bind; [|intros ?]
  | |- always _ _ (if ?b then _ else _) => destruct b
  end.

Lemma execute_function_call_feeds_nothing name arguments :
  always h unfed (_execute_function_call name arguments).
Proof.
  unfold _execute_function_call, get_weather, search_database.
  unfold_effects. repeat unfed_step.
Qed.

(** The trace holds one creation of a tool-output item, for [call_id]. *)
Definition fed_once (connection : conn) (call_id : string)
    (T : list (entry session call resp)) : Prop :=
  ∃ result, filter (λ c, feeds c = true) (ev <$> T)
            = [ItemCreate connection call_id result].

Lemma fed_once_cons connection call_id x T :
  unfed x → fed_once connection call_id T →
  fed_once connection call_id (x :: T).
Proof.
  intros Hx [result HT]. exists result. cbn [fmap list_fmap].
  rewrite filter_cons_False; [done|]. unfold unfed in Hx. congruence.
Qed.

Lemma fed_once_app connection call_id T1 T2 :
  Forall unfed T1 → fed_once connection call_id T2 →
  fed_once connection call_id (T1 ++ T2).
Proof.
  induction 1 as [|x T1 Hx HT IH]; [done|]. intros HT2. cbn [app].
  by apply fed_once_cons, IH.
Qed.

Hypothesis feed_works :
  ∀ c i o w s, (h (ItemCreate c i o) w s).2 = Ok tt.
Hypothesis request_works :
  ∀ c i w s, (h (ResponseCreate c i) w s).2 = Ok tt.

Lemma working_feed_and_request connection call_id output instructions w s :
  wp h (item_create connection call_id output;;
        request_response connection instructions)
    (λ T v _ _, v = Ok tt ∧ fed_once connection call_id T) w s.
Proof using feed_works request_works.
  unfold wp, request_response, fed_once. unfold_effects.
  unfold mbind, prog_bind, perform, gets, modify, returned.
  cbn [interp bind].
  pose proof (feed_works connection call_id output w s) as Hfeed.
  destruct (h (ItemCreate connection call_id output) w s) as [[w1 s1] r1].
  cbn in Hfeed. subst r1. cbn [interp bind log env final value trace].
  destruct (negb (truthy (is_generating s1))); cbn [interp bind].
  - pose proof (request_works connection instructions w1
                  (set_is_generating (Some true) s1)) as Hreq.
    destruct (h (ResponseCreate connection instructions) w1
                (set_is_generating (Some true) s1)) as [[w2 s2] r2].
    cbn in Hreq. subst r2. cbn. split; [done|]. by eexists.
  - cbn. split; [done|]. by eexists.
Qed.

(** While the connection works, the task of a function call returns
    normally and creates exactly one tool-output item, under the
    identifier of the call, in every environment: the error path, which
    would feed a second item, is not taken. *)
Theorem working_connection_is_fed_once (connection : conn)
    (call_id : string) (name : option string) (arguments : string)
    (w : W) (s : session) :
  let out :=
    interp h (_execute_function_call_async connection call_id name arguments)
      w s in
  value out = Ok tt ∧ fed_once connection call_id (trace out).
Proof using feed_works request_works.
  intros out. subst out.
  change (wp h
            (_execute_function_call_async connection call_id name arguments)
            (λ T v _ _, v = Ok tt ∧ fed_once connection call_id T) w s).
  unfold _execute_function_call_async. unfold_effects.
  set (Q := λ (T : list (entry session call resp)) (v : result ())
              (_ : W) (_ : session),
              v = Ok tt ∧ fed_once connection call_id T).
  assert (∀ x T v w' s', unfed x → Q T v w' s' → Q ([x] ++ T) v w' s')
    as Hcons.
  { intros x T v ? ? Hx [-> HT]. split; [done|]. by apply fed_once_cons. }
  wp_step. wp_step.
  eapply wp_mono; [intros ? ? ? ?; by apply Hcons|].
  apply wp_try_except.
  eapply (wp_mono _ _ Q); [by intros ? [[]|?] ? ? [? ?]|].
  wp_step. wp_step.
  eapply wp_mono; [intros ? ? ? ?; by apply Hcons|].
  wp_step. wp_step.
  eapply wp_mono; [intros ? ? ? ?; by apply Hcons|].
  wp_step. unfold wp at 1.
  match goal with
  | |- context [interp h (_execute_function_call name arguments) ?w' ?s'] =>
      pose proof (execute_function_call_feeds_nothing name arguments w' s')
        as Hquiet;
      destruct (execute_function_call_returns h w' s' name arguments)
        as [result Hresult];
      rewrite Hresult
  end.
  eapply (wp_mono _ _ Q).
  { intros T v w' s' HQ. destruct HQ as [-> HT]. split; [done|].
    apply fed_once_app; [exact Hquiet|exact HT]. }
  wp_step. wp_step.
  eapply wp_mono; [intros ? ? ? ?; by apply Hcons|].
  wp_step. wp_step.
  eapply wp_mono; [intros ? ? ? ?; by apply Hcons|].
  apply working_feed_and_request.
Qed.

End Feed.

End AsyncFCMore.

(** * More scenarios *)

Module MoreExamples.
Import Examples.

(** ** The deep-research flow *)

Lemma unusable_question_starts_nothing_witness :
  strip "  " = "" ∧
  value (interp (seq (DeepResearch.answer stuck_vendor))
           (DeepResearch.on_message re_search_cot_summary demo_config 3
              (Some "  "))
           DeepResearch.start_world busy_session)
  = Ok DeepResearch.Returned ∧
  ∃ notice,
    calls (interp (seq (DeepResearch.answer stuck_vendor))
             (DeepResearch.on_message re_search_cot_summary demo_config 3
                (Some "  "))
             DeepResearch.start_world busy_session)
    = [DeepResearch.SendMessage notice] ∧
    (strip (default "" (Some "  ")) = "" →
     notice = "Please provide a research question.").
Proof.
  split; [vm_compute; reflexivity|].
  apply (DeepResearchMore.unusable_question_starts_nothing
           (seq (DeepResearch.answer stuck_vendor)) re_search_cot_summary
           demo_config 3 (Some "  ") DeepResearch.start_world busy_session).
  left. vm_compute. reflexivity.
Defined.

(** The run of Scenario 1 from a fresh session. *)
Lemma guard_is_released_witness :
  is_ok (value (interp (seq (DeepResearch.answer scenario1))
                  (DeepResearch.on_message re_search_cot_summary demo_config
                     10 (Some "why is the sky blue"))
                  DeepResearch.start_world DeepResearch.new_session)) = true ∧
  DeepResearch.active_run_id
    (final (interp (seq (DeepResearch.answer scenario1))
              (DeepResearch.on_message re_search_cot_summary demo_config 10
                 (Some "why is the sky blue"))
              DeepResearch.start_world DeepResearch.new_session)) = None.
Proof.
  exact (DeepResearchMore.guard_is_released (DeepResearch.answer scenario1)
           re_search_cot_summary demo_config 10 (Some "why is the sky blue")
           DeepResearch.start_world DeepResearch.new_session eq_refl).
Defined.

(** A vendor whose client cannot be entered. *)
Definition unreachable : DeepResearch.vendor :=
  DeepResearch.Vendor (Ok tt)
    (Err (Exn HttpResponseError "service unavailable"))
    (Ok "thread-1") (Ok tt)
    (Ok (DeepResearch.ThreadRun "run-2" "queued" None))
    (λ _, Ok (DeepResearch.ThreadRun "run-2" "in_progress" None))
    (λ _, Ok None) (λ _, 0%Q).

Lemma failed_entry_clears_the_running_guard_witness :
  DeepResearch.active_run_id busy_session = Some "run-1" ∧
  DeepResearch.active_run_id
    (final (interp (seq (DeepResearch.answer unreachable))
              (DeepResearch.on_message re_search_cot_summary demo_config 3
                 (Some "and the sea"))
              DeepResearch.start_world busy_session)) = None ∧
  DeepResearch.tokens
    (calls (interp (seq (DeepResearch.answer unreachable))
              (DeepResearch.on_message re_search_cot_summary demo_config 3
                 (Some "and the sea"))
              DeepResearch.start_world busy_session))
  = [nl +:+ "❗ Unexpected error: service unavailable"].
Proof.
  split; [reflexivity|].
  split; [|vm_compute; reflexivity].
  apply (DeepResearchMore.failed_entry_clears_the_running_guard
           (DeepResearch.answer unreachable) re_search_cot_summary
           demo_config 3 (Some "and the sea") DeepResearch.start_world
           busy_session "run-1"
           (Exn HttpResponseError "service unavailable")).
  - vm_compute. discriminate.
  - discriminate.
  - discriminate.
  - intros w'. reflexivity.
  - intros w'. reflexivity.
  - reflexivity.
Defined.

(** ** The realtime voice agent *)

(** An environment whose connection refuses new items. *)
Definition refusing (c : Realtime.call) (w : Realtime.world)
  : Realtime.world * Realtime.resp c :=
  match c return Realtime.world * Realtime.resp c with
  | Realtime.ItemCreate _ _ => (w, Err (Exn OtherError "connection closed"))
  | c' => Realtime.answer uuids c' w
  end.

Lemma idle_message_is_submitted_witness :
  interp voice (Realtime.on_message "hello") Realtime.start_world listening
  = Run (Realtime.World 1 0)
      (Realtime.set_is_generating (Some true) listening) (Ok tt)
      [Entry Realtime.Uuid4 "track-0" listening listening;
       Entry (Realtime.ItemCreate 1 "hello") (Ok tt) listening listening;
       Entry (Realtime.ResponseCreate 1) (Ok tt) listening listening] ∧
  interp (seq refusing) (Realtime.on_message "hello") Realtime.start_world
    listening
  = Run (Realtime.World 1 0) listening
      (Err (Exn OtherError "connection closed"))
      [Entry Realtime.Uuid4 "track-0" listening listening;
       Entry (Realtime.ItemCreate 1 "hello")
         (Err (Exn OtherError "connection closed")) listening listening] ∧
  Realtime.is_generating listening = Some false ∧
  Realtime.track_id listening = Some "track-old".
Proof.
  split; [|split].
  - exact (proj1 (RealtimeMore.idle_message_is_submitted voice "hello" 1
                    Realtime.start_world listening eq_refl eq_refl eq_refl)).
  - exact (proj1 (RealtimeMore.idle_message_is_submitted (seq refusing)
                    "hello" 1 Realtime.start_world listening eq_refl eq_refl
                    eq_refl)).
  - split; reflexivity.
Defined.

(** An environment in which the cancellation reaches the awaiter: the
    receive task had not started when it was cancelled. *)
Definition unstarted (c : Realtime.call) (w : Realtime.world)
  : Realtime.world * Realtime.resp c :=
  match c return Realtime.world * Realtime.resp c with
  | Realtime.TaskAwait _ => (w, Realtime.AwaitCancelled)
  | c' => Realtime.answer uuids c' w
  end.

Lemma chat_end_cleans_up_unless_cancelled_witness :
  (value (interp (seq unstarted) Realtime.on_chat_end Realtime.start_world
            answering) = Ok Realtime.RaisesCancelledError ∧
   final (interp (seq unstarted) Realtime.on_chat_end Realtime.start_world
            answering) = answering ∧
   ∃ t, Realtime.recv_task answering = Some t ∧
        calls (interp (seq unstarted) Realtime.on_chat_end
                 Realtime.start_world answering)
        = [Realtime.TaskDone t; Realtime.TaskCancel t;
           Realtime.TaskAwait t]) ∧
  (value (interp voice Realtime.on_chat_end Realtime.start_world answering)
   = Ok Realtime.Returns ∧
   final (interp voice Realtime.on_chat_end Realtime.start_world answering)
   = Realtime.ended answering ∧
   calls (interp voice Realtime.on_chat_end Realtime.start_world answering)
   = [Realtime.TaskDone 2; Realtime.TaskCancel 2; Realtime.TaskAwait 2;
      Realtime.ManagerExit 3]).
Proof.
  split.
  - exact (proj1 (proj2 (RealtimeMore.chat_end_cleans_up_unless_cancelled
                           unstarted Realtime.start_world answering))
             eq_refl).
  - exact (proj2 (proj2 (RealtimeMore.chat_end_cleans_up_unless_cancelled
                           (Realtime.answer uuids) Realtime.start_world
                           answering))
             eq_refl).
Defined.

(** An environment whose decoder rejects every payload. *)
Definition undecodable (c : Realtime.call) (w : Realtime.world)
  : Realtime.world * Realtime.resp c :=
  match c return Realtime.world * Realtime.resp c with
  | Realtime.B64Decode _ => (w, Err (Exn OtherError "Incorrect padding"))
  | c' => Realtime.answer uuids c' w
  end.

Definition audio_delta (raw : string) : Realtime.event :=
  Realtime.Event "response.audio.delta" (PyStr raw) (PyStr "") "".

Lemma receive_loop_stops_at_first_exception_witness :
  value (interp (seq undecodable)
           (Realtime._receive_events_loop
              ([RealtimeMore.text_delta "Hi"] ++ audio_delta "%%%"
               :: [RealtimeMore.text_delta "lost"]))
           Realtime.start_world listening) = Ok tt ∧
  calls (interp (seq undecodable)
           (Realtime._receive_events_loop
              ([RealtimeMore.text_delta "Hi"] ++ audio_delta "%%%"
               :: [RealtimeMore.text_delta "lost"]))
           Realtime.start_world listening)
  = [Realtime.MessageSend "" (Some Realtime.agent_author) None;
     Realtime.StreamToken 0 "Hi"; Realtime.B64Decode "%%%";
     Realtime.LogException (Exn OtherError "Incorrect padding")].
Proof.
  destruct (RealtimeMore.receive_loop_stops_at_first_exception
              (seq undecodable) [RealtimeMore.text_delta "Hi"]
              [RealtimeMore.text_delta "lost"] (audio_delta "%%%")
              (Exn OtherError "Incorrect padding")
              Realtime.start_world listening
              ltac:(vm_compute; reflexivity) ltac:(vm_compute; reflexivity))
    as [Hvalue Hcalls].
  split; [exact Hvalue|]. rewrite Hcalls. vm_compute. reflexivity.
Defined.

Lemma text_stream_uses_one_message_witness :
  calls (interp voice
           (RealtimeMore.dispatch_all
              ((RealtimeMore.text_delta <$> ["Hel"; "lo"])
               ++ [RealtimeMore.text_done]))
           Realtime.start_world listening)
  = [Realtime.MessageSend "" (Some Realtime.agent_author) None;
     Realtime.StreamToken 0 "Hel"; Realtime.StreamToken 0 "lo";
     Realtime.MessageUpdate 0] ∧
  Realtime.current_response_message
    (final (interp voice
              (RealtimeMore.dispatch_all
                 ((RealtimeMore.text_delta <$> ["Hel"; "lo"])
                  ++ [RealtimeMore.text_done]))
              Realtime.start_world listening)) = None.
Proof.
  destruct (RealtimeMore.text_stream_uses_one_message
              (Realtime.answer uuids) "Hel" ["lo"] Realtime.start_world
              listening
              ltac:(repeat constructor; discriminate) eq_refl)
    as (_ & Hcalls & Hclosed & _).
  split; [exact Hcalls|exact Hclosed].
Defined.

Lemma audio_chunk_carries_the_session_track_witness :
  calls (interp voice (Realtime._handle_agent_audio_delta (PyStr "AAAA"))
           Realtime.start_world listening)
  = [Realtime.B64Decode "AAAA"; Realtime.SendAudioChunk "AAAA" "track-old"] ∧
  Realtime.is_playing
    (final (interp voice (Realtime._handle_agent_audio_delta (PyStr "AAAA"))
              Realtime.start_world listening)) = Some true.
Proof.
  pose proof (RealtimeMore.audio_chunk_carries_the_session_track
                (Realtime.answer uuids) (PyStr "AAAA") "AAAA" "track-old"
                Realtime.start_world listening (or_introl eq_refl)
                ltac:(discriminate) eq_refl ltac:(discriminate)) as Hchunk.
  cbn in Hchunk. destruct Hchunk as (_ & Hcalls & Hplaying & _).
  split; [exact Hcalls|exact Hplaying].
Defined.

(** ** The realtime agent with tools *)

(** The quiet environment, as one that leaves the session alone. *)
Definition calm (c : AsyncFC.call) (w : AsyncFC.world)
  : AsyncFC.world * AsyncFC.resp c :=
  ((AsyncFC.answer quiet_world c w idle).1.1,
   (AsyncFC.answer quiet_world c w idle).2).

(** A session that buffers fragments of two calls. *)
Definition buffering : AsyncFC.session :=
  final (interp (seq calm)
           (AsyncFC.receive_deltas
              [delta_event fragment1;
               AsyncFC.Event (Some "c2") None "{}" "" (Some "item-2")])
           AsyncFC.start_world idle).

Lemma done_touches_only_its_buffer_witness :
  AsyncFC.buffered "c2" buffering = "{}" ∧
  AsyncFC.buffered "c1" buffering = fragment1 ∧
  AsyncFC.buffered "c1"
    (final (interp (seq calm)
              (AsyncFC._handle_function_call_arguments_done done_event)
              AsyncFC.start_world buffering)) = "" ∧
  AsyncFC.buffered "c2"
    (final (interp (seq calm)
              (AsyncFC._handle_function_call_arguments_done done_event)
              AsyncFC.start_world buffering))
  = AsyncFC.buffered "c2" buffering.
Proof.
  split; [vm_compute; reflexivity|].
  split; [vm_compute; reflexivity|].
  split; [vm_compute; reflexivity|].
  apply (AsyncFCMore.done_touches_only_its_buffer calm done_event "c2"
           AsyncFC.start_world buffering).
  discriminate.
Defined.

Lemma working_connection_is_fed_once_witness :
  value (task quiet_world) = Ok tt ∧
  AsyncFCMore.fed_once 1 "c1" (trace (task quiet_world)).
Proof.
  apply (AsyncFCMore.working_connection_is_fed_once
           (H := library) (AsyncFC.answer quiet_world)).
  - intros. reflexivity.
  - intros. reflexivity.
Defined.

End MoreExamples.
